(** * Miniflux (SQLite edition): entry storage engine

    A shallow embedding of the entry reconciler, the stale-entry reaper
    and the bulk status operations of the [storage] package, and of its
    previous/next navigator ([EntryPaginationBuilder]), followed by the
    properties the specification states about them.

    The file is laid out as: errors and data model; the storage code
    (section [Storage]); a reference store to run it on; the vocabulary of
    the properties; example worlds; the properties (section
    [Properties]); the properties on the example worlds.

    Conventions of the embedding:
    - a table is the list of its rows in rowid order;
    - an [INTEGER] column and a Go [int64]/[int] is a [Z]; the quantities
      involved (row ids, counts, day numbers) stay far from the 64-bit
      bounds, no arithmetic on them can wrap in the code modelled here;
    - a [DATETIME] value is an instant, numbered in seconds ([Z]);
      [datetime('now')] and [time.Now()] read the clock of the [World];
    - a [TEXT] column and a Go [string] is a [string], compared byte-wise
      (the [BINARY] collation of SQLite and [==] of Go);
    - every call that reaches the database driver may fail: the [World]
      carries the schedule of the driver's next outcomes, so that the
      [if err != nil] branches of the source are reachable in the model. *)

From Stdlib Require Import ZArith List String Ascii Bool Lia Sorted.
Import ListNotations.

Local Open Scope string_scope.
Local Open Scope list_scope.
Local Open Scope Z_scope.

(** ** Errors *)

(** Go errors.  [DriverError] is what [database/sql] hands back,
    [ErrNoRows] is [sql.ErrNoRows], [ErrorsNew msg] is [errors.New(msg)]
    (or an [fmt.Errorf] without verb), [Errorf ctx err] is
    [fmt.Errorf(ctx + ": %v", err)] and [Errorf2 ctx err cause] the
    two-verb message built when a rollback fails. *)
Inductive error : Type :=
| DriverError (msg : string)
| ErrNoRows
| ErrorsNew (msg : string)
| Errorf (ctx : string) (err : error)
| Errorf2 (ctx : string) (err cause : error).

Inductive result (A : Type) : Type :=
| Ok (a : A)
| Err (e : error).
Arguments Ok {A} a.
Arguments Err {A} e.

(** ** Data model *)

(** [model.EntryStatusUnread], [model.EntryStatusRead] and
    [model.EntryStatusRemoved]: the three values the [CHECK] constraint of
    the [entries] table admits. *)
Definition EntryStatusUnread : string := "unread".
Definition EntryStatusRead : string := "read".
Definition EntryStatusRemoved : string := "removed".

(** [model.Enclosure], the fields the entry code touches. *)
Record Enclosure : Type := mkEnclosure {
  EnclosureID : Z;
  EnclosureUserID : Z;
  EnclosureEntryID : Z;
  EnclosureURL : string;
}.

(** [model.Entry]: a candidate handed over by the feed parser, and what
    [RefreshFeedEntries] gives back for a created entry. *)
Record Entry : Type := mkEntry {
  ID : Z;
  UserID : Z;
  FeedID : Z;
  Status : string;
  Hash : string;
  Title : string;
  URL : string;
  CommentsURL : string;
  Date : Z;
  CreatedAt : Z;
  ChangedAt : Z;
  Content : string;
  Author : string;
  ReadingTime : Z;
  Enclosures : list Enclosure;
  Tags : list string;
}.

(** Rows of the [entries] table (columns of the final schema that the
    modelled statements read or write). *)
Module entries.
Record row : Type := mk {
  id : Z;
  user_id : Z;
  feed_id : Z;
  hash : string;
  published_at : Z;
  title : string;
  url : string;
  comments_url : string;
  author : string;
  content : string;
  status : string;
  starred : Z;
  changed_at : Z;
  share_code : string;
  reading_time : Z;
  created_at : Z;
  tags : string;
}.
End entries.

Module feeds.
Record row : Type := mk {
  id : Z;
  user_id : Z;
  category_id : Z;
  hide_globally : Z;
}.
End feeds.

Module categories.
Record row : Type := mk {
  id : Z;
  user_id : Z;
  hide_globally : Z;
}.
End categories.

(** What the entry code uses without defining it: the enclosure store
    ([createEnclosure] and [updateEnclosures] live in the enclosure file,
    the [ON DELETE CASCADE] of [enclosures.entry_id] in the engine) and
    [json.Marshal] on a list of tags, [strings.ToLower], and the [LIKE]
    operator of the engine ([sql_like pattern text]).  The enclosure table
    is reachable only through these operations. *)
Class Collaborators : Type := {
  EnclosureTable : Type;
  createEnclosure :
    Enclosure -> EnclosureTable -> result (Enclosure * EnclosureTable);
  updateEnclosures : Entry -> EnclosureTable -> result EnclosureTable;
  cascadeEnclosures : list Z -> EnclosureTable -> EnclosureTable;
  json_Marshal : list string -> string;
  strings_ToLower : string -> string;
  sql_like : string -> string -> bool;
}.

(** A detached goroutine waiting to run: the reaper call
    [s.cleanupEntries(feedID, entryHashes)] together with the user id it
    logs on failure. *)
Record Goroutine : Type := mkGoroutine {
  go_userID : Z;
  go_feedID : Z;
  go_entryHashes : list string;
}.

Section Storage.

Context `{Collab : Collaborators}.

(** The database and its surroundings. [entries_seq] is the
    [sqlite_sequence] counter of the [AUTOINCREMENT] key. *)
Record World : Type := mkWorld {
  entries_tbl : list entries.row;
  entries_seq : Z;
  feeds_tbl : list feeds.row;
  categories_tbl : list categories.row;
  enclosures_tbl : EnclosureTable;
  clock : Z;
  faults : list (option string);
  goroutines : list Goroutine;
  log : list error;
}.

Definition set_entries (rows : list entries.row) (w : World) : World :=
  mkWorld rows (entries_seq w) (feeds_tbl w) (categories_tbl w)
          (enclosures_tbl w) (clock w) (faults w) (goroutines w) (log w).

Definition set_entries_seq (n : Z) (w : World) : World :=
  mkWorld (entries_tbl w) n (feeds_tbl w) (categories_tbl w)
          (enclosures_tbl w) (clock w) (faults w) (goroutines w) (log w).

Definition set_enclosures (t : EnclosureTable) (w : World) : World :=
  mkWorld (entries_tbl w) (entries_seq w) (feeds_tbl w) (categories_tbl w)
          t (clock w) (faults w) (goroutines w) (log w).

Definition set_faults (fs : list (option string)) (w : World) : World :=
  mkWorld (entries_tbl w) (entries_seq w) (feeds_tbl w) (categories_tbl w)
          (enclosures_tbl w) (clock w) fs (goroutines w) (log w).

Definition set_goroutines (gs : list Goroutine) (w : World) : World :=
  mkWorld (entries_tbl w) (entries_seq w) (feeds_tbl w) (categories_tbl w)
          (enclosures_tbl w) (clock w) (faults w) gs (log w).

Definition set_log (l : list error) (w : World) : World :=
  mkWorld (entries_tbl w) (entries_seq w) (feeds_tbl w) (categories_tbl w)
          (enclosures_tbl w) (clock w) (faults w) (goroutines w) l.

(** ** The state-and-error monad of storage code *)

Definition M (A : Type) : Type := World -> result A * World.

Definition ret {A : Type} (a : A) : M A := fun w => (Ok a, w).

Definition fail {A : Type} (e : error) : M A := fun w => (Err e, w).

Definition bind {A B : Type} (m : M A) (k : A -> M B) : M B :=
  fun w =>
    match m w with
    | (Ok a, w') => k a w'
    | (Err e, w') => (Err e, w')
    end.

(** [x, err := m; if err != nil { return h(err) }]. *)
Definition wrap {A : Type} (h : error -> error) (m : M A) : M A :=
  fun w =>
    match m w with
    | (Ok a, w') => (Ok a, w')
    | (Err e, w') => (Err (h e), w')
    end.

Definition modify (f : World -> World) : M unit := fun w => (Ok tt, f w).

Definition get {A : Type} (f : World -> A) : M A := fun w => (Ok (f w), w).


Notation "x <- m ;; k" := (bind m (fun x => k))
  (at level 61, m at next level, right associativity).
Notation "m ;;; k" := (bind m (fun _ => k))
  (at level 61, right associativity).

(** ** The driver and its transactions *)

(** One round trip to the driver: it answers with the next scheduled
    outcome ([Some msg] is a failure); an exhausted schedule is a healthy
    driver.  The schedule stands for every reason the engine has to refuse
    a call that the tables below do not decide (I/O, a busy writer, a
    resource limit, foreign keys when enforced). *)
Definition driver : M unit :=
  fun w =>
    match faults w with
    | [] => (Ok tt, w)
    | None :: fs => (Ok tt, set_faults fs w)
    | Some msg :: fs => (Err (DriverError msg), set_faults fs w)
    end.

(** [*sql.Tx]: what a rollback brings back. *)
Record Tx : Type := mkTx {
  tx_entries : list entries.row;
  tx_entries_seq : Z;
  tx_enclosures : EnclosureTable;
}.

Definition restore (tx : Tx) (w : World) : World :=
  set_enclosures (tx_enclosures tx)
    (set_entries_seq (tx_entries_seq tx) (set_entries (tx_entries tx) w)).

Definition Begin : M Tx :=
  driver ;;;
  get (fun w => mkTx (entries_tbl w) (entries_seq w) (enclosures_tbl w)).

(** A transaction that is not committed leaves nothing behind, whether
    [Rollback] reports success or not, and also when [Commit] fails. *)
Definition Rollback (tx : Tx) : M unit :=
  fun w => let (r, w') := driver w in (r, restore tx w').

Definition Commit (tx : Tx) : M unit :=
  fun w =>
    match driver w with
    | (Ok u, w') => (Ok u, w')
    | (Err e, w') => (Err e, restore tx w')
    end.

(** ** Statements on the [entries] table *)

(** [UPDATE entries SET ... WHERE p]: the rows that satisfy [p] are
    rewritten by [f]; the answer is [RowsAffected].  With this driver
    [RowsAffected] and [LastInsertId] read a number the statement has
    already returned and report no error of their own, so the branches of
    the source that test their error are not modelled. *)
Definition exec_update (p : entries.row -> bool)
    (f : entries.row -> entries.row) : M Z :=
  driver ;;;
  fun w =>
    (Ok (Z.of_nat (List.length (filter p (entries_tbl w)))),
     set_entries (map (fun r => if p r then f r else r) (entries_tbl w)) w).

(** [DELETE FROM entries WHERE p], with the cascade on enclosures. *)
Definition exec_delete (p : entries.row -> bool) : M Z :=
  driver ;;;
  fun w =>
    let gone := filter p (entries_tbl w) in
    (Ok (Z.of_nat (List.length gone)),
     set_enclosures
       (cascadeEnclosures (map entries.id gone) (enclosures_tbl w))
       (set_entries (filter (fun r => negb (p r)) (entries_tbl w)) w)).

(** [QueryRow(SELECT col FROM entries WHERE p).Scan(&x)]: the first row
    in rowid order, [sql.ErrNoRows] when there is none. *)
Definition query_row {A : Type} (p : entries.row -> bool)
    (col : entries.row -> A) : M A :=
  driver ;;;
  fun w =>
    match find p (entries_tbl w) with
    | Some r => (Ok (col r), w)
    | None => (Err ErrNoRows, w)
    end.

Definition max_rowid (rows : list entries.row) : Z :=
  fold_right (fun r m => Z.max (entries.id r) m) 0 rows.

(** The statement of [createEntry]; the columns it does not list take
    their defaults ([status] 'unread', [starred] 0, [share_code] '',
    [created_at] now).  The engine enforces [UNIQUE (feed_id, hash)] and
    picks a key above every key the table has ever held. *)
Definition exec_insert_entry (entry : Entry) : M Z :=
  driver ;;;
  fun w =>
    if existsb (fun r => (entries.feed_id r =? FeedID entry)
                         && (entries.hash r =? Hash entry)%string)
               (entries_tbl w)
    then (Err (DriverError
                 "UNIQUE constraint failed: entries.feed_id, entries.hash"), w)
    else
      let id := Z.max (entries_seq w) (max_rowid (entries_tbl w)) + 1 in
      let r := entries.mk id (UserID entry) (FeedID entry) (Hash entry)
                 (Date entry) (Title entry) (URL entry) (CommentsURL entry)
                 (Author entry) (Content entry) "unread" 0 (clock w) ""
                 (ReadingTime entry) (clock w) (json_Marshal (Tags entry)) in
      (Ok id, set_entries_seq id (set_entries (entries_tbl w ++ [r]) w)).

(** Calls into the enclosure store, inside the current transaction. *)
Definition on_enclosures {A : Type}
    (f : EnclosureTable -> result (A * EnclosureTable)) : M A :=
  fun w =>
    match f (enclosures_tbl w) with
    | Ok (a, t) => (Ok a, set_enclosures t w)
    | Err e => (Err e, w)
    end.

(** ** The reconciler *)

Definition set_owner (userID feedID : Z) (e : Entry) : Entry :=
  mkEntry (ID e) userID feedID (Status e) (Hash e) (Title e) (URL e)
          (CommentsURL e) (Date e) (CreatedAt e) (ChangedAt e) (Content e)
          (Author e) (ReadingTime e) (Enclosures e) (Tags e).

Definition set_ID (id : Z) (e : Entry) : Entry :=
  mkEntry id (UserID e) (FeedID e) (Status e) (Hash e) (Title e) (URL e)
          (CommentsURL e) (Date e) (CreatedAt e) (ChangedAt e) (Content e)
          (Author e) (ReadingTime e) (Enclosures e) (Tags e).

Definition set_created (status : string) (t : Z) (e : Entry) : Entry :=
  mkEntry (ID e) (UserID e) (FeedID e) status (Hash e) (Title e) (URL e)
          (CommentsURL e) (Date e) t t (Content e)
          (Author e) (ReadingTime e) (Enclosures e) (Tags e).

Definition set_Enclosures (l : list Enclosure) (e : Entry) : Entry :=
  mkEntry (ID e) (UserID e) (FeedID e) (Status e) (Hash e) (Title e) (URL e)
          (CommentsURL e) (Date e) (CreatedAt e) (ChangedAt e) (Content e)
          (Author e) (ReadingTime e) l (Tags e).

Definition bind_enclosure (userID entryID : Z) (c : Enclosure) : Enclosure :=
  mkEnclosure (EnclosureID c) userID entryID (EnclosureURL c).

(** The loop of [createEntry] over [entry.Enclosures]. *)
Fixpoint createEnclosures (userID entryID : Z) (l : list Enclosure)
    : M (list Enclosure) :=
  match l with
  | [] => ret []
  | enclosure :: rest =>
      c <- on_enclosures
             (createEnclosure (bind_enclosure userID entryID enclosure)) ;;
      cs <- createEnclosures userID entryID rest ;;
      ret (c :: cs)
  end.

(** [createEntry]: the entry comes back with its key, status and
    timestamps filled in. *)
Definition createEntry (entry : Entry) : M Entry :=
  id <- wrap (Errorf "store: unable to create entry")
          (exec_insert_entry entry) ;;
  t <- get clock ;;
  let entry := set_created "unread" t (set_ID id entry) in
  cs <- createEnclosures (UserID entry) (ID entry) (Enclosures entry) ;;
  ret (set_Enclosures cs entry).

(** The [WHERE user_id=? AND feed_id=? AND hash=?] of [updateEntry]. *)
Definition same_user_feed_hash (entry : Entry) (r : entries.row) : bool :=
  (entries.user_id r =? UserID entry)
  && (entries.feed_id r =? FeedID entry)
  && (entries.hash r =? Hash entry)%string.

(** The [SET] clause of [updateEntry]. *)
Definition refreshed (entry : Entry) (r : entries.row) : entries.row :=
  entries.mk (entries.id r) (entries.user_id r) (entries.feed_id r)
    (entries.hash r) (entries.published_at r)
    (Title entry) (URL entry) (CommentsURL entry) (Author entry)
    (Content entry) (entries.status r) (entries.starred r)
    (entries.changed_at r) (entries.share_code r) (ReadingTime entry)
    (entries.created_at r) (json_Marshal (Tags entry)).

Definition updateEntry (entry : Entry) : M unit :=
  rowsAffected <- wrap (Errorf "store: unable to update entry")
                    (exec_update (same_user_feed_hash entry)
                                 (refreshed entry)) ;;
  if rowsAffected =? 0
  then fail (ErrorsNew "store: no entry found to update")
  else
    id <- wrap (Errorf "store: unable to update entry")
            (query_row (same_user_feed_hash entry) entries.id) ;;
    let entry := set_ID id entry in
    let entry :=
      set_Enclosures
        (map (bind_enclosure (UserID entry) (ID entry)) (Enclosures entry))
        entry in
    on_enclosures
      (fun t => match updateEnclosures entry t with
                | Ok t' => Ok (tt, t')
                | Err e => Err e
                end).

(** The [WHERE feed_id=? AND hash=?] of [entryExists]: the user is not
    part of the key. *)
Definition same_feed_hash (entry : Entry) (r : entries.row) : bool :=
  (entries.feed_id r =? FeedID entry)
  && (entries.hash r =? Hash entry)%string.

Definition entryExists (entry : Entry) : M bool :=
  wrap (Errorf "store: unable to check if entry exists")
    (driver ;;;
     get (fun w => existsb (same_feed_hash entry) (entries_tbl w))).

(** The [WHERE] clause of the reaper's [DELETE]. *)
Definition stale (feedID : Z) (entryHashes : list string)
    (r : entries.row) : bool :=
  (entries.feed_id r =? feedID)
  && (entries.status r =? EntryStatusRemoved)%string
  && negb (existsb (String.eqb (entries.hash r)) entryHashes).

Definition cleanupEntries (feedID : Z) (entryHashes : list string) : M unit :=
  if (Z.of_nat (List.length entryHashes) =? 0)
  then ret tt
  else
    wrap (Errorf "store: unable to cleanup entries")
      (exec_delete (stale feedID entryHashes)) ;;;
    ret tt.

(** The error path of the loop body: roll back, then return. *)
Definition rollback_return {A : Type} (tx : Tx) (err : error) : M A :=
  fun w =>
    match Rollback tx w with
    | (Ok _, w') => (Err err, w')
    | (Err rollbackErr, w') =>
        (Err (Errorf2 "store: unable to rollback transaction"
                rollbackErr err), w')
    end.

Definition or_rollback {A : Type} (tx : Tx) (m : M A) : M A :=
  fun w =>
    match m w with
    | (Ok a, w') => (Ok a, w')
    | (Err err, w') => rollback_return tx err w'
    end.

(** One iteration of the loop of [RefreshFeedEntries]: its own
    transaction around check, create-or-update and commit.  The answer is
    the entry to append to [newEntries], if any. *)
Definition refresh_entry (userID feedID : Z) (updateExistingEntries : bool)
    (entry : Entry) : M (option Entry) :=
  let entry := set_owner userID feedID entry in
  tx <- wrap (Errorf "store: unable to start transaction") Begin ;;
  entryExists <- or_rollback tx (entryExists entry) ;;
  created <- or_rollback tx
    (if entryExists : bool
     then (if updateExistingEntries
           then updateEntry entry ;;; ret None
           else ret None)
     else (e <- createEntry entry ;; ret (Some e))) ;;
  wrap (Errorf "store: unable to commit transaction") (Commit tx) ;;;
  ret created.

Definition append_created (newEntries : list Entry) (c : option Entry)
    : list Entry :=
  match c with
  | Some e => newEntries ++ [e]
  | None => newEntries
  end.

Fixpoint refresh_loop (userID feedID : Z) (updateExistingEntries : bool)
    (entries : list Entry) (newEntries : list Entry)
    (entryHashes : list string) : M (list Entry * list string) :=
  match entries with
  | [] => ret (newEntries, entryHashes)
  | entry :: rest =>
      created <- refresh_entry userID feedID updateExistingEntries entry ;;
      refresh_loop userID feedID updateExistingEntries rest
        (append_created newEntries created)
        (entryHashes ++ [Hash entry])
  end.

(** [go func() { ... }()]: the call is queued, the caller goes on. *)
Definition go (g : Goroutine) : M unit :=
  modify (fun w => set_goroutines (goroutines w ++ [g]) w).

Definition RefreshFeedEntries (userID feedID : Z) (entries : list Entry)
    (updateExistingEntries : bool) : M (list Entry) :=
  r <- refresh_loop userID feedID updateExistingEntries entries [] [] ;;
  go (mkGoroutine userID feedID (snd r)) ;;;
  ret (fst r).

(** The body of the goroutine started by [RefreshFeedEntries]: a failure
    of the reaper is logged and goes no further. *)
Definition run_goroutine (g : Goroutine) : M unit :=
  fun w =>
    match cleanupEntries (go_feedID g) (go_entryHashes g) w with
    | (Ok _, w') => (Ok tt, w')
    | (Err e, w') => (Ok tt, set_log (log w' ++ [e]) w')
    end.

(** The scheduler lets the [n]-th waiting goroutine run to completion. *)
Definition schedule (n : nat) : M unit :=
  fun w =>
    match nth_error (goroutines w) n with
    | Some g =>
        run_goroutine g
          (set_goroutines
             (firstn n (goroutines w) ++ skipn (S n) (goroutines w)) w)
    | None => (Ok tt, w)
    end.

(** ** Bulk status operations *)

(** [ORDER BY]: a stable insertion sort under the comparison [le]; rows
    the comparison does not separate keep the order they are met in. *)
Fixpoint insert_by {A : Type} (le : A -> A -> bool) (x : A) (l : list A)
    : list A :=
  match l with
  | [] => [x]
  | y :: l' => if le x y then x :: y :: l' else y :: insert_by le x l'
  end.

Definition order_by {A : Type} (le : A -> A -> bool) (l : list A) : list A :=
  fold_right (insert_by le) [] l.

(** [LIMIT n]. *)
Definition limit_rows {A : Type} (n : Z) (l : list A) : list A :=
  firstn (Z.to_nat n) l.

Definition id_in (ids : list Z) (r : entries.row) : bool :=
  existsb (Z.eqb (entries.id r)) ids.

Definition set_status (status : string) (r : entries.row) : entries.row :=
  entries.mk (entries.id r) (entries.user_id r) (entries.feed_id r)
    (entries.hash r) (entries.published_at r) (entries.title r)
    (entries.url r) (entries.comments_url r) (entries.author r)
    (entries.content r) status (entries.starred r)
    (entries.changed_at r) (entries.share_code r) (entries.reading_time r)
    (entries.created_at r) (entries.tags r).

Definition set_starred (starred : Z) (r : entries.row) : entries.row :=
  entries.mk (entries.id r) (entries.user_id r) (entries.feed_id r)
    (entries.hash r) (entries.published_at r) (entries.title r)
    (entries.url r) (entries.comments_url r) (entries.author r)
    (entries.content r) (entries.status r) starred
    (entries.changed_at r) (entries.share_code r) (entries.reading_time r)
    (entries.created_at r) (entries.tags r).

Definition set_changed_at (t : Z) (r : entries.row) : entries.row :=
  entries.mk (entries.id r) (entries.user_id r) (entries.feed_id r)
    (entries.hash r) (entries.published_at r) (entries.title r)
    (entries.url r) (entries.comments_url r) (entries.author r)
    (entries.content r) (entries.status r) (entries.starred r)
    t (entries.share_code r) (entries.reading_time r)
    (entries.created_at r) (entries.tags r).

(** The sub-select of [ArchiveEntries]. [datetime('now', '-N days')] is
    the clock minus [N] days. *)
Definition archivable (status : string) (days : Z) (t : Z)
    (r : entries.row) : bool :=
  (entries.status r =? status)%string
  && (entries.starred r =? 0)
  && (entries.share_code r =? EmptyString)%string
  && (entries.created_at r <? t - days * 86400).

Definition created_at_asc (a b : entries.row) : bool :=
  entries.created_at a <=? entries.created_at b.

Definition ArchiveEntries (status : string) (days limit : Z) : M Z :=
  if (days <? 0) || (limit <=? 0)
  then ret 0
  else
    wrap (Errorf "store: unable to archive entries")
      (t <- get clock ;;
       rows <- get entries_tbl ;;
       let ids :=
         map entries.id
           (limit_rows limit
              (order_by created_at_asc
                 (filter (archivable status days t) rows))) in
       exec_update (id_in ids) (set_status EntryStatusRemoved)).

(** The [CHECK] constraint on [status]. *)
Definition valid_status (status : string) : bool :=
  (status =? "unread")%string || (status =? "read")%string
  || (status =? "removed")%string.

(** An [UPDATE] that writes a status supplied by the caller: the engine
    aborts the statement when a row it rewrites fails the [CHECK]. *)
Definition exec_update_status (p : entries.row -> bool) (status : string)
    (f : entries.row -> entries.row) : M Z :=
  fun w =>
    if negb (valid_status status) && existsb p (entries_tbl w)
    then
      (driver ;;;
       fail (DriverError "CHECK constraint failed: status")) w
    else exec_update p f w.

Definition SetEntriesStatus (userID : Z) (entryIDs : list Z)
    (status : string) : M unit :=
  if Z.of_nat (List.length entryIDs) =? 0
  then ret tt
  else
    wrap (Errorf "store: unable to update entries statuses")
      (t <- get clock ;;
       exec_update_status
         (fun r => (entries.user_id r =? userID) && id_in entryIDs r)
         status
         (fun r => set_changed_at t (set_status status r))) ;;;
    ret tt.

(** The three-way join every visibility query runs on. *)
Definition JoinedRow : Type := (entries.row * feeds.row * categories.row)%type.

Definition joined (w : World) : list JoinedRow :=
  flat_map
    (fun e =>
       flat_map
         (fun f =>
            map (fun c => (e, f, c))
                (filter (fun c => categories.id c =? feeds.category_id f)
                        (categories_tbl w)))
         (filter (fun f => feeds.id f =? entries.feed_id e) (feeds_tbl w)))
    (entries_tbl w).

Definition jr_entry (j : JoinedRow) : entries.row := fst (fst j).
Definition jr_feed (j : JoinedRow) : feeds.row := snd (fst j).
Definition jr_category (j : JoinedRow) : categories.row := snd j.

Definition SetEntriesStatusCount (userID : Z) (entryIDs : list Z)
    (status : string) : M Z :=
  SetEntriesStatus userID entryIDs status ;;;
  if Z.of_nat (List.length entryIDs) =? 0
  then ret 0
  else
    wrap (Errorf "store: unable to query entries visibility")
      (driver ;;;
       get (fun w =>
              Z.of_nat
                (List.length
                   (filter
                      (fun j =>
                         (entries.user_id (jr_entry j) =? userID)
                         && id_in entryIDs (jr_entry j)
                         && (feeds.hide_globally (jr_feed j) =? 0)
                         && (categories.hide_globally (jr_category j) =? 0))
                      (joined w))))).

Definition NothingUpdated : error :=
  ErrorsNew "store: nothing has been updated".

Definition SetEntriesBookmarkedState (userID : Z) (entryIDs : list Z)
    (starred : bool) : M unit :=
  if Z.of_nat (List.length entryIDs) =? 0
  then ret tt
  else
    let starredInt := if starred then 1 else 0 in
    count <- wrap (Errorf "store: unable to update the bookmarked state")
               (t <- get clock ;;
                exec_update
                  (fun r => (entries.user_id r =? userID) && id_in entryIDs r)
                  (fun r => set_changed_at t (set_starred starredInt r))) ;;
    if count =? 0 then fail NothingUpdated else ret tt.

Definition ToggleBookmark (userID entryID : Z) : M unit :=
  count <- wrap (Errorf "store: unable to toggle bookmark flag for entry")
             (t <- get clock ;;
              exec_update
                (fun r => (entries.user_id r =? userID)
                          && (entries.id r =? entryID))
                (fun r =>
                   set_changed_at t
                     (set_starred
                        (if entries.starred r =? 1 then 0 else 1) r))) ;;
  if count =? 0 then fail NothingUpdated else ret tt.

Definition FlushHistory (userID : Z) : M unit :=
  wrap (Errorf "store: unable to flush history")
    (t <- get clock ;;
     exec_update
       (fun r => (entries.user_id r =? userID)
                 && (entries.status r =? EntryStatusRead)%string
                 && (entries.starred r =? 0)
                 && (entries.share_code r =? EmptyString)%string)
       (fun r => set_changed_at t (set_status EntryStatusRemoved r))) ;;;
  ret tt.

(** The [SET status=?, changed_at=datetime('now')] of the mark-as-read
    family, which goes from unread to read. *)
Definition mark_read (p : entries.row -> bool) : M Z :=
  t <- get clock ;;
  exec_update
    (fun r => p r && (entries.status r =? EntryStatusUnread)%string)
    (fun r => set_changed_at t (set_status EntryStatusRead r)).

Definition MarkAllAsRead (userID : Z) : M unit :=
  wrap (Errorf "store: unable to mark all entries as read")
    (mark_read (fun r => entries.user_id r =? userID)) ;;;
  ret tt.

Definition MarkAllAsReadBeforeDate (userID before : Z) : M unit :=
  wrap (Errorf "store: unable to mark all entries as read before")
    (mark_read (fun r => (entries.user_id r =? userID)
                         && (entries.published_at r <? before))) ;;;
  ret tt.

Definition MarkGloballyVisibleFeedsAsRead (userID : Z) : M unit :=
  wrap (Errorf "store: unable to mark globally visible feeds as read")
    (fs <- get feeds_tbl ;;
     mark_read
       (fun r =>
          existsb (fun f => (feeds.id f =? entries.feed_id r)
                            && (feeds.user_id f =? userID)
                            && (feeds.hide_globally f =? 0)) fs
          && (entries.user_id r =? userID))) ;;;
  ret tt.

Definition MarkFeedAsRead (userID feedID before : Z) : M unit :=
  wrap (Errorf "store: unable to mark feed entries as read")
    (mark_read (fun r => (entries.user_id r =? userID)
                         && (entries.feed_id r =? feedID)
                         && (entries.published_at r <? before))) ;;;
  ret tt.

Definition MarkCategoryAsRead (userID categoryID before : Z) : M unit :=
  wrap (Errorf "store: unable to mark category entries as read")
    (fs <- get feeds_tbl ;;
     mark_read
       (fun r =>
          existsb (fun f => (feeds.id f =? entries.feed_id r)
                            && (feeds.user_id f =? userID)
                            && (feeds.category_id f =? categoryID)) fs
          && (entries.user_id r =? userID)
          && (entries.published_at r <? before))) ;;;
  ret tt.

(** ** The previous/next navigator *)

(** One fragment of [conditions] together with the value bound to its
    placeholder in [args] (fragments and arguments are appended in
    lock-step, the placeholder number being [len(e.args)+1]). *)
Inductive condition : Type :=
| cond_user_id (userID : Z)          (* e.user_id = ? *)
| cond_status_ne (status : string)   (* e.status <> ? *)
| cond_search (pattern : string)     (* (e.title LIKE $n OR e.content LIKE $n) *)
| cond_starred                       (* e.starred = 1 *)
| cond_feed_id (feedID : Z)          (* e.feed_id = $n *)
| cond_category_id (categoryID : Z)  (* f.category_id = $n *)
| cond_status (status : string)      (* e.status = $n *)
| cond_tags (pattern : string)       (* e.tags LIKE $n *)
| cond_category_visible              (* c.hide_globally = 0 *)
| cond_feed_visible.                 (* f.hide_globally = 0 *)

Record EntryPaginationBuilder : Type := mkBuilder {
  conditions : list condition;
  entryID : Z;
  order : string;
  direction : string;
}.

Definition add_conditions (cs : list condition) (e : EntryPaginationBuilder)
    : EntryPaginationBuilder :=
  mkBuilder (conditions e ++ cs) (entryID e) (order e) (direction e).

Definition percent : string := "%".
Definition dquote : string := String (ascii_of_nat 34) EmptyString.

Definition WithSearchQuery (query : string) (e : EntryPaginationBuilder)
    : EntryPaginationBuilder :=
  if (query =? EmptyString)%string then e
  else add_conditions
         [cond_search (String.append percent (String.append query percent))] e.

Definition WithStarred (e : EntryPaginationBuilder) : EntryPaginationBuilder :=
  add_conditions [cond_starred] e.

Definition WithFeedID (feedID : Z) (e : EntryPaginationBuilder)
    : EntryPaginationBuilder :=
  if feedID =? 0 then e else add_conditions [cond_feed_id feedID] e.

Definition WithCategoryID (categoryID : Z) (e : EntryPaginationBuilder)
    : EntryPaginationBuilder :=
  if categoryID =? 0 then e
  else add_conditions [cond_category_id categoryID] e.

Definition WithStatus (status : string) (e : EntryPaginationBuilder)
    : EntryPaginationBuilder :=
  if (status =? EmptyString)%string then e
  else add_conditions [cond_status status] e.

Definition WithTags (tags : list string) (e : EntryPaginationBuilder)
    : EntryPaginationBuilder :=
  fold_left
    (fun e tag =>
       add_conditions
         [cond_tags
            (String.append percent
               (String.append dquote
                  (String.append (strings_ToLower tag)
                     (String.append dquote percent))))] e)
    tags e.

Definition WithGloballyVisible (e : EntryPaginationBuilder)
    : EntryPaginationBuilder :=
  add_conditions [cond_category_visible; cond_feed_visible] e.

Definition NewEntryPaginationBuilder (userID entryID : Z)
    (order direction : string) : EntryPaginationBuilder :=
  mkBuilder [cond_user_id userID; cond_status_ne "removed"]
            entryID order direction.

Definition holds (c : condition) (j : JoinedRow) : bool :=
  match c with
  | cond_user_id userID => entries.user_id (jr_entry j) =? userID
  | cond_status_ne status =>
      negb (entries.status (jr_entry j) =? status)%string
  | cond_search pattern =>
      sql_like pattern (entries.title (jr_entry j))
      || sql_like pattern (entries.content (jr_entry j))
  | cond_starred => entries.starred (jr_entry j) =? 1
  | cond_feed_id feedID => entries.feed_id (jr_entry j) =? feedID
  | cond_category_id categoryID =>
      feeds.category_id (jr_feed j) =? categoryID
  | cond_status status => (entries.status (jr_entry j) =? status)%string
  | cond_tags pattern => sql_like pattern (entries.tags (jr_entry j))
  | cond_category_visible => categories.hide_globally (jr_category j) =? 0
  | cond_feed_visible => feeds.hide_globally (jr_feed j) =? 0
  end.

(** [strings.Join(e.conditions, " AND ")]. *)
Definition subCondition (e : EntryPaginationBuilder) (j : JoinedRow) : bool :=
  forallb (fun c => holds c j) (conditions e).

(** A column of [entries] used as [e.order]: the engine orders integers
    and instants numerically and text byte-wise. *)
Inductive column : Type :=
| IntColumn (col : entries.row -> Z)
| TextColumn (col : entries.row -> string).

(** The columns of [entries] under their declared names, as the callers
    write [e.order]. *)
Definition entries_column (name : string) : option column :=
  if (name =? "id")%string then Some (IntColumn entries.id)
  else if (name =? "user_id")%string then Some (IntColumn entries.user_id)
  else if (name =? "feed_id")%string then Some (IntColumn entries.feed_id)
  else if (name =? "hash")%string then Some (TextColumn entries.hash)
  else if (name =? "published_at")%string
       then Some (IntColumn entries.published_at)
  else if (name =? "title")%string then Some (TextColumn entries.title)
  else if (name =? "url")%string then Some (TextColumn entries.url)
  else if (name =? "comments_url")%string
       then Some (TextColumn entries.comments_url)
  else if (name =? "author")%string then Some (TextColumn entries.author)
  else if (name =? "content")%string then Some (TextColumn entries.content)
  else if (name =? "status")%string then Some (TextColumn entries.status)
  else if (name =? "starred")%string then Some (IntColumn entries.starred)
  else if (name =? "changed_at")%string
       then Some (IntColumn entries.changed_at)
  else if (name =? "share_code")%string
       then Some (TextColumn entries.share_code)
  else if (name =? "reading_time")%string
       then Some (IntColumn entries.reading_time)
  else if (name =? "created_at")%string
       then Some (IntColumn entries.created_at)
  else if (name =? "tags")%string then Some (TextColumn entries.tags)
  else None.

(** [a < b], [a = b] and [a <= b] on the values of a column. *)
Definition col_ltb (c : column) (a b : entries.row) : bool :=
  match c with
  | IntColumn col => col a <? col b
  | TextColumn col => String.ltb (col a) (col b)
  end.

Definition col_eqb (c : column) (a b : entries.row) : bool :=
  match c with
  | IntColumn col => col a =? col b
  | TextColumn col => String.eqb (col a) (col b)
  end.

(** [ORDER BY e.<order> DESC, e.created_at DESC, e.id ASC]: does [a]
    come no later than [b]? *)
Definition prev_order (c : column) (a b : JoinedRow) : bool :=
  let a := jr_entry a in
  let b := jr_entry b in
  col_ltb c b a
  || (col_eqb c a b
      && ((entries.created_at b <? entries.created_at a)
          || ((entries.created_at a =? entries.created_at b)
              && (entries.id a <=? entries.id b)))).

(** [ORDER BY e.<order> ASC, e.created_at ASC, e.id DESC]. *)
Definition next_order (c : column) (a b : JoinedRow) : bool :=
  let a := jr_entry a in
  let b := jr_entry b in
  col_ltb c a b
  || (col_eqb c a b
      && ((entries.created_at a <? entries.created_at b)
          || ((entries.created_at a =? entries.created_at b)
              && (entries.id b <=? entries.id a)))).

(** The anchor clause of the two queries. The scalar sub-select
    [(SELECT <order> FROM entries WHERE id = ?)] is [NULL] when the anchor
    row is missing, and then no comparison holds. *)
Definition before_anchor (c : column) (anchor : option entries.row)
    (entryID : Z) (j : JoinedRow) : bool :=
  match anchor with
  | Some a =>
      col_ltb c (jr_entry j) a
      || (col_eqb c (jr_entry j) a && (entryID <? entries.id (jr_entry j)))
  | None => false
  end.

Definition after_anchor (c : column) (anchor : option entries.row)
    (entryID : Z) (j : JoinedRow) : bool :=
  match anchor with
  | Some a =>
      col_ltb c a (jr_entry j)
      || (col_eqb c (jr_entry j) a && (entries.id (jr_entry j) <? entryID))
  | None => false
  end.

(** [QueryRow(query).Scan(&id)] into a [sql.NullInt64], [sql.ErrNoRows]
    being let through: the first row of the ordered selection, or
    nothing.  An order that [entries_column] does not list is answered as
    a failed statement; the engine resolves more than the listed names
    (another case, [rowid], an expression), so the properties are stated
    for listed orders and conclude nothing from that answer. *)
Definition neighbour_query (e : EntryPaginationBuilder)
    (side : column -> option entries.row -> Z -> JoinedRow -> bool)
    (ord : column -> JoinedRow -> JoinedRow -> bool) : M (option Z) :=
  driver ;;;
  fun w =>
    match entries_column (order e) with
    | None => (Err (DriverError "no such column"), w)
    | Some c =>
        let anchor :=
          find (fun r => entries.id r =? entryID e) (entries_tbl w) in
        let rows :=
          limit_rows 1
            (order_by (ord c)
               (filter
                  (fun j => subCondition e j && side c anchor (entryID e) j)
                  (joined w))) in
        (Ok (option_map (fun j => entries.id (jr_entry j)) (hd_error rows)),
         w)
    end.

Definition NullInt64_value (n : option Z) : Z :=
  match n with Some v => v | None => 0 end.

Definition getPrevNextID (e : EntryPaginationBuilder) : M (Z * Z) :=
  pID <- wrap (Errorf "entry pagination prev")
           (neighbour_query e before_anchor prev_order) ;;
  nID <- wrap (Errorf "entry pagination next")
           (neighbour_query e after_anchor next_order) ;;
  ret (NullInt64_value pID, NullInt64_value nID).

(** The [model.Entry] that [getEntry] scans [id] and [title] into. *)
Definition sibling (r : entries.row) : Entry :=
  mkEntry (entries.id r) 0 0 EmptyString EmptyString (entries.title r)
          EmptyString EmptyString 0 0 0 EmptyString EmptyString 0 [] [].

Definition getEntry (entryID : Z) : M (option Entry) :=
  wrap (Errorf "fetching sibling entry")
    (driver ;;;
     get (fun w =>
            option_map sibling
              (find (fun r => entries.id r =? entryID) (entries_tbl w)))).

(** [tx.Rollback()] and [tx.Commit()] with their result dropped. *)
Definition ignore_result (m : M unit) : M unit :=
  fun w => (Ok tt, snd (m w)).

Definition or_rollback_ignored {A : Type} (tx : Tx) (m : M A) : M A :=
  fun w =>
    match m w with
    | (Ok a, w') => (Ok a, w')
    | (Err err, w') => (Err err, snd (Rollback tx w'))
    end.

Definition Entries (e : EntryPaginationBuilder)
    : M (option Entry * option Entry) :=
  tx <- wrap (Errorf "begin transaction for entry pagination") Begin ;;
  ids <- or_rollback_ignored tx (getPrevNextID e) ;;
  prevEntry <- or_rollback_ignored tx (getEntry (fst ids)) ;;
  nextEntry <- or_rollback_ignored tx (getEntry (snd ids)) ;;
  ignore_result (Commit tx) ;;;
  if (direction e =? "desc")%string
  then ret (nextEntry, prevEntry)
  else ret (prevEntry, nextEntry).

(** ** The listings as the specification words them

    The specification orders the "previous" query descending by ordering
    column, creation date and id, and the "next" query by the same three
    keys ascending.  These two comparisons follow that wording; they
    differ from [prev_order] and [next_order] in the direction of the
    id. *)
Definition spec_prev_order (c : column) (a b : JoinedRow) : bool :=
  let a := jr_entry a in
  let b := jr_entry b in
  col_ltb c b a
  || (col_eqb c a b
      && ((entries.created_at b <? entries.created_at a)
          || ((entries.created_at a =? entries.created_at b)
              && (entries.id b <=? entries.id a)))).

Definition spec_next_order (c : column) (a b : JoinedRow) : bool :=
  let a := jr_entry a in
  let b := jr_entry b in
  col_ltb c a b
  || (col_eqb c a b
      && ((entries.created_at a <? entries.created_at b)
          || ((entries.created_at a =? entries.created_at b)
              && (entries.id a <=? entries.id b)))).

Definition spec_getPrevNextID (e : EntryPaginationBuilder) : M (Z * Z) :=
  pID <- neighbour_query e before_anchor spec_prev_order ;;
  nID <- neighbour_query e after_anchor spec_next_order ;;
  ret (NullInt64_value pID, NullInt64_value nID).

End Storage.

(** * More of the entry storage

    The lookups, the share codes and the counters of the same file, on the
    same world. *)

Section Lookups.

Context `{Collab : Collaborators}.

Notation "x <- m ;; k" := (bind m (fun x => k))
  (at level 61, m at next level, right associativity).
Notation "m ;;; k" := (bind m (fun _ => k))
  (at level 61, right associativity).

(** [IsNewEntry] drops the error of [Scan]: when the query fails [result]
    keeps its zero value and the entry is reported as new. *)
Definition IsNewEntry (feedID : Z) (entryHash : string) : M bool :=
  fun w =>
    match driver w with
    | (Ok _, w') =>
        (Ok (negb (existsb
                     (fun r => (entries.feed_id r =? feedID)
                               && (entries.hash r =? entryHash)%string)
                     (entries_tbl w'))), w')
    | (Err _, w') => (Ok (negb false), w')
    end.

(** [GetReadTime] drops the error of [Scan] too: zero when the query
    fails or finds no row. *)
Definition GetReadTime (feedID : Z) (entryHash : string) : M Z :=
  fun w =>
    match query_row
            (fun r => (entries.feed_id r =? feedID)
                      && (entries.hash r =? entryHash)%string)
            entries.reading_time w with
    | (Ok n, w') => (Ok n, w')
    | (Err _, w') => (Ok 0, w')
    end.

(** The [SET title=?, content=?, reading_time=?] of
    [UpdateEntryTitleAndContent]. *)
Definition retitled (entry : Entry) (r : entries.row) : entries.row :=
  entries.mk (entries.id r) (entries.user_id r) (entries.feed_id r)
    (entries.hash r) (entries.published_at r)
    (Title entry) (entries.url r) (entries.comments_url r)
    (entries.author r) (Content entry) (entries.status r)
    (entries.starred r) (entries.changed_at r) (entries.share_code r)
    (ReadingTime entry) (entries.created_at r) (entries.tags r).

Definition UpdateEntryTitleAndContent (entry : Entry) : M unit :=
  wrap (Errorf "store: unable to update entry")
    (exec_update
       (fun r => (entries.id r =? ID entry)
                 && (entries.user_id r =? UserID entry))
       (retitled entry)) ;;;
  ret tt.

Definition set_share_code (shareCode : string) (r : entries.row)
    : entries.row :=
  entries.mk (entries.id r) (entries.user_id r) (entries.feed_id r)
    (entries.hash r) (entries.published_at r) (entries.title r)
    (entries.url r) (entries.comments_url r) (entries.author r)
    (entries.content r) (entries.status r) (entries.starred r)
    (entries.changed_at r) shareCode (entries.reading_time r)
    (entries.created_at r) (entries.tags r).

(** [UPDATE entries SET share_code = ? WHERE p] under the unique index
    [entries_share_code_idx] (on [share_code] where it is not empty): the
    engine aborts the statement when a row it rewrites would carry a code
    that another row carries. *)
Definition exec_update_share_code (p : entries.row -> bool)
    (shareCode : string) : M Z :=
  fun w =>
    if negb (shareCode =? EmptyString)%string
       && (existsb (fun r => negb (p r)
                             && (entries.share_code r =? shareCode)%string)
                   (entries_tbl w)
           || (1 <? Z.of_nat (List.length (filter p (entries_tbl w)))))
    then
      (driver ;;;
       fail (DriverError "UNIQUE constraint failed: entries.share_code")) w
    else exec_update p (set_share_code shareCode) w.

(** [EntryShareCode]; [generated] is what
    [crypto.GenerateRandomStringHex(20)] returns in this call, were it
    reached. *)
Definition EntryShareCode (generated : string) (userID entryID : Z)
    : M string :=
  shareCode <- wrap (Errorf "store: unable to get share code for entry")
                 (query_row
                    (fun r => (entries.user_id r =? userID)
                              && (entries.id r =? entryID))
                    entries.share_code) ;;
  if (shareCode =? EmptyString)%string
  then
    wrap (Errorf "store: unable to set share code for entry")
      (exec_update_share_code
         (fun r => (entries.user_id r =? userID)
                   && (entries.id r =? entryID))
         generated) ;;;
    ret generated
  else ret shareCode.

Definition UnshareEntry (userID entryID : Z) : M unit :=
  wrap (Errorf "store: unable to remove share code for entry")
    (exec_update
       (fun r => (entries.user_id r =? userID)
                 && (entries.id r =? entryID))
       (set_share_code EmptyString)) ;;;
  ret tt.

(** A Go [map[string]int64]: assignment replaces the value of a key,
    reading a key that is not there gives zero. *)
Fixpoint map_store (k : string) (v : Z) (m : list (string * Z))
    : list (string * Z) :=
  match m with
  | [] => [(k, v)]
  | (k', v') :: m' =>
      if (k' =? k)%string then (k, v) :: m'
      else (k', v') :: map_store k v m'
  end.

Fixpoint map_lookup (k : string) (m : list (string * Z)) : Z :=
  match m with
  | [] => 0
  | (k', v') :: m' => if (k' =? k)%string then v' else map_lookup k m'
  end.

(** [SELECT status, count( * ) FROM entries GROUP BY status]: one row
    for each status the table holds. *)
Definition count_status (status : string) (rows : list entries.row) : Z :=
  Z.of_nat
    (List.length
       (filter (fun r => (entries.status r =? status)%string) rows)).

Definition status_counts (rows : list entries.row) : list (string * Z) :=
  map (fun status => (status, count_status status rows))
      (nodup string_dec (map entries.status rows)).

(** [CountAllEntries]: [None] is the nil map returned when the query
    fails. *)
Definition CountAllEntries : World -> option (list (string * Z)) * World :=
  fun w =>
    match driver w with
    | (Err _, w') => (None, w')
    | (Ok _, w') =>
        let results :=
          [(EntryStatusUnread, 0); (EntryStatusRead, 0);
           (EntryStatusRemoved, 0)] in
        let results :=
          fold_left (fun m sc => map_store (fst sc) (snd sc) m)
                    (status_counts (entries_tbl w')) results in
        (Some (map_store "total"
                 (map_lookup EntryStatusUnread results
                  + map_lookup EntryStatusRead results
                  + map_lookup EntryStatusRemoved results)
                 results), w')
    end.

End Lookups.

(** ** Truncation of long texts *)

(** The byte of [s] at index [i]. *)
Definition byte_at (s : string) (i : nat) : Z :=
  match String.get i s with
  | Some c => Z.of_nat (nat_of_ascii c)
  | None => 0
  end.

(** The loop of [truncateStringForTSVectorField], from index [n - 1] down
    to zero: it cuts after the last ASCII byte or before the last lead
    byte of a multi-byte character, whichever comes last. *)
Fixpoint cut_at_boundary (truncated : string) (n : nat) : string :=
  match n with
  | O => EmptyString
  | S i =>
      if Z.land (byte_at truncated i) 128 =? 0
      then substring 0 (i + 1) truncated
      else if Z.land (byte_at truncated i) 192 =? 192
           then substring 0 i truncated
           else cut_at_boundary truncated i
  end.

(** The function for a limit [maxSize] (positive). *)
Definition truncate_to (maxSize : Z) (s : string) : string :=
  if Z.of_nat (String.length s) <? maxSize
  then s
  else
    let truncated := substring 0 (Z.to_nat (maxSize - 1)) s in
    cut_at_boundary truncated (String.length truncated).

Definition truncateStringForTSVectorField (s : string) : string :=
  truncate_to (1024 * 1024) s.
(** ** A reference store

    A list-backed enclosure table and plain implementations of the engine
    and library functions, on which the model runs on concrete data. *)

Definition lower_ascii (c : ascii) : ascii :=
  let n := nat_of_ascii c in
  if (Nat.leb 65 n && Nat.leb n 90)%bool then ascii_of_nat (n + 32) else c.

Fixpoint lower (s : string) : string :=
  match s with
  | EmptyString => EmptyString
  | String c s' => String (lower_ascii c) (lower s')
  end.

(** [LIKE] with its two wildcards, letters compared without case. *)
Fixpoint like (p s : string) : bool :=
  match p with
  | EmptyString =>
      match s with EmptyString => true | String _ _ => false end
  | String c p' =>
      if Ascii.eqb c "%"%char then
        (fix skip (t : string) : bool :=
           like p' t
           || match t with
              | EmptyString => false
              | String _ t' => skip t'
              end) s
      else
        match s with
        | EmptyString => false
        | String d s' =>
            (Ascii.eqb c "_"%char || Ascii.eqb (lower_ascii c) (lower_ascii d))
            && like p' s'
        end
  end.

Definition marshal (tags : list string) : string :=
  String.append "["
    (String.append
       (String.concat ","
          (map (fun t => String.append dquote (String.append t dquote)) tags))
       "]").

Definition owned_by (entryIDs : list Z) (c : Enclosure) : bool :=
  existsb (Z.eqb (EnclosureEntryID c)) entryIDs.

Definition list_store : Collaborators :=
  {| EnclosureTable := list Enclosure;
     createEnclosure c t :=
       let c' := mkEnclosure (Z.of_nat (List.length t) + 1)
                   (EnclosureUserID c) (EnclosureEntryID c)
                   (EnclosureURL c) in
       Ok (c', t ++ [c']);
     updateEnclosures e t :=
       Ok (filter (fun c => negb (owned_by [ID e] c)) t ++ Enclosures e);
     cascadeEnclosures ids t := filter (fun c => negb (owned_by ids c)) t;
     json_Marshal := marshal;
     strings_ToLower := lower;
     sql_like := like |}.

(** A world of the reference store with nothing scheduled. *)
Definition world_of (rows : list entries.row) (fs : list feeds.row)
    (cs : list categories.row) (t : Z) (faults : list (option string))
    : World (Collab := list_store) :=
  mkWorld (Collab := list_store) rows 0 fs cs [] t faults [] [].

(** An entry row and a candidate with the columns the examples vary. *)
Definition row_of (id userID feedID : Z) (hash title status : string)
    (starred : Z) (share_code : string) (published created changed : Z)
    : entries.row :=
  entries.mk id userID feedID hash published title "http://example.org/"
             EmptyString EmptyString EmptyString status starred changed
             share_code 0 created "[]".

Definition candidate (hash title : string) : Entry :=
  mkEntry 0 0 0 EmptyString hash title "http://example.org/" EmptyString
          500 0 0 EmptyString EmptyString 0 [] [].

(** * The vocabulary of the properties *)

Section Vocabulary.

Context `{Collab : Collaborators}.

(** The driver answers every call: nothing is scheduled to fail. *)
Definition healthy (w : World) : Prop := faults w = [].

(** Every row that satisfies [P] is, at its place, the same row in [w']. *)
Definition unchanged_where (P : entries.row -> Prop) (w w' : World) : Prop :=
  Forall2 (fun r r' => P r -> r' = r) (entries_tbl w) (entries_tbl w').

(** The database part of two worlds is the same. *)
Definition same_tables (w w' : World) : Prop :=
  entries_tbl w' = entries_tbl w
  /\ entries_seq w' = entries_seq w
  /\ enclosures_tbl w' = enclosures_tbl w.

(** A starred entry, or one with a share code. *)
Definition exempt (r : entries.row) : Prop :=
  entries.starred r <> 0 \/ entries.share_code r <> EmptyString.

(** The rows of other users. *)
Definition foreign (userID : Z) (r : entries.row) : Prop :=
  entries.user_id r <> userID.

(** Everything outside the tables a transaction covers: feeds, categories,
    the clock, the waiting goroutines and the log. *)
Definition surroundings (w w' : World) : Prop :=
  feeds_tbl w' = feeds_tbl w
  /\ categories_tbl w' = categories_tbl w
  /\ clock w' = clock w
  /\ goroutines w' = goroutines w
  /\ log w' = log w.

Definition keeps {A : Type} (m : M A) : Prop :=
  forall w, surroundings w (snd (m w)).

(** The tables of [w] are those recorded in [tx]. *)
Definition tables_of (tx : Tx) (w : World) : Prop :=
  entries_tbl w = tx_entries tx
  /\ entries_seq w = tx_entries_seq tx
  /\ enclosures_tbl w = tx_enclosures tx.

(** The row [createEntry] inserts for a candidate. *)
Definition created_row (id t : Z) (entry : Entry) : entries.row :=
  entries.mk id (UserID entry) (FeedID entry) (Hash entry)
    (Date entry) (Title entry) (URL entry) (CommentsURL entry)
    (Author entry) (Content entry) "unread" 0 t EmptyString
    (ReadingTime entry) t (json_Marshal (Tags entry)).

(** The key of [UNIQUE (feed_id, hash)]. *)
Definition feed_hash (r : entries.row) : Z * string :=
  (entries.feed_id r, entries.hash r).

(** The columns a refresh does not touch: status and both dates. *)
Definition user_state_kept (r r' : entries.row) : Prop :=
  entries.status r' = entries.status r
  /\ entries.published_at r' = entries.published_at r
  /\ entries.changed_at r' = entries.changed_at r.

(** The row [r'] is [r] with the candidate's content written over it. *)
Definition content_refreshed (entry : Entry) (r r' : entries.row) : Prop :=
  entries.title r' = Title entry
  /\ entries.url r' = URL entry
  /\ entries.comments_url r' = CommentsURL entry
  /\ entries.content r' = Content entry
  /\ entries.author r' = Author entry
  /\ entries.reading_time r' = ReadingTime entry
  /\ entries.tags r' = json_Marshal (Tags entry)
  /\ entries.id r' = entries.id r
  /\ entries.user_id r' = entries.user_id r
  /\ entries.feed_id r' = entries.feed_id r
  /\ entries.hash r' = entries.hash r
  /\ entries.starred r' = entries.starred r
  /\ entries.share_code r' = entries.share_code r
  /\ entries.created_at r' = entries.created_at r.

(** The rows the [UPDATE] of [updateEntry] addresses. *)
Definition targeted (userID feedID : Z) (entry : Entry) (r : entries.row)
    : Prop :=
  entries.user_id r = userID /\ entries.feed_id r = feedID
  /\ entries.hash r = Hash entry.

(** The rows both queries select from: the joined rows that satisfy every
    condition of the builder. *)
Definition visible (e : EntryPaginationBuilder) (w : World) (j : JoinedRow)
    : Prop :=
  In j (joined w) /\ subCondition e j = true.

(** Rows on the "previous" side of the anchor: a smaller value of the
    ordering column, or the same value and a greater id. *)
Definition prev_candidate (e : EntryPaginationBuilder) (w : World)
    (col : entries.row -> Z) (j : JoinedRow) : Prop :=
  visible e w j
  /\ exists a, In a (entries_tbl w) /\ entries.id a = entryID e
               /\ (col (jr_entry j) < col a
                   \/ (col (jr_entry j) = col a
                       /\ entryID e < entries.id (jr_entry j))).

(** Rows on the "next" side: a greater value, or the same value and a
    smaller id. *)
Definition next_candidate (e : EntryPaginationBuilder) (w : World)
    (col : entries.row -> Z) (j : JoinedRow) : Prop :=
  visible e w j
  /\ exists a, In a (entries_tbl w) /\ entries.id a = entryID e
               /\ (col a < col (jr_entry j)
                   \/ (col (jr_entry j) = col a
                       /\ entries.id (jr_entry j) < entryID e)).

(** [j] is not after [j'] when rows are listed by ordering column
    descending, then creation date descending, then id ascending. *)
Definition not_after_desc (col : entries.row -> Z) (j j' : JoinedRow)
    : Prop :=
  let a := jr_entry j in
  let b := jr_entry j' in
  col b < col a
  \/ (col a = col b
      /\ (entries.created_at b < entries.created_at a
          \/ (entries.created_at a = entries.created_at b
              /\ entries.id a <= entries.id b))).

(** [j] is not after [j'] when rows are listed by ordering column
    ascending, then creation date ascending, then id descending. *)
Definition not_after_asc (col : entries.row -> Z) (j j' : JoinedRow)
    : Prop :=
  let a := jr_entry j in
  let b := jr_entry j' in
  col a < col b
  \/ (col a = col b
      /\ (entries.created_at a < entries.created_at b
          \/ (entries.created_at a = entries.created_at b
              /\ entries.id b <= entries.id a))).

(** [found] is the first of the candidates in the given listing, or
    nothing when there is no candidate. *)
Definition first_of (candidate : JoinedRow -> Prop)
    (not_after : JoinedRow -> JoinedRow -> Prop) (found : option JoinedRow)
    : Prop :=
  match found with
  | Some j => candidate j /\ forall j', candidate j' -> not_after j j'
  | None => forall j, ~ candidate j
  end.

(** The id a query scans: that of the row found, or zero. *)
Definition scanned_id (found : option JoinedRow) : Z :=
  match found with
  | Some j => entries.id (jr_entry j)
  | None => 0
  end.

(** The builder [e] with its anchor moved to [entryID]. *)
Definition anchored (entryID : Z) (e : EntryPaginationBuilder)
    : EntryPaginationBuilder :=
  mkBuilder (conditions e) entryID (order e) (direction e).

(** [Entries] answers [prev] and [next] in this order, or swapped when
    the direction is descending, and leaves the world as it is. *)
Definition navigates (e : EntryPaginationBuilder) (w : World)
    (prev next : option Entry) : Prop :=
  (direction e <> "desc" -> Entries e w = (Ok (prev, next), w))
  /\ (direction e = "desc" -> Entries e w = (Ok (next, prev), w)).

(** The selection [found] is the row of entry [target], or is empty when
    there is no target. *)
Definition settles (candidate : JoinedRow -> Prop)
    (not_after : JoinedRow -> JoinedRow -> Prop)
    (target : option entries.row) : Prop :=
  match target with
  | Some t =>
      (exists j, candidate j)
      /\ forall j, candidate j ->
                   (forall j', candidate j' -> not_after j j') ->
                   jr_entry j = t
  | None => forall j, ~ candidate j
  end.

End Vocabulary.

(** * The vocabulary of the further properties *)

Section MoreVocabulary.

Context `{Collab : Collaborators}.

(** A row as [createEntry] leaves it for user [userID] in feed [feedID]:
    unread, not starred, not shared. *)
Definition fresh_row (userID feedID : Z) (r : entries.row) : Prop :=
  entries.user_id r = userID /\ entries.feed_id r = feedID
  /\ entries.status r = "unread" /\ entries.starred r = 0
  /\ entries.share_code r = EmptyString.

(** The entry [e] returned for the created row [r]. *)
Definition reported (e : Entry) (r : entries.row) : Prop :=
  ID e = entries.id r /\ Hash e = entries.hash r
  /\ Title e = entries.title r /\ Status e = "unread"
  /\ UserID e = entries.user_id r /\ FeedID e = entries.feed_id r
  /\ CreatedAt e = entries.created_at r
  /\ ChangedAt e = entries.changed_at r.

(** Every status of the table is one the [CHECK] constraint admits. *)
Definition valid_table (w : World) : Prop :=
  Forall (fun r => valid_status (entries.status r) = true) (entries_tbl w).

(** The rows a statement of user [userID] on the ids [ids] addresses. *)
Definition addressed (userID : Z) (ids : list Z) (r : entries.row) : Prop :=
  entries.user_id r = userID /\ In (entries.id r) ids.

(** The rows [ArchiveEntries status days limit] may pick in world [w]. *)
Definition archivable_row (status : string) (days : Z) (w : World)
    (r : entries.row) : Prop :=
  entries.status r = status /\ entries.starred r = 0
  /\ entries.share_code r = EmptyString
  /\ entries.created_at r < clock w - days * 86400.

(** The rows [FlushHistory userID] moves to removed. *)
Definition flushable (userID : Z) (r : entries.row) : Prop :=
  entries.user_id r = userID /\ entries.status r = EntryStatusRead
  /\ entries.starred r = 0 /\ entries.share_code r = EmptyString.

(** The row the statement of [ToggleBookmark userID entryID] addresses. *)
Definition toggled (userID entryID : Z) (r : entries.row) : Prop :=
  entries.user_id r = userID /\ entries.id r = entryID.

(** The row of entry [entryID] when it belongs to user [userID]. *)
Definition owned_entry (userID entryID : Z) (r : entries.row) : Prop :=
  entries.user_id r = userID /\ entries.id r = entryID.

(** A byte of the form [10xxxxxx]: neither an ASCII byte nor the first
    byte of a multi-byte character, as the loop of
    [truncateStringForTSVectorField] tests them. *)
Definition continuation (b : Z) : Prop :=
  Z.land b 128 <> 0 /\ Z.land b 192 <> 192.

(** [r] is what is left of [s] when it is cut at a character boundary
    below [limit] bytes: the first [k] bytes, the bytes dropped after
    index [k] up to the limit being continuation bytes, and the cut
    falling at the very start, after an ASCII byte, or before the first
    byte of a multi-byte character. *)
Definition cut_below (limit : nat) (s r : string) : Prop :=
  exists k : nat,
    (k <= limit)%nat
    /\ r = substring 0 k s
    /\ (forall i : nat, (k < i < limit)%nat -> continuation (byte_at s i))
    /\ (k = 0%nat
        \/ Z.land (byte_at s (k - 1)) 128 = 0
        \/ ((k < limit)%nat /\ Z.land (byte_at s k) 192 = 192)).

(** Both keys of the [entries] table hold in [w]: the primary key [id]
    and [UNIQUE(feed_id, hash)]. *)
Definition keyed (w : World) : Prop :=
  NoDup (map entries.id (entries_tbl w))
  /\ NoDup (map feed_hash (entries_tbl w)).

(** [m] keeps both keys, whatever its outcome. *)
Definition keeps_keys {A : Type} (m : M A) : Prop :=
  forall w, keyed w -> keyed (snd (m w)).

(** The joined rows that the query of [SetEntriesStatusCount userID ids]
    counts: entries of the user with an id of the list, in a feed and a
    category that are not hidden globally. *)
Definition counted (userID : Z) (ids : list Z) (j : JoinedRow) : bool :=
  (entries.user_id (jr_entry j) =? userID)
  && id_in ids (jr_entry j)
  && (feeds.hide_globally (jr_feed j) =? 0)
  && (categories.hide_globally (jr_category j) =? 0).

End MoreVocabulary.

(** * Example worlds *)

Definition feed1 : feeds.row := feeds.mk 1 1 1 0.
Definition category1 : categories.row := categories.mk 1 1 0.

(** An empty feed, at time 100. *)
Definition w_empty : World (Collab := list_store) :=
  world_of [] [feed1] [category1] 100 [].

(** One read entry stored at time 5. *)
Definition w_stored : World (Collab := list_store) :=
  world_of [row_of 1 1 1 "h1" "A" "read" 0 EmptyString 3 4 5]
           [feed1] [category1] 100 [].

(** An empty feed whose driver fails on its eighth call: the commit of
    the second candidate of a refresh. *)
Definition w_faulty : World (Collab := list_store) :=
  world_of [] [feed1] [category1] 100
           [None; None; None; None; None; None; None;
            Some "disk I/O error"].

(** Three removed entries of feed 1. *)
Definition rowA : entries.row :=
  row_of 1 1 1 "A" "a" "removed" 0 EmptyString 1 1 1.
Definition rowB : entries.row :=
  row_of 2 1 1 "B" "b" "removed" 0 EmptyString 2 2 2.
Definition rowC : entries.row :=
  row_of 3 1 1 "C" "c" "removed" 0 EmptyString 3 3 3.

Definition w_removed : World (Collab := list_store) :=
  world_of [rowA; rowB; rowC] [feed1] [category1] 100 [].

(** Old read entries: one starred, one shared, one plain. *)
Definition w_read : World (Collab := list_store) :=
  world_of [row_of 1 1 1 "h1" "A" "read" 1 EmptyString 1 1 1;
            row_of 2 1 1 "h2" "B" "read" 0 "c0ffee" 2 2 2;
            row_of 3 1 1 "h3" "C" "read" 0 EmptyString 3 3 3]
           [feed1] [category1] 1000000 [].

(** Old read entries of two users. *)
Definition w_two_users : World (Collab := list_store) :=
  world_of [row_of 1 1 1 "h1" "A" "read" 0 EmptyString 1 1 1;
            row_of 2 2 2 "h2" "B" "read" 0 EmptyString 2 2 2]
           [feed1; feeds.mk 2 2 2 0] [category1; categories.mk 2 2 0]
           1000000 [].

(** Three unread entries published at 10, 20 and 30. *)
Definition entry10 : entries.row :=
  row_of 1 1 1 "h1" "A" "unread" 0 EmptyString 10 11 11.
Definition entry20 : entries.row :=
  row_of 2 1 1 "h2" "B" "unread" 0 EmptyString 20 21 21.
Definition entry30 : entries.row :=
  row_of 3 1 1 "h3" "C" "unread" 0 EmptyString 30 31 31.

Definition w_three : World (Collab := list_store) :=
  world_of [entry10; entry20; entry30] [feed1] [category1] 100 [].

(** Entries that tie on publication and creation dates: ids 1 and 2
    before the anchor (id 3), ids 4 and 5 after it. *)
Definition w_ties : World (Collab := list_store) :=
  world_of [row_of 1 1 1 "h1" "A" "unread" 0 EmptyString 10 10 10;
            row_of 2 1 1 "h2" "B" "unread" 0 EmptyString 10 10 10;
            row_of 3 1 1 "h3" "C" "unread" 0 EmptyString 20 20 20;
            row_of 4 1 1 "h4" "D" "unread" 0 EmptyString 30 30 30;
            row_of 5 1 1 "h5" "E" "unread" 0 EmptyString 30 30 30]
           [feed1] [category1] 100 [].

(** A batch of three candidates for the faulty world. *)
Definition batch : list Entry :=
  [candidate "h1" "A"; candidate "h2" "B"; candidate "h3" "C"].

Definition commit_error : error :=
  Errorf "store: unable to commit transaction" (DriverError "disk I/O error").

(** The builder of user 1, ordered by publication date. *)
Definition by_published (entryID : Z) (direction : string)
    : EntryPaginationBuilder :=
  NewEntryPaginationBuilder 1 entryID "published_at" direction.

(** The scenario of the specification: a first refresh of the empty feed
    with h1 and h2, h2 marked removed by the user, a second refresh with
    h1 (retitled) and h3, and then the reaper that the second refresh
    started. *)
Definition w_first : World (Collab := list_store) :=
  snd (RefreshFeedEntries 1 1 [candidate "h1" "A"; candidate "h2" "B"] true
         w_empty).

Definition w_marked : World (Collab := list_store) :=
  snd (SetEntriesStatus 1 [2] "removed" w_first).

Definition w_second : World (Collab := list_store) :=
  snd (RefreshFeedEntries 1 1 [candidate "h1" "A2"; candidate "h3" "C"] true
         w_marked).

Definition w_swept : World (Collab := list_store) :=
  snd (schedule 1 w_second).

(** How a row shows in the scenario. *)
Definition shown (r : entries.row) : string * string * string :=
  (entries.hash r, entries.title r, entries.status r).

(** The candidates of the first refresh of the scenario, and the entries
    that refresh returns. *)
Definition first_batch : list Entry :=
  [candidate "h1" "A"; candidate "h2" "B"].

Definition first_entries : list Entry :=
  [mkEntry 1 1 1 "unread" "h1" "A" "http://example.org/" EmptyString
           500 100 100 EmptyString EmptyString 0 [] [];
   mkEntry 2 1 1 "unread" "h2" "B" "http://example.org/" EmptyString
           500 100 100 EmptyString EmptyString 0 [] []].

(** An entry of feed 1 that user 2 owns. *)
Definition w_foreign : World (Collab := list_store) :=
  world_of [row_of 1 2 1 "h1" "A" "unread" 0 EmptyString 3 4 5]
           [feed1] [category1] 100 [].

(** A candidate for the stored entry, seven minutes long. *)
Definition long_read : Entry :=
  mkEntry 0 0 0 EmptyString "h1" "A2" "http://example.org/" EmptyString
          500 0 0 EmptyString EmptyString 7 [] [].

(** Entry 2 of user 1 with a new title and content. *)
Definition edited : Entry :=
  mkEntry 2 1 1 "unread" "h2" "B2" "http://example.org/" EmptyString
          20 21 21 "new content" EmptyString 3 [] [].

(** * Properties *)

Section Properties.

Context `{Collab : Collaborators}.

(** ** The driver *)

Lemma driver_healthy (w : World) : healthy w -> driver w = (Ok tt, w).
Proof. unfold healthy, driver; intros ->; reflexivity. Qed.

Lemma driver_cases (w : World) :
  exists r fs, driver w = (r, set_faults fs w).
Proof.
  unfold driver.
  destruct (faults w) as [|[msg|] fs] eqn:E.
  - exists (Ok tt), []. destruct w; simpl in *; subst; reflexivity.
  - exists (Err (DriverError msg)), fs; reflexivity.
  - exists (Ok tt), fs; reflexivity.
Qed.

Ltac driver_step w :=
  let r := fresh "r" in
  let fs := fresh "fs" in
  let E := fresh "E" in
  destruct (driver_cases w) as (r & fs & E); rewrite E; clear E;
  destruct r as [[]|?]; simpl.

Lemma Forall2_same {A : Type} (R : A -> A -> Prop) (l : list A) :
  (forall a, R a a) -> Forall2 R l l.
Proof. intros H; induction l; constructor; auto. Qed.

Lemma Forall2_rewritten {A : Type} (R : A -> A -> Prop) (p : A -> bool)
    (f : A -> A) (l : list A) :
  (forall a, In a l -> R a (if p a then f a else a)) ->
  Forall2 R l (map (fun a => if p a then f a else a) l).
Proof.
  induction l as [|a l IH]; intros H; simpl; constructor.
  - apply H; left; reflexivity.
  - apply IH; intros b Hb; apply H; right; exact Hb.
Qed.

Lemma unchanged_where_refl (P : entries.row -> Prop) (w w' : World) :
  entries_tbl w' = entries_tbl w -> unchanged_where P w w'.
Proof.
  unfold unchanged_where; intros ->. apply Forall2_same; auto.
Qed.

(** An [UPDATE] leaves alone every row its [WHERE] clause rejects. *)
Lemma exec_update_frame (P : entries.row -> Prop) (p : entries.row -> bool)
    (f : entries.row -> entries.row) (w : World) :
  (forall r, In r (entries_tbl w) -> P r -> p r = false) ->
  unchanged_where P w (snd (exec_update p f w)).
Proof.
  intros HP. unfold exec_update, bind.
  driver_step w.
  - unfold unchanged_where; simpl. apply Forall2_rewritten.
    intros a Ha Pa. rewrite (HP a Ha Pa). reflexivity.
  - apply unchanged_where_refl; reflexivity.
Qed.

Lemma wrap_snd {A : Type} (h : error -> error) (m : M A) (w : World) :
  snd (wrap h m w) = snd (m w).
Proof. unfold wrap; destruct (m w) as [[a|e] w']; reflexivity. Qed.

Lemma bind_ret_snd {A : Type} (m : M A) (w : World) :
  snd (bind m (fun _ => ret tt) w) = snd (m w).
Proof. unfold bind, ret; destruct (m w) as [[a|e] w']; reflexivity. Qed.

Lemma exec_update_status_frame (P : entries.row -> Prop)
    (p : entries.row -> bool) (status : string)
    (f : entries.row -> entries.row) (w : World) :
  (forall r, P r -> p r = false) ->
  unchanged_where P w (snd (exec_update_status p status f w)).
Proof.
  intros HP. unfold exec_update_status.
  destruct (negb (valid_status status) && existsb p (entries_tbl w)).
  - unfold bind, fail. driver_step w;
      apply unchanged_where_refl; reflexivity.
  - apply exec_update_frame; auto.
Qed.

Lemma mark_read_frame (P : entries.row -> Prop) (p : entries.row -> bool)
    (w : World) :
  (forall r, P r -> p r = false) ->
  unchanged_where P w (snd (mark_read p w)).
Proof.
  intros HP. unfold mark_read, bind, get; simpl.
  apply exec_update_frame. intros r _ Pr. rewrite (HP r Pr). reflexivity.
Qed.

(** ** Lists: ordering, limits, keys *)

Lemma insert_by_In {A : Type} (le : A -> A -> bool) (x a : A) (l : list A) :
  In a (insert_by le x l) <-> a = x \/ In a l.
Proof.
  induction l as [|y l IH]; simpl.
  - intuition congruence.
  - destruct (le x y); simpl; [intuition congruence|].
    rewrite IH. intuition congruence.
Qed.

Lemma order_by_In {A : Type} (le : A -> A -> bool) (a : A) (l : list A) :
  In a (order_by le l) <-> In a l.
Proof.
  induction l as [|y l IH]; simpl; [tauto|].
  rewrite insert_by_In, IH. intuition congruence.
Qed.

Lemma limit_rows_In {A : Type} (n : Z) (a : A) (l : list A) :
  In a (limit_rows n l) -> In a l.
Proof.
  unfold limit_rows. generalize (Z.to_nat n) as k.
  induction l as [|y l IH]; intros [|k]; simpl; try tauto.
  intros [->|H]; [left; reflexivity | right; eauto].
Qed.

(** The primary key: two rows of a table with the same [id] are one. *)
Lemma same_id_same_row (l : list entries.row) (a b : entries.row) :
  NoDup (map entries.id l) -> In a l -> In b l ->
  entries.id a = entries.id b -> a = b.
Proof.
  induction l as [|y l IH]; simpl; [tauto|].
  intros ND Ha Hb E. inversion ND as [|? ? Hy ND']; subst.
  destruct Ha as [->|Ha], Hb as [->|Hb]; auto.
  - exfalso; apply Hy. rewrite E. apply in_map; exact Hb.
  - exfalso; apply Hy. rewrite <- E. apply in_map; exact Ha.
Qed.

Lemma id_in_true (ids : list Z) (r : entries.row) :
  id_in ids r = true <-> In (entries.id r) ids.
Proof.
  unfold id_in. rewrite existsb_exists. split.
  - intros (x & Hx & E). apply Z.eqb_eq in E. congruence.
  - intros H. exists (entries.id r). split; [exact H | apply Z.eqb_refl].
Qed.

(** ** Starred and shared entries *)

Lemma archivable_not_exempt (status : string) (days t : Z) (r : entries.row) :
  archivable status days t r = true -> ~ exempt r.
Proof.
  unfold archivable, exempt.
  rewrite !andb_true_iff, Z.eqb_eq, !String.eqb_eq.
  intros [[[_ Hs] Hc] _] [H|H]; contradiction.
Qed.

(** C5. Archival and flush exemption: in a table whose [id] is a key,
    every entry that is starred or carries a share code is left exactly as
    it is by [ArchiveEntries], whatever its status, [days] and [limit]
    arguments, and by [FlushHistory]; in particular its status does not
    become removed. *)
Theorem archive_flush_exempt (w : World) :
  NoDup (map entries.id (entries_tbl w)) ->
  (forall status days limit,
      unchanged_where exempt w (snd (ArchiveEntries status days limit w)))
  /\ (forall userID, unchanged_where exempt w (snd (FlushHistory userID w))).
Proof.
  intros ND; split.
  - intros status days limit. unfold ArchiveEntries.
    destruct ((days <? 0) || (limit <=? 0)).
    + apply unchanged_where_refl; reflexivity.
    + rewrite wrap_snd. unfold bind at 1 2, get; simpl.
      apply exec_update_frame. intros r Hr Hex.
      destruct (id_in _ r) eqn:E; [exfalso | reflexivity].
      apply id_in_true, in_map_iff in E. destruct E as (r' & Eid & Hr').
      apply limit_rows_In, order_by_In, filter_In in Hr'.
      destruct Hr' as [Hr' Ha].
      assert (r' = r) by (eapply same_id_same_row; eauto). subst r'.
      exact (archivable_not_exempt _ _ _ _ Ha Hex).
  - intros userID. unfold FlushHistory.
    rewrite bind_ret_snd, wrap_snd. unfold bind, get; simpl.
    apply exec_update_frame. intros r _ [H|H].
    + apply Z.eqb_neq in H. rewrite H.
      rewrite andb_false_r; reflexivity.
    + apply String.eqb_neq in H. rewrite H.
      rewrite andb_false_r; reflexivity.
Qed.

(** ** Scoping by user *)

Lemma foreign_rejected (userID : Z) (r : entries.row) :
  foreign userID r -> (entries.user_id r =? userID) = false.
Proof. intros H; apply Z.eqb_neq; exact H. Qed.

Lemma driver_entries (w : World) :
  entries_tbl (snd (driver w)) = entries_tbl w.
Proof. destruct (driver_cases w) as (r & fs & ->); reflexivity. Qed.

(** C8, as amended. Every bulk operation that takes a [userID] leaves the
    entries of all other users exactly as they are: [SetEntriesStatus],
    [SetEntriesStatusCount], [SetEntriesBookmarkedState], [ToggleBookmark],
    [FlushHistory] and the mark-as-read family. ([ArchiveEntries] takes no
    user and is not part of the statement.) *)
Theorem bulk_operations_user_scoped (userID : Z) (w : World) :
  (forall ids status,
      unchanged_where (foreign userID) w
        (snd (SetEntriesStatus userID ids status w)))
  /\ (forall ids status,
      unchanged_where (foreign userID) w
        (snd (SetEntriesStatusCount userID ids status w)))
  /\ (forall ids starred,
      unchanged_where (foreign userID) w
        (snd (SetEntriesBookmarkedState userID ids starred w)))
  /\ (forall entryID,
      unchanged_where (foreign userID) w
        (snd (ToggleBookmark userID entryID w)))
  /\ unchanged_where (foreign userID) w (snd (FlushHistory userID w))
  /\ unchanged_where (foreign userID) w (snd (MarkAllAsRead userID w))
  /\ (forall before,
      unchanged_where (foreign userID) w
        (snd (MarkAllAsReadBeforeDate userID before w)))
  /\ unchanged_where (foreign userID) w
       (snd (MarkGloballyVisibleFeedsAsRead userID w))
  /\ (forall feedID before,
      unchanged_where (foreign userID) w
        (snd (MarkFeedAsRead userID feedID before w)))
  /\ (forall categoryID before,
      unchanged_where (foreign userID) w
        (snd (MarkCategoryAsRead userID categoryID before w))).
Proof.
  assert (Hstatus : forall ids status,
             unchanged_where (foreign userID) w
               (snd (SetEntriesStatus userID ids status w))).
  { intros ids status. unfold SetEntriesStatus.
    destruct (Z.of_nat (List.length ids) =? 0).
    - apply unchanged_where_refl; reflexivity.
    - rewrite bind_ret_snd, wrap_snd. unfold bind, get; simpl.
      apply exec_update_status_frame. intros r Hr.
      rewrite (foreign_rejected _ _ Hr); reflexivity. }
  repeat split.
  - exact Hstatus.
  - intros ids status. unfold SetEntriesStatusCount, bind at 1.
    specialize (Hstatus ids status).
    destruct (SetEntriesStatus userID ids status w) as [[[]|e] w1];
      simpl in *; [|exact Hstatus].
    destruct (Z.of_nat (List.length ids) =? 0); [exact Hstatus|].
    rewrite wrap_snd. unfold bind, get.
    unfold unchanged_where in *.
    rewrite <- (driver_entries w1) in Hstatus.
    destruct (driver w1) as [[[]|e] w2]; exact Hstatus.
  - intros ids starred. unfold SetEntriesBookmarkedState.
    destruct (Z.of_nat (List.length ids) =? 0).
    + apply unchanged_where_refl; reflexivity.
    + unfold bind at 1.
      match goal with
      | |- context [wrap ?h ?m w] =>
          assert (F : unchanged_where (foreign userID) w (snd (wrap h m w)))
      end.
      { rewrite wrap_snd. unfold bind, get; simpl.
        apply exec_update_frame. intros r _ Hr.
        rewrite (foreign_rejected _ _ Hr); reflexivity. }
      match goal with
      | |- context [wrap ?h ?m w] => destruct (wrap h m w) as [[c|e] w1]
      end; simpl in *; [|exact F].
      destruct (c =? 0); exact F.
  - intros entryID. unfold ToggleBookmark, bind at 1.
    match goal with
    | |- context [wrap ?h ?m w] =>
        assert (F : unchanged_where (foreign userID) w (snd (wrap h m w)))
    end.
    { rewrite wrap_snd. unfold bind, get; simpl.
      apply exec_update_frame. intros r _ Hr.
      rewrite (foreign_rejected _ _ Hr); reflexivity. }
    match goal with
    | |- context [wrap ?h ?m w] => destruct (wrap h m w) as [[c|e] w1]
    end; simpl in *; [|exact F].
    destruct (c =? 0); exact F.
  - unfold FlushHistory. rewrite bind_ret_snd, wrap_snd.
    unfold bind, get; simpl.
    apply exec_update_frame. intros r _ Hr.
    rewrite (foreign_rejected _ _ Hr); reflexivity.
  - unfold MarkAllAsRead. rewrite bind_ret_snd, wrap_snd.
    apply mark_read_frame. apply foreign_rejected.
  - intros before. unfold MarkAllAsReadBeforeDate.
    rewrite bind_ret_snd, wrap_snd.
    apply mark_read_frame. intros r Hr.
    rewrite (foreign_rejected _ _ Hr); reflexivity.
  - unfold MarkGloballyVisibleFeedsAsRead.
    rewrite bind_ret_snd, wrap_snd. unfold bind at 1, get.
    apply mark_read_frame. intros r Hr.
    rewrite (foreign_rejected _ _ Hr). apply andb_false_r.
  - intros feedID before. unfold MarkFeedAsRead.
    rewrite bind_ret_snd, wrap_snd.
    apply mark_read_frame. intros r Hr.
    rewrite (foreign_rejected _ _ Hr); reflexivity.
  - intros categoryID before. unfold MarkCategoryAsRead.
    rewrite bind_ret_snd, wrap_snd. unfold bind at 1, get.
    apply mark_read_frame. intros r Hr.
    rewrite (foreign_rejected _ _ Hr).
    rewrite andb_false_r; reflexivity.
Qed.

(** ** Bookmark toggling *)

Lemma nothing_matches {A : Type} (p : A -> bool) (f : A -> A) (l : list A) :
  (forall a, In a l -> p a = false) ->
  filter p l = [] /\ map (fun a => if p a then f a else a) l = l.
Proof.
  induction l as [|a l IH]; intros H; simpl; [split; reflexivity|].
  rewrite (H a (or_introl eq_refl)).
  destruct IH as [IH1 IH2]; [intros b Hb; apply H; right; exact Hb|].
  rewrite IH1, IH2. split; reflexivity.
Qed.

Lemma something_matches {A : Type} (p : A -> bool) (l : list A) (a : A) :
  In a l -> p a = true ->
  (Z.of_nat (List.length (filter p l)) =? 0) = false.
Proof.
  intros Ha Hp. apply Z.eqb_neq.
  assert (In a (filter p l)) as Hin by (apply filter_In; auto).
  destruct (filter p l); [contradiction | simpl; lia].
Qed.

Lemma set_entries_same (w : World) : set_entries (entries_tbl w) w = w.
Proof. destruct w; reflexivity. Qed.

(** C9. NothingUpdated signalling: with a driver that answers,
    [ToggleBookmark] on an entry id that no row of this user carries (the
    id is unknown, or belongs to another user) changes nothing and returns
    the error [store: nothing has been updated]; on an id that a row of this
    user carries it returns success. *)
Theorem ToggleBookmark_nothing_updated (userID entryID : Z) (w : World) :
  healthy w ->
  ((forall r, In r (entries_tbl w) -> entries.id r = entryID ->
              entries.user_id r <> userID) ->
   ToggleBookmark userID entryID w
   = (Err (ErrorsNew "store: nothing has been updated"), w))
  /\ ((exists r, In r (entries_tbl w) /\ entries.id r = entryID
                 /\ entries.user_id r = userID) ->
      fst (ToggleBookmark userID entryID w) = Ok tt).
Proof.
  intros Hw.
  unfold ToggleBookmark, bind, wrap, get, exec_update, bind.
  rewrite (driver_healthy w Hw). simpl. split.
  - intros Hnone.
    match goal with
    | |- context [filter ?p (entries_tbl w)] =>
        destruct (nothing_matches p
                    (fun r => set_changed_at (clock w)
                                (set_starred
                                   (if entries.starred r =? 1 then 0 else 1)
                                   r))
                    (entries_tbl w)) as [E1 E2]
    end.
    { intros r Hr.
      destruct (entries.id r =? entryID) eqn:E; [|apply andb_false_r].
      apply Z.eqb_eq in E. specialize (Hnone r Hr E).
      apply Z.eqb_neq in Hnone. rewrite Hnone. reflexivity. }
    rewrite E1, E2. simpl. rewrite set_entries_same. reflexivity.
  - intros (r & Hr & Eid & Eu).
    erewrite something_matches; [reflexivity | exact Hr |].
    subst. rewrite !Z.eqb_refl. reflexivity.
Qed.

(** ** The reaper *)

Lemma stale_true (feedID : Z) (entryHashes : list string) (r : entries.row) :
  stale feedID entryHashes r = true <->
  entries.feed_id r = feedID /\ entries.status r = EntryStatusRemoved
  /\ ~ In (entries.hash r) entryHashes.
Proof.
  unfold stale.
  rewrite !andb_true_iff, negb_true_iff, Z.eqb_eq, String.eqb_eq.
  assert (existsb (String.eqb (entries.hash r)) entryHashes = false
          <-> ~ In (entries.hash r) entryHashes) as ->; [|tauto].
  rewrite <- not_true_iff_false, existsb_exists. split.
  - intros H Hin. apply H. exists (entries.hash r).
    split; [exact Hin | apply String.eqb_refl].
  - intros H (x & Hx & E). apply String.eqb_eq in E. subst x. auto.
Qed.

(** C4, as amended. Reaper correctness: when the list of observed hashes
    is not empty and the [DELETE] goes through, the entries left by
    [cleanupEntries feedID entryHashes] are exactly the entries that were
    there except those of feed [feedID] whose status is removed and whose
    hash is not in the list. *)
Theorem cleanupEntries_exact (feedID : Z) (entryHashes : list string)
    (w : World) :
  entryHashes <> [] ->
  fst (cleanupEntries feedID entryHashes w) = Ok tt ->
  forall r,
    In r (entries_tbl (snd (cleanupEntries feedID entryHashes w))) <->
    In r (entries_tbl w)
    /\ ~ (entries.feed_id r = feedID
          /\ entries.status r = EntryStatusRemoved
          /\ ~ In (entries.hash r) entryHashes).
Proof.
  intros Hne. unfold cleanupEntries.
  destruct entryHashes as [|h hs]; [contradiction|].
  set (hashes := h :: hs).
  replace (Z.of_nat (List.length hashes) =? 0) with false
    by (symmetry; apply Z.eqb_neq; simpl; lia).
  unfold bind, wrap, exec_delete, bind, ret.
  driver_step w; [|discriminate].
  intros _ r. rewrite filter_In, negb_true_iff.
  rewrite <- not_true_iff_false, stale_true. reflexivity.
Qed.

(** C10. An empty list of observed hashes: [cleanupEntries] returns
    success and leaves the world as it is; a refresh without candidates
    succeeds with no new entry, queues the reaper with the empty list, and
    that goroutine, whenever it runs, deletes nothing. *)
Theorem cleanupEntries_empty (userID feedID : Z) (update : bool) (w : World) :
  cleanupEntries feedID [] w = (Ok tt, w)
  /\ RefreshFeedEntries userID feedID [] update w
     = (Ok [], set_goroutines
                 (goroutines w ++ [mkGoroutine userID feedID []]) w)
  /\ (forall w', run_goroutine (mkGoroutine userID feedID []) w'
                 = (Ok tt, w')).
Proof. repeat split. Qed.

(** ** Running monadic code backwards *)

Lemma bind_Ok {A B : Type} (m : M A) (k : A -> M B) (w w' : World) (b : B) :
  bind m k w = (Ok b, w') ->
  exists a w1, m w = (Ok a, w1) /\ k a w1 = (Ok b, w').
Proof.
  unfold bind. destruct (m w) as [[a|e] w1]; [eauto | discriminate].
Qed.

Lemma bind_Err {A B : Type} (m : M A) (k : A -> M B) (w w' : World)
    (e : error) :
  bind m k w = (Err e, w') ->
  m w = (Err e, w')
  \/ exists a w1, m w = (Ok a, w1) /\ k a w1 = (Err e, w').
Proof.
  unfold bind. destruct (m w) as [[a|e0] w1]; intros H.
  - right. exists a, w1. split; [reflexivity | exact H].
  - left. injection H as -> ->. reflexivity.
Qed.

Lemma wrap_Ok {A : Type} (h : error -> error) (m : M A) (w w' : World)
    (a : A) :
  wrap h m w = (Ok a, w') -> m w = (Ok a, w').
Proof.
  unfold wrap. destruct (m w) as [[a0|e] w1]; [auto | discriminate].
Qed.

Lemma wrap_Err {A : Type} (h : error -> error) (m : M A) (w w' : World)
    (e : error) :
  wrap h m w = (Err e, w') -> exists e0, m w = (Err e0, w') /\ e = h e0.
Proof.
  unfold wrap. destruct (m w) as [[a0|e0] w1]; [discriminate|].
  intros [= <- <-]. eauto.
Qed.

Lemma driver_inv (w w' : World) (r : result unit) :
  driver w = (r, w') -> exists fs, w' = set_faults fs w.
Proof.
  destruct (driver_cases w) as (r0 & fs & ->). intros [= _ <-]. eauto.
Qed.

(** ** What a refresh leaves alone *)

Lemma surroundings_refl (w : World) : surroundings w w.
Proof. repeat split. Qed.

Lemma surroundings_trans (w1 w2 w3 : World) :
  surroundings w1 w2 -> surroundings w2 w3 -> surroundings w1 w3.
Proof. unfold surroundings; intuition congruence. Qed.

Lemma keeps_ret {A : Type} (a : A) : keeps (ret a).
Proof. intros w; apply surroundings_refl. Qed.

Lemma keeps_fail {A : Type} (e : error) : keeps (@fail _ A e).
Proof. intros w; apply surroundings_refl. Qed.

Lemma keeps_get {A : Type} (f : World -> A) : keeps (get f).
Proof. intros w; apply surroundings_refl. Qed.

Lemma keeps_bind {A B : Type} (m : M A) (k : A -> M B) :
  keeps m -> (forall a, keeps (k a)) -> keeps (bind m k).
Proof.
  intros Hm Hk w. unfold bind. specialize (Hm w).
  destruct (m w) as [[a|e] w1]; simpl in *; [|exact Hm].
  eapply surroundings_trans; [exact Hm | apply Hk].
Qed.

Lemma keeps_wrap {A : Type} (h : error -> error) (m : M A) :
  keeps m -> keeps (wrap h m).
Proof. intros Hm w. rewrite wrap_snd. apply Hm. Qed.

Lemma keeps_driver : keeps driver.
Proof.
  intros w. destruct (driver_cases w) as (r & fs & ->). repeat split.
Qed.

Lemma keeps_exec_update (p : entries.row -> bool)
    (f : entries.row -> entries.row) : keeps (exec_update p f).
Proof.
  apply keeps_bind; [apply keeps_driver | intros _ w; repeat split].
Qed.

Lemma keeps_query_row {A : Type} (p : entries.row -> bool)
    (col : entries.row -> A) : keeps (query_row p col).
Proof.
  apply keeps_bind; [apply keeps_driver | intros _ w].
  destruct (find p (entries_tbl w)); repeat split.
Qed.

Lemma keeps_exec_insert_entry (entry : Entry) :
  keeps (exec_insert_entry entry).
Proof.
  apply keeps_bind; [apply keeps_driver | intros _ w].
  destruct (existsb _ (entries_tbl w)); repeat split.
Qed.

Lemma keeps_on_enclosures {A : Type}
    (f : EnclosureTable -> result (A * EnclosureTable)) :
  keeps (on_enclosures f).
Proof.
  intros w. unfold on_enclosures.
  destruct (f (enclosures_tbl w)) as [[a t]|e]; repeat split.
Qed.

Lemma keeps_createEnclosures (userID entryID : Z) (l : list Enclosure) :
  keeps (createEnclosures userID entryID l).
Proof.
  induction l as [|c l IH]; simpl; [apply keeps_ret|].
  apply keeps_bind; [apply keeps_on_enclosures | intros c'].
  apply keeps_bind; [exact IH | intros cs; apply keeps_ret].
Qed.

Lemma keeps_createEntry (entry : Entry) : keeps (createEntry entry).
Proof.
  unfold createEntry.
  apply keeps_bind;
    [apply keeps_wrap, keeps_exec_insert_entry | intros id].
  apply keeps_bind; [apply keeps_get | intros t].
  apply keeps_bind; [apply keeps_createEnclosures | intros cs].
  apply keeps_ret.
Qed.

Lemma keeps_updateEntry (entry : Entry) : keeps (updateEntry entry).
Proof.
  unfold updateEntry.
  apply keeps_bind; [apply keeps_wrap, keeps_exec_update | intros n].
  destruct (n =? 0); [apply keeps_fail|].
  apply keeps_bind; [apply keeps_wrap, keeps_query_row | intros id].
  apply keeps_on_enclosures.
Qed.

Lemma keeps_entryExists (entry : Entry) : keeps (entryExists entry).
Proof.
  apply keeps_wrap, keeps_bind; [apply keeps_driver | intros _].
  apply keeps_get.
Qed.

Lemma keeps_Begin : keeps Begin.
Proof.
  apply keeps_bind; [apply keeps_driver | intros _; apply keeps_get].
Qed.

Lemma keeps_Rollback (tx : Tx) : keeps (Rollback tx).
Proof.
  intros w. unfold Rollback.
  destruct (driver_cases w) as (r & fs & ->). repeat split.
Qed.

Lemma keeps_Commit (tx : Tx) : keeps (Commit tx).
Proof.
  intros w. unfold Commit.
  destruct (driver_cases w) as ([[]|e] & fs & ->); repeat split.
Qed.

Lemma keeps_or_rollback {A : Type} (tx : Tx) (m : M A) :
  keeps m -> keeps (or_rollback tx m).
Proof.
  intros Hm w. unfold or_rollback. specialize (Hm w).
  destruct (m w) as [[a|e] w1]; simpl in *; [exact Hm|].
  eapply surroundings_trans; [exact Hm|].
  unfold rollback_return. pose proof (keeps_Rollback tx w1) as H.
  destruct (Rollback tx w1) as [[u|e'] w2]; exact H.
Qed.

Lemma keeps_refresh_entry (userID feedID : Z) (update : bool)
    (entry : Entry) :
  keeps (refresh_entry userID feedID update entry).
Proof.
  unfold refresh_entry.
  apply keeps_bind; [apply keeps_wrap, keeps_Begin | intros tx].
  apply keeps_bind;
    [apply keeps_or_rollback, keeps_entryExists | intros b].
  apply keeps_bind.
  - apply keeps_or_rollback. destruct b; [destruct update|].
    + apply keeps_bind; [apply keeps_updateEntry | intros _].
      apply keeps_ret.
    + apply keeps_ret.
    + apply keeps_bind; [apply keeps_createEntry | intros e].
      apply keeps_ret.
  - intros created.
    apply keeps_bind; [apply keeps_wrap, keeps_Commit | intros _].
    apply keeps_ret.
Qed.

Lemma keeps_refresh_loop (userID feedID : Z) (update : bool)
    (entries : list Entry) :
  forall newEntries entryHashes,
    keeps (refresh_loop userID feedID update entries newEntries entryHashes).
Proof.
  induction entries as [|c cs IH]; intros newEntries entryHashes; simpl.
  - apply keeps_ret.
  - apply keeps_bind; [apply keeps_refresh_entry | intros created].
    apply IH.
Qed.

(** ** Transactions *)

Lemma Begin_Ok (w w1 : World) (tx : Tx) :
  Begin w = (Ok tx, w1) ->
  (exists fs, w1 = set_faults fs w)
  /\ tx = mkTx (entries_tbl w) (entries_seq w) (enclosures_tbl w).
Proof.
  unfold Begin, bind, get.
  destruct (driver_cases w) as ([[]|e] & fs & ->); [|discriminate].
  intros [= <- <-]. split; [eauto | reflexivity].
Qed.

Lemma Begin_Err (w w1 : World) (e : error) :
  Begin w = (Err e, w1) -> exists fs, w1 = set_faults fs w.
Proof.
  unfold Begin, bind, get.
  destruct (driver_cases w) as ([[]|e0] & fs & ->); [discriminate|].
  intros [= _ <-]. eauto.
Qed.

Lemma Rollback_tables (tx : Tx) (w : World) :
  tables_of tx (snd (Rollback tx w)).
Proof.
  unfold Rollback. destruct (driver_cases w) as (r & fs & ->).
  repeat split.
Qed.

Lemma or_rollback_Ok {A : Type} (tx : Tx) (m : M A) (w w' : World) (a : A) :
  or_rollback tx m w = (Ok a, w') -> m w = (Ok a, w').
Proof.
  unfold or_rollback, rollback_return.
  destruct (m w) as [[a0|e] w1]; [auto|].
  destruct (Rollback tx w1) as [[u|e'] w2]; discriminate.
Qed.

Lemma or_rollback_Err {A : Type} (tx : Tx) (m : M A) (w w' : World)
    (e : error) :
  or_rollback tx m w = (Err e, w') -> tables_of tx w'.
Proof.
  unfold or_rollback, rollback_return.
  destruct (m w) as [[a0|e0] w1]; [discriminate|].
  pose proof (Rollback_tables tx w1) as H.
  destruct (Rollback tx w1) as [[u|e'] w2]; intros [= _ <-]; exact H.
Qed.

Lemma Commit_Ok (tx : Tx) (w w' : World) (u : unit) :
  Commit tx w = (Ok u, w') -> exists fs, w' = set_faults fs w.
Proof.
  unfold Commit.
  destruct (driver_cases w) as ([[]|e] & fs & ->); [|discriminate].
  intros [= <-]. eauto.
Qed.

Lemma Commit_Err (tx : Tx) (w w' : World) (e : error) :
  Commit tx w = (Err e, w') -> tables_of tx w'.
Proof.
  unfold Commit.
  destruct (driver_cases w) as ([[]|e0] & fs & ->); [discriminate|].
  intros [= _ <-]. repeat split.
Qed.

Lemma snapshot_same_tables (w w1 w' : World) (tx : Tx) :
  Begin w = (Ok tx, w1) -> tables_of tx w' -> same_tables w w'.
Proof.
  intros HB (H1 & H2 & H3). apply Begin_Ok in HB as [_ ->].
  simpl in *. repeat split; assumption.
Qed.

(** A candidate whose iteration fails leaves the tables as it found
    them: its transaction is rolled back, or never committed. *)
Lemma refresh_entry_Err (userID feedID : Z) (update : bool) (entry : Entry)
    (w w' : World) (e : error) :
  refresh_entry userID feedID update entry w = (Err e, w') ->
  same_tables w w'.
Proof.
  unfold refresh_entry. intros H.
  apply bind_Err in H as [H | (tx & w1 & HB & H)].
  { apply wrap_Err in H as (e0 & H & _).
    apply Begin_Err in H as (fs & ->). repeat split. }
  apply wrap_Ok in HB.
  apply bind_Err in H as [H | (b & w2 & _ & H)].
  { eapply snapshot_same_tables; [exact HB|].
    eapply or_rollback_Err; exact H. }
  apply bind_Err in H as [H | (created & w3 & _ & H)].
  { eapply snapshot_same_tables; [exact HB|].
    eapply or_rollback_Err; exact H. }
  apply bind_Err in H as [H | (u & w4 & _ & H)]; [|discriminate].
  apply wrap_Err in H as (e0 & H & _).
  eapply snapshot_same_tables; [exact HB|].
  eapply Commit_Err; exact H.
Qed.

(** ** The loop over the candidates *)




(** ** One candidate, processed with success *)

Lemma entryExists_Ok (entry : Entry) (w w' : World) (b : bool) :
  entryExists entry w = (Ok b, w') ->
  b = existsb (same_feed_hash entry) (entries_tbl w)
  /\ entries_tbl w' = entries_tbl w.
Proof.
  unfold entryExists. intros H. apply wrap_Ok in H.
  apply bind_Ok in H as ([] & w1 & Hd & H).
  apply driver_inv in Hd as (fs & ->).
  unfold get in H. injection H as <- <-. split; reflexivity.
Qed.

Lemma on_enclosures_entries {A : Type}
    (f : EnclosureTable -> result (A * EnclosureTable)) (w : World) :
  entries_tbl (snd (on_enclosures f w)) = entries_tbl w.
Proof.
  unfold on_enclosures.
  destruct (f (enclosures_tbl w)) as [[a t]|e]; reflexivity.
Qed.

Lemma createEnclosures_entries (userID entryID : Z) (l : list Enclosure) :
  forall w,
    entries_tbl (snd (createEnclosures userID entryID l w)) = entries_tbl w.
Proof.
  induction l as [|c l IH]; intros w; simpl; [reflexivity|].
  unfold bind at 1.
  pose proof (on_enclosures_entries
                (createEnclosure (bind_enclosure userID entryID c)) w) as H.
  destruct (on_enclosures _ w) as [[c'|e] w1]; simpl in *; [|exact H].
  unfold bind, ret. specialize (IH w1).
  destruct (createEnclosures userID entryID l w1) as [[cs|e] w2];
    simpl in *; congruence.
Qed.

Lemma existsb_of_count {A : Type} (p : A -> bool) (l : list A) :
  (Z.of_nat (List.length (filter p l)) =? 0) = false -> existsb p l = true.
Proof.
  intros H. apply Z.eqb_neq in H.
  destruct (filter p l) as [|a l'] eqn:E; [simpl in H; lia|].
  assert (In a (filter p l)) as Ha by (rewrite E; left; reflexivity).
  apply filter_In in Ha. apply existsb_exists. exists a. exact Ha.
Qed.

Lemma updateEntry_Ok (entry : Entry) (w w' : World) (u : unit) :
  updateEntry entry w = (Ok u, w') ->
  entries_tbl w'
  = map (fun r => if same_user_feed_hash entry r
                  then refreshed entry r else r) (entries_tbl w)
  /\ existsb (same_user_feed_hash entry) (entries_tbl w) = true.
Proof.
  unfold updateEntry. intros H.
  apply bind_Ok in H as (n & w1 & Hu & H). apply wrap_Ok in Hu.
  unfold exec_update in Hu.
  apply bind_Ok in Hu as ([] & w0 & Hd & Hu).
  apply driver_inv in Hd as (fs & ->). injection Hu as <- <-.
  simpl in H.
  destruct (_ =? 0) eqn:En in H; [discriminate|].
  apply existsb_of_count in En.
  apply bind_Ok in H as (id & w2 & Hq & H). apply wrap_Ok in Hq.
  unfold query_row in Hq.
  apply bind_Ok in Hq as ([] & w3 & Hd & Hq).
  apply driver_inv in Hd as (fs' & ->).
  match type of Hq with
  | context [find ?p ?l] => destruct (find p l); [|discriminate]
  end.
  injection Hq as _ <-.
  match type of H with
  | on_enclosures ?f ?w0 = _ =>
      pose proof (on_enclosures_entries f w0) as He; rewrite H in He
  end.
  simpl in He. split; assumption.
Qed.

Lemma createEntry_Ok (entry entry' : Entry) (w w' : World) :
  createEntry entry w = (Ok entry', w') ->
  existsb (same_feed_hash entry) (entries_tbl w) = false
  /\ entries_tbl w'
     = entries_tbl w
       ++ [created_row
             (Z.max (entries_seq w) (max_rowid (entries_tbl w)) + 1)
             (clock w) entry]
  /\ Hash entry' = Hash entry.
Proof.
  unfold createEntry. intros H.
  apply bind_Ok in H as (id & w1 & Hi & H). apply wrap_Ok in Hi.
  unfold exec_insert_entry in Hi.
  apply bind_Ok in Hi as ([] & w0 & Hd & Hi).
  apply driver_inv in Hd as (fs & ->). simpl in Hi.
  fold (same_feed_hash entry) in Hi.
  destruct (existsb (same_feed_hash entry) (entries_tbl w)) eqn:Ex;
    [discriminate|].
  injection Hi as <- <-.
  apply bind_Ok in H as (t & w2 & Hg & H). injection Hg as <- <-.
  apply bind_Ok in H as (cs & w3 & Hc & H). injection H as <- <-.
  match type of Hc with
  | createEnclosures ?u ?i ?l ?w0 = _ =>
      pose proof (createEnclosures_entries u i l w0) as He;
      rewrite Hc in He
  end.
  simpl in He. repeat split; assumption.
Qed.

Lemma max_rowid_ge (l : list entries.row) (r : entries.row) :
  In r l -> entries.id r <= max_rowid l.
Proof.
  induction l as [|a l IH]; simpl; [tauto|].
  intros [->|H]; [lia | specialize (IH H); lia].
Qed.

(** What a successful iteration does to the [entries] table. *)
Lemma refresh_entry_Ok (userID feedID : Z) (update : bool) (c : Entry)
    (w w' : World) (created : option Entry) :
  refresh_entry userID feedID update c w = (Ok created, w') ->
  let entry := set_owner userID feedID c in
  if existsb (same_feed_hash entry) (entries_tbl w)
  then created = None
       /\ (if update
           then entries_tbl w'
                = map (fun r => if same_user_feed_hash entry r
                                then refreshed entry r else r)
                      (entries_tbl w)
                /\ existsb (same_user_feed_hash entry) (entries_tbl w) = true
           else entries_tbl w' = entries_tbl w)
  else exists e' id t,
         created = Some e' /\ Hash e' = Hash c
         /\ entries_tbl w' = entries_tbl w ++ [created_row id t entry]
         /\ (forall r, In r (entries_tbl w) -> entries.id r < id).
Proof.
  intros H entry. unfold refresh_entry in H. fold entry in H.
  apply bind_Ok in H as (tx & w1 & HB & H). apply wrap_Ok in HB.
  apply Begin_Ok in HB as [(fs & ->) _].
  apply bind_Ok in H as (b & w2 & He & H). apply or_rollback_Ok in He.
  apply entryExists_Ok in He as [-> E2]. simpl in E2.
  apply bind_Ok in H as (cr & w3 & Hb & H). apply or_rollback_Ok in Hb.
  apply bind_Ok in H as (u & w4 & Hc & H). apply wrap_Ok in Hc.
  apply Commit_Ok in Hc as (fs' & ->). injection H as <- <-. simpl.
  revert Hb.
  change (entries_tbl (set_faults fs w)) with (entries_tbl w).
  destruct (existsb (same_feed_hash entry) (entries_tbl w)) eqn:Ex;
    intros Hb.
  - destruct update.
    + apply bind_Ok in Hb as (u' & w5 & Hu & Hb). injection Hb as <- <-.
      apply updateEntry_Ok in Hu as [Hu1 Hu2]. rewrite E2 in Hu1, Hu2.
      auto.
    + injection Hb as <- <-. auto.
  - apply bind_Ok in Hb as (e' & w5 & Hcr & Hb). injection Hb as <- <-.
    apply createEntry_Ok in Hcr as (_ & Ht & Hh). rewrite E2 in Ht.
    do 3 eexists. repeat split; [exact Hh | exact Ht |].
    intros r Hr. apply max_rowid_ge in Hr. lia.
Qed.

Lemma refresh_single (userID feedID : Z) (update : bool) (c : Entry)
    (w : World) :
  RefreshFeedEntries userID feedID [c] update w
  = match refresh_entry userID feedID update c w with
    | (Ok created, w1) =>
        (Ok (append_created [] created),
         set_goroutines
           (goroutines w1 ++ [mkGoroutine userID feedID [Hash c]]) w1)
    | (Err e, w1) => (Err e, w1)
    end.
Proof.
  unfold RefreshFeedEntries, refresh_loop, bind, go, modify, ret.
  destruct (refresh_entry userID feedID update c w) as [[created|e] w1];
    reflexivity.
Qed.

(** ** The keys of the table *)

Lemma same_feed_hash_iff (entry : Entry) (r : entries.row) :
  same_feed_hash entry r = true
  <-> feed_hash r = (FeedID entry, Hash entry).
Proof.
  unfold same_feed_hash, feed_hash.
  rewrite andb_true_iff, Z.eqb_eq, String.eqb_eq.
  split; [intros [-> ->]; reflexivity | intros [= -> ->]; auto].
Qed.

Lemma NoDup_snoc {A : Type} (l : list A) (x : A) :
  NoDup l -> ~ In x l -> NoDup (l ++ [x]).
Proof.
  induction l as [|a l IH]; simpl; intros ND Hx.
  - constructor; [tauto | constructor].
  - inversion ND as [|? ? Ha ND']; subst. constructor.
    + rewrite in_app_iff. simpl. intuition congruence.
    + apply IH; tauto.
Qed.

(** An iteration of the refresh keeps [id] and [(feed_id, hash)] keys of
    the table, whatever its outcome. *)
Lemma refresh_entry_keys (userID feedID : Z) (update : bool) (c : Entry)
    (w : World) :
  NoDup (map entries.id (entries_tbl w)) ->
  NoDup (map feed_hash (entries_tbl w)) ->
  NoDup (map entries.id
           (entries_tbl (snd (refresh_entry userID feedID update c w))))
  /\ NoDup (map feed_hash
              (entries_tbl (snd (refresh_entry userID feedID update c w)))).
Proof.
  intros Hid Hk.
  destruct (refresh_entry userID feedID update c w) as [[created|e] w']
    eqn:E; simpl.
  - apply refresh_entry_Ok in E. cbv zeta in E.
    set (entry := set_owner userID feedID c) in *.
    destruct (existsb (same_feed_hash entry) (entries_tbl w)) eqn:Ex.
    + destruct E as [_ E]. destruct update.
      * destruct E as [-> _]. rewrite !map_map.
        erewrite (map_ext _ entries.id), (map_ext _ feed_hash);
          [split; assumption | |];
          intros r; destruct (same_user_feed_hash entry r); reflexivity.
      * rewrite E. split; assumption.
    + destruct E as (e' & id & t & _ & _ & -> & Hfresh).
      rewrite !map_app. simpl. split; apply NoDup_snoc; auto.
      * intros Hin. apply in_map_iff in Hin as (r & Er & Hr).
        specialize (Hfresh r Hr). lia.
      * intros Hin. apply in_map_iff in Hin as (r & Er & Hr).
        assert (existsb (same_feed_hash entry) (entries_tbl w) = true)
          as Ex'; [|congruence].
        apply existsb_exists. exists r. split; [exact Hr|].
        apply same_feed_hash_iff. exact Er.
  - apply refresh_entry_Err in E as (E & _). rewrite E. split; assumption.
Qed.

(** A refresh keeps both keys, whatever its outcome. *)
Lemma RefreshFeedEntries_keeps_keys (userID feedID : Z) (update : bool)
    (entries : list Entry) (w : World) :
  NoDup (map entries.id (entries_tbl w)) ->
  NoDup (map feed_hash (entries_tbl w)) ->
  NoDup (map entries.id
           (entries_tbl
              (snd (RefreshFeedEntries userID feedID entries update w))))
  /\ NoDup (map feed_hash
              (entries_tbl
                 (snd (RefreshFeedEntries userID feedID entries update w)))).
Proof.
  assert (L : forall newEntries entryHashes w0,
             NoDup (map entries.id (entries_tbl w0)) ->
             NoDup (map feed_hash (entries_tbl w0)) ->
             let w1 := snd (refresh_loop userID feedID update entries
                              newEntries entryHashes w0) in
             NoDup (map entries.id (entries_tbl w1))
             /\ NoDup (map feed_hash (entries_tbl w1))).
  { induction entries as [|c cs IH]; intros newEntries entryHashes w0 Hid Hk;
      simpl; [split; assumption|].
    unfold bind.
    pose proof (refresh_entry_keys userID feedID update c w0 Hid Hk) as K.
    destruct (refresh_entry userID feedID update c w0) as [[cr|e] w1];
      simpl in K; [|exact K].
    destruct K as [K1 K2]. apply IH; assumption. }
  intros Hid Hk. specialize (L [] [] w Hid Hk). cbv zeta in L.
  unfold RefreshFeedEntries, bind, go, modify, ret.
  destruct (refresh_loop userID feedID update entries [] [] w)
    as [[r|e] w1]; exact L.
Qed.

(** ** Deduplication *)

Lemma filter_none {A : Type} (p : A -> bool) (l : list A) :
  existsb p l = false -> filter p l = [].
Proof.
  induction l as [|a l IH]; simpl; [reflexivity|].
  intros H. apply orb_false_iff in H as [-> H]. auto.
Qed.

Lemma count_one (l : list entries.row) (p : entries.row -> bool)
    (k : Z * string) :
  NoDup (map feed_hash l) ->
  (forall r, p r = true <-> feed_hash r = k) ->
  existsb p l = true ->
  List.length (filter p l) = 1%nat.
Proof.
  intros ND Hp. induction l as [|a l IH]; simpl; [discriminate|].
  inversion ND as [|? ? Ha ND']; subst.
  destruct (p a) eqn:Pa; simpl.
  - intros _. rewrite filter_none; [reflexivity|].
    destruct (existsb p l) eqn:Ex; [exfalso | reflexivity].
    apply existsb_exists in Ex as (r & Hr & Pr).
    apply Ha. apply Hp in Pa, Pr. rewrite Pa, <- Pr.
    apply in_map; exact Hr.
  - intros Ex. apply IH; assumption.
Qed.

(** An iteration that finds its candidate stored and does not update:
    with a driver that answers it creates nothing and changes nothing. *)
Lemma refresh_entry_found (userID feedID : Z) (c : Entry) (w : World) :
  healthy w ->
  existsb (same_feed_hash (set_owner userID feedID c)) (entries_tbl w) = true ->
  refresh_entry userID feedID false c w = (Ok None, w).
Proof.
  intros Hw Ex. unfold refresh_entry. cbv zeta.
  set (entry := set_owner userID feedID c) in *.
  set (tx := mkTx (entries_tbl w) (entries_seq w) (enclosures_tbl w)).
  assert (HB : wrap (Errorf "store: unable to start transaction") Begin w
               = (Ok tx, w)).
  { unfold wrap, Begin, bind, get. rewrite (driver_healthy w Hw).
    reflexivity. }
  assert (HE : or_rollback tx (entryExists entry) w = (Ok true, w)).
  { unfold or_rollback, entryExists, wrap, bind, get.
    rewrite (driver_healthy w Hw), Ex. reflexivity. }
  unfold bind at 1. rewrite HB.
  unfold bind at 1. rewrite HE.
  unfold bind, or_rollback, ret, wrap, Commit.
  rewrite (driver_healthy w Hw). reflexivity.
Qed.

(** C1. Dedup idempotence: in a table where [(feed_id, hash)] is a key,
    once [RefreshFeedEntries] with [updateExisting=false] has succeeded on
    a candidate, a second call for a candidate of the same feed and hash
    leaves the [entries] table as the first call left it, with exactly one
    row for that feed and hash, and reports no new entry: whenever it
    succeeds its list of new entries is empty, and with a driver that
    answers it does succeed, with the empty list, changing nothing but
    the queue of reapers, to which it adds its own. *)
Theorem refresh_twice_one_entry (userID feedID : Z) (c c2 : Entry)
    (w w1 : World) (new1 : list Entry) :
  NoDup (map feed_hash (entries_tbl w)) ->
  Hash c2 = Hash c ->
  RefreshFeedEntries userID feedID [c] false w = (Ok new1, w1) ->
  let out := RefreshFeedEntries userID feedID [c2] false w1 in
  entries_tbl (snd out) = entries_tbl w1
  /\ List.length
       (filter (fun r => (entries.feed_id r =? feedID)
                         && (entries.hash r =? Hash c)%string)
               (entries_tbl (snd out))) = 1%nat
  /\ (forall new2, fst out = Ok new2 -> new2 = [])
  /\ (healthy w1 ->
      out = (Ok [],
             set_goroutines
               (goroutines w1 ++ [mkGoroutine userID feedID [Hash c2]])
               w1)).
Proof.
  intros ND Hh H1.
  set (p := same_feed_hash (set_owner userID feedID c)).
  change (fun r => (entries.feed_id r =? feedID)
                   && (entries.hash r =? Hash c)%string) with p.
  assert (Hkey : forall r, p r = true <-> feed_hash r = (feedID, Hash c))
    by (intros r; exact (same_feed_hash_iff (set_owner userID feedID c) r)).
  (* the first call *)
  rewrite refresh_single in H1.
  destruct (refresh_entry userID feedID false c w) as [[cr|e] wa] eqn:E1;
    [|discriminate].
  injection H1 as _ <-.
  apply refresh_entry_Ok in E1. fold p in E1.
  assert (Hone : existsb p (entries_tbl wa) = true
                 /\ List.length (filter p (entries_tbl wa)) = 1%nat).
  { destruct (existsb p (entries_tbl w)) eqn:Ex.
    - destruct E1 as [_ ->]. split; [exact Ex|].
      eapply count_one; eassumption.
    - destruct E1 as (e' & id & t & _ & _ & -> & _).
      assert (p (created_row id t (set_owner userID feedID c)) = true) as Pr
        by (apply Hkey; reflexivity).
      rewrite existsb_app, filter_app, length_app, (filter_none _ _ Ex).
      simpl. rewrite Pr. simpl. split; [apply orb_true_r | reflexivity]. }
  destruct Hone as [Hex Hcount].
  assert (Hp2 : same_feed_hash (set_owner userID feedID c2) = p)
    by (unfold p, same_feed_hash; simpl; rewrite Hh; reflexivity).
  (* the second call *)
  intros out. subst out.
  match goal with
  | |- _ /\ _ /\ _ /\ (healthy ?x -> _) => set (w1 := x)
  end.
  assert (H4 : healthy w1 ->
               RefreshFeedEntries userID feedID [c2] false w1
               = (Ok [],
                  set_goroutines
                    (goroutines w1 ++ [mkGoroutine userID feedID [Hash c2]])
                    w1)).
  { intros Hw1. rewrite refresh_single.
    rewrite (refresh_entry_found userID feedID c2 w1 Hw1);
      [reflexivity|].
    rewrite Hp2. exact Hex. }
  subst w1.
  match goal with
  | |- ?A /\ ?B /\ ?C /\ _ =>
      assert (H123 : A /\ B /\ C);
      [|destruct H123 as (Ha & Hb & Hc);
        split; [exact Ha|split; [exact Hb|split; [exact Hc|exact H4]]]]
  end.
  rewrite refresh_single.
  destruct (refresh_entry userID feedID false c2 _) as [[cr2|e] wb] eqn:E2.
  - apply refresh_entry_Ok in E2. simpl in E2.
    rewrite Hp2 in E2.
    rewrite Hex in E2. destruct E2 as [-> E2]. simpl.
    rewrite E2. simpl. repeat split; auto.
    intros new2 [= <-]. reflexivity.
  - apply refresh_entry_Err in E2 as (E2 & _). simpl in *.
    rewrite E2. repeat split; auto. discriminate.
Qed.

(** ** Updating an entry that is already stored *)

Lemma targeted_iff (userID feedID : Z) (c : Entry) (r : entries.row) :
  same_user_feed_hash (set_owner userID feedID c) r = true
  <-> targeted userID feedID c r.
Proof.
  unfold same_user_feed_hash, targeted. simpl.
  rewrite !andb_true_iff, !Z.eqb_eq, String.eqb_eq. tauto.
Qed.

(** C2, as amended. Update preserves user-owned state: when the feed
    already holds an entry with the candidate's hash and
    [RefreshFeedEntries] runs with [updateExisting=true], every stored
    entry keeps its status, its publication date and its change date,
    whether the call succeeds or not; when the call succeeds it reports no
    new entry, the entry of this user, feed and hash exists and carries the
    candidate's title, URL, comments URL, content, author, reading time and
    tags, and every other entry is as it was. *)
Theorem update_keeps_user_state (userID feedID : Z) (c : Entry) (w : World) :
  (exists r, In r (entries_tbl w) /\ entries.feed_id r = feedID
             /\ entries.hash r = Hash c) ->
  let out := RefreshFeedEntries userID feedID [c] true w in
  Forall2 user_state_kept (entries_tbl w) (entries_tbl (snd out))
  /\ (forall new, fst out = Ok new ->
        new = []
        /\ (exists r, In r (entries_tbl w) /\ targeted userID feedID c r)
        /\ Forall2
             (fun r r' =>
                (targeted userID feedID c r -> content_refreshed c r r')
                /\ (~ targeted userID feedID c r -> r' = r))
             (entries_tbl w) (entries_tbl (snd out))).
Proof.
  intros (r0 & Hr0 & Hf & Hh) out. subst out.
  set (entry := set_owner userID feedID c).
  assert (Ex : existsb (same_feed_hash entry) (entries_tbl w) = true).
  { apply existsb_exists. exists r0. split; [exact Hr0|].
    apply same_feed_hash_iff. unfold feed_hash. simpl. congruence. }
  rewrite refresh_single.
  destruct (refresh_entry userID feedID true c w) as [[cr|e] w1] eqn:E.
  - apply refresh_entry_Ok in E. fold entry in E. rewrite Ex in E.
    destruct E as (-> & Et & Eu). simpl. rewrite Et. split.
    + apply Forall2_rewritten. intros a _.
      destruct (same_user_feed_hash entry a); repeat split.
    + intros new [= <-]. split; [reflexivity|]. split.
      * apply existsb_exists in Eu as (r & Hr & Pr).
        exists r. split; [exact Hr | apply targeted_iff; exact Pr].
      * apply Forall2_rewritten. intros a _.
        destruct (same_user_feed_hash entry a) eqn:Pa.
        -- split; [intros _; repeat split|].
           intros N. exfalso. apply N, targeted_iff. exact Pa.
        -- split; [|reflexivity].
           intros T. apply targeted_iff in T. fold entry in T. congruence.
  - apply refresh_entry_Err in E as (E & _). simpl. rewrite E. split.
    + apply Forall2_same. intros a; repeat split.
    + discriminate.
Qed.

(** ** The first row of an ordered selection *)

Section FirstRow.

Variable A : Type.
Variable le : A -> A -> bool.
Hypothesis le_total : forall a b, le a b = true \/ le b a = true.
Hypothesis le_trans :
  forall a b c, le a b = true -> le b c = true -> le a c = true.

Lemma order_by_first (l : list A) (h : A) :
  hd_error (order_by le l) = Some h ->
  In h l /\ forall a, In a l -> le h a = true.
Proof.
  revert h. induction l as [|x l IH]; intros h; simpl; [discriminate|].
  destruct (order_by le l) as [|y s] eqn:Es; simpl.
  - intros [= <-]. split; [left; reflexivity|].
    intros a [<-|Ha].
    + destruct (le_total x x); assumption.
    + apply (order_by_In le) in Ha. rewrite Es in Ha. contradiction.
  - destruct (IH y eq_refl) as [Hy Hmin].
    destruct (le x y) eqn:Exy; simpl; intros [= <-].
    + split; [left; reflexivity|].
      intros a [<-|Ha].
      * destruct (le_total x x); assumption.
      * eapply le_trans; [exact Exy | apply Hmin; exact Ha].
    + split; [right; exact Hy|].
      intros a [<-|Ha].
      * destruct (le_total y x) as [H|H]; [exact H | congruence].
      * apply Hmin; exact Ha.
Qed.

End FirstRow.

Lemma order_by_empty {A : Type} (le : A -> A -> bool) (l : list A) :
  hd_error (order_by le l) = None -> l = [].
Proof.
  destruct l as [|x l]; [reflexivity|]. simpl. intros H. exfalso.
  assert (In x (insert_by le x (order_by le l))) as Hx
    by (apply insert_by_In; left; reflexivity).
  destruct (insert_by le x (order_by le l)); [contradiction | discriminate].
Qed.

Lemma hd_error_limit_1 {A : Type} (l : list A) :
  hd_error (limit_rows 1 l) = hd_error l.
Proof. destruct l; reflexivity. Qed.

(** ** Finding a row by its key *)

Lemma find_by_id (l : list entries.row) (a : entries.row) :
  NoDup (map entries.id l) -> In a l ->
  find (fun r => entries.id r =? entries.id a) l = Some a.
Proof.
  intros ND Ha.
  destruct (find _ l) as [b|] eqn:E.
  - apply find_some in E as [Hb Eb]. apply Z.eqb_eq in Eb.
    f_equal. eapply same_id_same_row; eauto.
  - eapply find_none in E; [|exact Ha]. rewrite Z.eqb_refl in E.
    discriminate.
Qed.

Lemma find_no_id (l : list entries.row) (n : Z) :
  (forall r, In r l -> entries.id r <> n) ->
  find (fun r => entries.id r =? n) l = None.
Proof.
  intros H. destruct (find _ l) as [b|] eqn:E; [|reflexivity].
  apply find_some in E as [Hb Eb]. apply Z.eqb_eq in Eb.
  exfalso. exact (H b Hb Eb).
Qed.

Lemma joined_entry_In (w : World) (j : JoinedRow) :
  In j (joined w) -> In (jr_entry j) (entries_tbl w).
Proof.
  unfold joined. rewrite in_flat_map. intros (e & He & Hj).
  apply in_flat_map in Hj as (f & _ & Hj).
  apply in_map_iff in Hj as (c & <- & _). exact He.
Qed.

(** ** The two orders of the navigator, on a numeric column *)

Ltac order_to_Z :=
  unfold prev_order, next_order, col_ltb, col_eqb;
  rewrite ?orb_true_iff, ?andb_true_iff, ?orb_true_iff, ?andb_true_iff,
    ?Z.ltb_lt, ?Z.eqb_eq, ?Z.leb_le.

Lemma prev_order_total (col : entries.row -> Z) (a b : JoinedRow) :
  prev_order (IntColumn col) a b = true
  \/ prev_order (IntColumn col) b a = true.
Proof. order_to_Z. lia. Qed.

Lemma prev_order_trans (col : entries.row -> Z) (a b c : JoinedRow) :
  prev_order (IntColumn col) a b = true ->
  prev_order (IntColumn col) b c = true ->
  prev_order (IntColumn col) a c = true.
Proof. order_to_Z. lia. Qed.

Lemma next_order_total (col : entries.row -> Z) (a b : JoinedRow) :
  next_order (IntColumn col) a b = true
  \/ next_order (IntColumn col) b a = true.
Proof. order_to_Z. lia. Qed.

Lemma next_order_trans (col : entries.row -> Z) (a b c : JoinedRow) :
  next_order (IntColumn col) a b = true ->
  next_order (IntColumn col) b c = true ->
  next_order (IntColumn col) a c = true.
Proof. order_to_Z. lia. Qed.

(** ** Neighbour lookups *)

Lemma anchor_found (w : World) (n : Z) (a : entries.row) :
  NoDup (map entries.id (entries_tbl w)) ->
  In a (entries_tbl w) -> entries.id a = n ->
  find (fun r => entries.id r =? n) (entries_tbl w) = Some a.
Proof. intros ND Ha <-. apply find_by_id; assumption. Qed.

Lemma before_anchor_iff (e : EntryPaginationBuilder) (w : World)
    (col : entries.row -> Z) (j : JoinedRow) :
  NoDup (map entries.id (entries_tbl w)) ->
  (In j (joined w)
   /\ subCondition e j
      && before_anchor (IntColumn col)
           (find (fun r => entries.id r =? entryID e) (entries_tbl w))
           (entryID e) j = true)
  <-> prev_candidate e w col j.
Proof.
  intros ND. unfold prev_candidate, visible.
  rewrite andb_true_iff. split.
  - intros (Hj & Hs & Hb). repeat split; auto.
    destruct (find _ (entries_tbl w)) as [a|] eqn:E; [|discriminate].
    apply find_some in E as [Ha Ea]. apply Z.eqb_eq in Ea.
    exists a. repeat split; auto.
    revert Hb. unfold before_anchor, col_ltb, col_eqb.
    rewrite orb_true_iff, andb_true_iff, !Z.ltb_lt, Z.eqb_eq. tauto.
  - intros ((Hj & Hs) & a & Ha & Ea & Hc). repeat split; auto.
    rewrite (anchor_found w _ a ND Ha Ea).
    unfold before_anchor, col_ltb, col_eqb.
    rewrite orb_true_iff, andb_true_iff, !Z.ltb_lt, Z.eqb_eq. tauto.
Qed.

Lemma after_anchor_iff (e : EntryPaginationBuilder) (w : World)
    (col : entries.row -> Z) (j : JoinedRow) :
  NoDup (map entries.id (entries_tbl w)) ->
  (In j (joined w)
   /\ subCondition e j
      && after_anchor (IntColumn col)
           (find (fun r => entries.id r =? entryID e) (entries_tbl w))
           (entryID e) j = true)
  <-> next_candidate e w col j.
Proof.
  intros ND. unfold next_candidate, visible.
  rewrite andb_true_iff. split.
  - intros (Hj & Hs & Hb). repeat split; auto.
    destruct (find _ (entries_tbl w)) as [a|] eqn:E; [|discriminate].
    apply find_some in E as [Ha Ea]. apply Z.eqb_eq in Ea.
    exists a. repeat split; auto.
    revert Hb. unfold after_anchor, col_ltb, col_eqb.
    rewrite orb_true_iff, andb_true_iff, !Z.ltb_lt, Z.eqb_eq. tauto.
  - intros ((Hj & Hs) & a & Ha & Ea & Hc). repeat split; auto.
    rewrite (anchor_found w _ a ND Ha Ea).
    unfold after_anchor, col_ltb, col_eqb.
    rewrite orb_true_iff, andb_true_iff, !Z.ltb_lt, Z.eqb_eq. tauto.
Qed.

Lemma prev_order_iff (col : entries.row -> Z) (j j' : JoinedRow) :
  prev_order (IntColumn col) j j' = true <-> not_after_desc col j j'.
Proof. unfold not_after_desc. order_to_Z. tauto. Qed.

Lemma next_order_iff (col : entries.row -> Z) (j j' : JoinedRow) :
  next_order (IntColumn col) j j' = true <-> not_after_asc col j j'.
Proof. unfold not_after_asc. order_to_Z. tauto. Qed.

(** With a driver that answers and a numeric ordering column, each query
    scans the id of the first row of its ordered selection. *)
Lemma neighbour_query_first (e : EntryPaginationBuilder) (w : World)
    (side : column -> option entries.row -> Z -> JoinedRow -> bool)
    (ord : column -> JoinedRow -> JoinedRow -> bool)
    (col : entries.row -> Z)
    (candidate : JoinedRow -> Prop)
    (not_after : JoinedRow -> JoinedRow -> Prop) :
  healthy w ->
  entries_column (order e) = Some (IntColumn col) ->
  (forall a b, ord (IntColumn col) a b = true
               \/ ord (IntColumn col) b a = true) ->
  (forall a b c, ord (IntColumn col) a b = true ->
                 ord (IntColumn col) b c = true ->
                 ord (IntColumn col) a c = true) ->
  (forall a b, ord (IntColumn col) a b = true <-> not_after a b) ->
  (forall j,
      In j (joined w)
      /\ subCondition e j
         && side (IntColumn col)
              (find (fun r => entries.id r =? entryID e) (entries_tbl w))
              (entryID e) j = true
      <-> candidate j) ->
  exists found,
    neighbour_query e side ord w = (Ok (option_map
                                          (fun j => entries.id (jr_entry j))
                                          found), w)
    /\ first_of candidate not_after found.
Proof.
  intros Hw Hc Htot Htrans Hord Hcand.
  unfold neighbour_query, bind. rewrite (driver_healthy w Hw), Hc.
  rewrite hd_error_limit_1.
  match goal with
  | |- context [hd_error (order_by ?le ?l)] =>
      destruct (hd_error (order_by le l)) as [j|] eqn:E
  end.
  - exists (Some j). split; [reflexivity|].
    apply order_by_first in E as [Hj Hmin]; [|exact Htot|exact Htrans].
    split.
    + apply Hcand. apply filter_In in Hj. exact Hj.
    + intros j' Hj'. apply Hord, Hmin, filter_In, Hcand. exact Hj'.
  - exists None. split; [reflexivity|].
    apply order_by_empty in E. intros j Hj.
    apply Hcand in Hj. destruct Hj as [Hj1 Hj2].
    match type of E with
    | ?l = [] =>
        assert (In j l) as Hin by (apply filter_In; split; assumption)
    end.
    rewrite E in Hin. contradiction.
Qed.

Lemma getPrevNextID_of_queries (e : EntryPaginationBuilder) (w : World)
    (pID nID : option Z) :
  neighbour_query e before_anchor prev_order w = (Ok pID, w) ->
  neighbour_query e after_anchor next_order w = (Ok nID, w) ->
  getPrevNextID e w = (Ok (NullInt64_value pID, NullInt64_value nID), w).
Proof.
  intros Ep En. unfold getPrevNextID, bind, wrap, ret.
  rewrite Ep, En. reflexivity.
Qed.

(** C7, as amended. Tie-break selection: with a driver that answers, a
    table keyed by [id] and a numeric ordering column, [getPrevNextID]
    returns the ids of two rows found as follows (zero for a row not
    found).  The "previous" row is, among the visible rows whose ordering
    value is smaller than the anchor's or equal to it with a greater id,
    the first when listed by ordering column descending, creation date
    descending and id ascending.  The "next" row is, among the visible
    rows whose ordering value is greater than the anchor's or equal to it
    with a smaller id, the first when listed by ordering column ascending,
    creation date ascending and id descending. *)
Theorem getPrevNextID_selection (e : EntryPaginationBuilder) (w : World)
    (col : entries.row -> Z) :
  healthy w ->
  NoDup (map entries.id (entries_tbl w)) ->
  entries_column (order e) = Some (IntColumn col) ->
  exists prev next,
    getPrevNextID e w = (Ok (scanned_id prev, scanned_id next), w)
    /\ first_of (prev_candidate e w col) (not_after_desc col) prev
    /\ first_of (next_candidate e w col) (not_after_asc col) next.
Proof.
  intros Hw ND Hc.
  destruct (neighbour_query_first e w before_anchor prev_order col
              (prev_candidate e w col) (not_after_desc col) Hw Hc
              (prev_order_total col) (prev_order_trans col)
              (prev_order_iff col)
              (fun j => before_anchor_iff e w col j ND))
    as (prev & Ep & Fp).
  destruct (neighbour_query_first e w after_anchor next_order col
              (next_candidate e w col) (not_after_asc col) Hw Hc
              (next_order_total col) (next_order_trans col)
              (next_order_iff col)
              (fun j => after_anchor_iff e w col j ND))
    as (next & En & Fn).
  exists prev, next. split; [|split; assumption].
  rewrite (getPrevNextID_of_queries e w _ _ Ep En).
  destruct prev, next; reflexivity.
Qed.

(** ** Navigation among three entries *)

Lemma getEntry_healthy (w : World) (n : Z) :
  healthy w ->
  getEntry n w
  = (Ok (option_map sibling
           (find (fun r => entries.id r =? n) (entries_tbl w))), w).
Proof.
  intros Hw. unfold getEntry, wrap, bind, get.
  rewrite (driver_healthy w Hw). reflexivity.
Qed.

Lemma Entries_healthy (e : EntryPaginationBuilder) (w : World)
    (prevID nextID : Z) (prev next : option Entry) :
  healthy w ->
  getPrevNextID e w = (Ok (prevID, nextID), w) ->
  getEntry prevID w = (Ok prev, w) ->
  getEntry nextID w = (Ok next, w) ->
  navigates e w prev next.
Proof.
  intros Hw Hids Hp Hn.
  assert (HB : Begin w
               = (Ok (mkTx (entries_tbl w) (entries_seq w)
                           (enclosures_tbl w)), w)).
  { unfold Begin, bind, get. rewrite (driver_healthy w Hw). reflexivity. }
  assert (HC : forall tx, snd (Commit tx w) = w).
  { intros tx. unfold Commit. rewrite (driver_healthy w Hw). reflexivity. }
  assert (HE : Entries e w
               = (Ok (if (direction e =? "desc")%string
                      then (next, prev) else (prev, next)), w)).
  { unfold Entries.
    unfold bind at 1. unfold wrap at 1. rewrite HB.
    unfold bind at 1. unfold or_rollback_ignored at 1. rewrite Hids.
    unfold bind at 1. unfold or_rollback_ignored at 1. simpl fst.
    rewrite Hp.
    unfold bind at 1. unfold or_rollback_ignored at 1. simpl snd.
    rewrite Hn.
    unfold bind, ignore_result, ret. rewrite HC.
    destruct (direction e =? "desc")%string; reflexivity. }
  unfold navigates. rewrite HE. split; intros Hd.
  - apply String.eqb_neq in Hd. rewrite Hd. reflexivity.
  - apply String.eqb_eq in Hd. rewrite Hd. reflexivity.
Qed.

Lemma first_of_this (candidate : JoinedRow -> Prop)
    (not_after : JoinedRow -> JoinedRow -> Prop) (found : option JoinedRow)
    (target : entries.row) :
  first_of candidate not_after found ->
  (exists j, candidate j) ->
  (forall j, candidate j -> (forall j', candidate j' -> not_after j j') ->
             jr_entry j = target) ->
  option_map (fun j => entries.id (jr_entry j)) found
  = Some (entries.id target).
Proof.
  intros F (j0 & H0) Huniq. destruct found as [j|]; simpl in *.
  - destruct F as [Hj Hmin]. rewrite (Huniq j Hj Hmin). reflexivity.
  - exfalso. exact (F j0 H0).
Qed.

Lemma first_of_nothing (candidate : JoinedRow -> Prop)
    (not_after : JoinedRow -> JoinedRow -> Prop) (found : option JoinedRow) :
  first_of candidate not_after found ->
  (forall j, ~ candidate j) ->
  option_map (fun j => entries.id (jr_entry j)) found = None.
Proof.
  intros F Hnone. destruct found as [j|]; [|reflexivity].
  destruct F as [Hj _]. exfalso. exact (Hnone j Hj).
Qed.

Lemma settled_id (candidate : JoinedRow -> Prop)
    (not_after : JoinedRow -> JoinedRow -> Prop) (found : option JoinedRow)
    (target : option entries.row) :
  first_of candidate not_after found ->
  settles candidate not_after target ->
  option_map (fun j => entries.id (jr_entry j)) found
  = option_map entries.id target.
Proof.
  intros F S. destruct target as [t|]; simpl in *.
  - destruct S as [Hex Huniq]. eapply first_of_this; eassumption.
  - eapply first_of_nothing; eassumption.
Qed.

Lemma getEntry_target (w : World) (target : option entries.row) :
  healthy w ->
  NoDup (map entries.id (entries_tbl w)) ->
  (forall r, In r (entries_tbl w) -> entries.id r <> 0) ->
  (forall t, target = Some t -> In t (entries_tbl w)) ->
  getEntry (NullInt64_value (option_map entries.id target)) w
  = (Ok (option_map sibling target), w).
Proof.
  intros Hw ND Hpos Hin. rewrite (getEntry_healthy w _ Hw).
  destruct target as [t|]; simpl.
  - rewrite find_by_id; [reflexivity | exact ND | apply Hin; reflexivity].
  - rewrite find_no_id; [reflexivity | exact Hpos].
Qed.

Lemma navigates_to (e : EntryPaginationBuilder) (w : World)
    (col : entries.row -> Z) (pt nt : option entries.row) :
  healthy w ->
  NoDup (map entries.id (entries_tbl w)) ->
  (forall r, In r (entries_tbl w) -> entries.id r <> 0) ->
  entries_column (order e) = Some (IntColumn col) ->
  (forall t, pt = Some t -> In t (entries_tbl w)) ->
  (forall t, nt = Some t -> In t (entries_tbl w)) ->
  settles (prev_candidate e w col) (not_after_desc col) pt ->
  settles (next_candidate e w col) (not_after_asc col) nt ->
  navigates e w (option_map sibling pt) (option_map sibling nt).
Proof.
  intros Hw ND Hpos Hc Hpin Hnin Sp Sn.
  destruct (neighbour_query_first e w before_anchor prev_order col
              (prev_candidate e w col) (not_after_desc col) Hw Hc
              (prev_order_total col) (prev_order_trans col)
              (prev_order_iff col)
              (fun j => before_anchor_iff e w col j ND))
    as (prev & Ep & Fp).
  destruct (neighbour_query_first e w after_anchor next_order col
              (next_candidate e w col) (not_after_asc col) Hw Hc
              (next_order_total col) (next_order_trans col)
              (next_order_iff col)
              (fun j => after_anchor_iff e w col j ND))
    as (next & En & Fn).
  rewrite (settled_id _ _ _ _ Fp Sp) in Ep.
  rewrite (settled_id _ _ _ _ Fn Sn) in En.
  eapply Entries_healthy.
  - exact Hw.
  - apply getPrevNextID_of_queries; eassumption.
  - apply getEntry_target; assumption.
  - apply getEntry_target; assumption.
Qed.

Lemma prev_candidate_anchored (e : EntryPaginationBuilder) (w : World)
    (col : entries.row -> Z) (a : entries.row) (j : JoinedRow) :
  NoDup (map entries.id (entries_tbl w)) ->
  In a (entries_tbl w) ->
  prev_candidate (anchored (entries.id a) e) w col j
  <-> visible e w j
      /\ (col (jr_entry j) < col a
          \/ (col (jr_entry j) = col a
              /\ entries.id a < entries.id (jr_entry j))).
Proof.
  intros ND Ha. unfold prev_candidate. simpl. split.
  - intros (V & a' & Ha' & E & C).
    assert (a' = a) by (eapply same_id_same_row; eauto). subst a'.
    split; assumption.
  - intros (V & C). split; [exact V|]. exists a. auto.
Qed.

Lemma next_candidate_anchored (e : EntryPaginationBuilder) (w : World)
    (col : entries.row -> Z) (a : entries.row) (j : JoinedRow) :
  NoDup (map entries.id (entries_tbl w)) ->
  In a (entries_tbl w) ->
  next_candidate (anchored (entries.id a) e) w col j
  <-> visible e w j
      /\ (col a < col (jr_entry j)
          \/ (col (jr_entry j) = col a
              /\ entries.id (jr_entry j) < entries.id a)).
Proof.
  intros ND Ha. unfold next_candidate. simpl. split.
  - intros (V & a' & Ha' & E & C).
    assert (a' = a) by (eapply same_id_same_row; eauto). subst a'.
    split; assumption.
  - intros (V & C). split; [exact V|]. exists a. auto.
Qed.

(** C6. Pagination neighbours: let the driver answer, [id] be a key with
    no zero in it, the ordering column be numeric, and let the entries
    visible through the builder be [e1], [e2] and [e3] with strictly
    ascending ordering values.  Anchored at [e2] the navigator answers
    previous [e1] and next [e3]; anchored at [e1], no previous entry and
    next [e2]; anchored at [e3], previous [e2] and no next entry.  A missing
    neighbour is an empty result of a successful call.  When the direction
    is descending the same pair is returned swapped. *)
Theorem three_entries_navigation (e : EntryPaginationBuilder) (w : World)
    (col : entries.row -> Z) (e1 e2 e3 : entries.row) :
  healthy w ->
  NoDup (map entries.id (entries_tbl w)) ->
  (forall r, In r (entries_tbl w) -> entries.id r <> 0) ->
  entries_column (order e) = Some (IntColumn col) ->
  (forall r, (exists j, visible e w j /\ jr_entry j = r)
             <-> r = e1 \/ r = e2 \/ r = e3) ->
  col e1 < col e2 -> col e2 < col e3 ->
  navigates (anchored (entries.id e2) e) w
    (Some (sibling e1)) (Some (sibling e3))
  /\ navigates (anchored (entries.id e1) e) w None (Some (sibling e2))
  /\ navigates (anchored (entries.id e3) e) w (Some (sibling e2)) None.
Proof.
  intros Hw ND Hpos Hc Hvis H12 H23.
  destruct (proj2 (Hvis e1) (or_introl eq_refl)) as (j1 & V1 & J1).
  destruct (proj2 (Hvis e2) (or_intror (or_introl eq_refl)))
    as (j2 & V2 & J2).
  destruct (proj2 (Hvis e3) (or_intror (or_intror eq_refl)))
    as (j3 & V3 & J3).
  assert (In1 : In e1 (entries_tbl w))
    by (rewrite <- J1; apply joined_entry_In, V1).
  assert (In2 : In e2 (entries_tbl w))
    by (rewrite <- J2; apply joined_entry_In, V2).
  assert (In3 : In e3 (entries_tbl w))
    by (rewrite <- J3; apply joined_entry_In, V3).
  assert (Hall : forall j, visible e w j ->
                           jr_entry j = e1 \/ jr_entry j = e2
                           \/ jr_entry j = e3)
    by (intros j V; apply Hvis; eauto).
  assert (P : forall a j, In a (entries_tbl w) ->
                prev_candidate (anchored (entries.id a) e) w col j
                <-> visible e w j
                    /\ (col (jr_entry j) < col a
                        \/ (col (jr_entry j) = col a
                            /\ entries.id a < entries.id (jr_entry j))))
    by (intros a j Ha; apply prev_candidate_anchored; assumption).
  assert (N : forall a j, In a (entries_tbl w) ->
                next_candidate (anchored (entries.id a) e) w col j
                <-> visible e w j
                    /\ (col a < col (jr_entry j)
                        \/ (col (jr_entry j) = col a
                            /\ entries.id (jr_entry j) < entries.id a)))
    by (intros a j Ha; apply next_candidate_anchored; assumption).
  split; [|split].
  - (* anchored at e2 *)
    apply (navigates_to (anchored (entries.id e2) e) w col
             (Some e1) (Some e3)); auto; try (intros t [= <-]; assumption).
    + split.
      * exists j1. apply P; [exact In2|]. rewrite J1. auto.
      * intros j Hj _. apply P in Hj as [V C]; [|exact In2].
        destruct (Hall j V) as [E|[E|E]]; rewrite E in *;
          [reflexivity | exfalso; lia | exfalso; lia].
    + split.
      * exists j3. apply N; [exact In2|]. rewrite J3. auto.
      * intros j Hj _. apply N in Hj as [V C]; [|exact In2].
        destruct (Hall j V) as [E|[E|E]]; rewrite E in *;
          [exfalso; lia | exfalso; lia | reflexivity].
  - (* anchored at e1 *)
    apply (navigates_to (anchored (entries.id e1) e) w col
             None (Some e2)); auto; try (intros t [= <-]; assumption);
      try discriminate.
    + intros j Hj. apply P in Hj as [V C]; [|exact In1].
      destruct (Hall j V) as [E|[E|E]]; rewrite E in *; lia.
    + split.
      * exists j2. apply N; [exact In1|]. rewrite J2. auto.
      * intros j Hj Hmin. pose proof Hj as Hj'.
        apply N in Hj' as [V C]; [|exact In1].
        assert (C2 : next_candidate (anchored (entries.id e1) e) w col j2)
          by (apply N; [exact In1|]; rewrite J2; auto).
        specialize (Hmin j2 C2). unfold not_after_asc in Hmin.
        rewrite J2 in Hmin.
        destruct (Hall j V) as [E|[E|E]]; rewrite E in *;
          [exfalso; lia | reflexivity | exfalso; lia].
  - (* anchored at e3 *)
    apply (navigates_to (anchored (entries.id e3) e) w col
             (Some e2) None); auto; try (intros t [= <-]; assumption);
      try discriminate.
    + split.
      * exists j2. apply P; [exact In3|]. rewrite J2. auto.
      * intros j Hj Hmin. pose proof Hj as Hj'.
        apply P in Hj' as [V C]; [|exact In3].
        assert (C2 : prev_candidate (anchored (entries.id e3) e) w col j2)
          by (apply P; [exact In3|]; rewrite J2; auto).
        specialize (Hmin j2 C2). unfold not_after_desc in Hmin.
        rewrite J2 in Hmin.
        destruct (Hall j V) as [E|[E|E]]; rewrite E in *;
          [exfalso; lia | reflexivity | exfalso; lia].
    + intros j Hj. apply N in Hj as [V C]; [|exact In3].
      destruct (Hall j V) as [E|[E|E]]; rewrite E in *; lia.
Qed.

End Properties.

(** * Further properties of the storage code *)

Section MoreProperties.

Context `{Collab : Collaborators}.

(** ** What a refresh stores *)

Lemma refresh_entry_keeps_stored (userID feedID : Z) (update : bool)
    (c : Entry) (w : World) (k : Z * string) :
  (exists r, In r (entries_tbl w) /\ feed_hash r = k) ->
  exists r, In r (entries_tbl (snd (refresh_entry userID feedID update c w)))
            /\ feed_hash r = k.
Proof.
  intros (r & Hr & Hk).
  destruct (refresh_entry userID feedID update c w) as [[created|e] w']
    eqn:E; simpl.
  - apply refresh_entry_Ok in E. cbv zeta in E.
    set (entry := set_owner userID feedID c) in *.
    destruct (existsb (same_feed_hash entry) (entries_tbl w)).
    + destruct E as [_ E]. destruct update.
      * destruct E as [-> _].
        exists (if same_user_feed_hash entry r then refreshed entry r else r).
        split.
        -- apply (in_map (fun r => if same_user_feed_hash entry r
                                   then refreshed entry r else r)).
           exact Hr.
        -- destruct (same_user_feed_hash entry r); exact Hk.
      * rewrite E. eauto.
    + destruct E as (e' & id & t & _ & _ & -> & _).
      exists r. split; [apply in_or_app; left; exact Hr | exact Hk].
  - apply refresh_entry_Err in E as (E & _). rewrite E. eauto.
Qed.

Lemma refresh_entry_stores (userID feedID : Z) (update : bool) (c : Entry)
    (w w' : World) (created : option Entry) :
  refresh_entry userID feedID update c w = (Ok created, w') ->
  exists r, In r (entries_tbl w') /\ feed_hash r = (feedID, Hash c).
Proof.
  intros E.
  pose proof (refresh_entry_keeps_stored userID feedID update c w
                (feedID, Hash c)) as K.
  rewrite E in K. simpl in K.
  apply refresh_entry_Ok in E. cbv zeta in E.
  set (entry := set_owner userID feedID c) in *.
  destruct (existsb (same_feed_hash entry) (entries_tbl w)) eqn:Ex.
  - apply K. apply existsb_exists in Ex as (r & Hr & Pr).
    exists r. split; [exact Hr|].
    exact (proj1 (same_feed_hash_iff entry r) Pr).
  - destruct E as (e' & id & t & _ & _ & -> & _).
    exists (created_row id t entry).
    split; [apply in_or_app; right; left; reflexivity | reflexivity].
Qed.

Lemma refresh_loop_keeps_stored (userID feedID : Z) (update : bool)
    (entries : list Entry) (k : Z * string) :
  forall newEntries entryHashes w,
    (exists r, In r (entries_tbl w) /\ feed_hash r = k) ->
    exists r,
      In r (entries_tbl
              (snd (refresh_loop userID feedID update entries newEntries
                      entryHashes w)))
      /\ feed_hash r = k.
Proof.
  induction entries as [|c cs IH]; intros newEntries entryHashes w Hk;
    simpl; [exact Hk|].
  unfold bind.
  pose proof (refresh_entry_keeps_stored userID feedID update c w k Hk) as K.
  destruct (refresh_entry userID feedID update c w) as [[cr|e] w1];
    simpl in K; [|exact K].
  apply IH. exact K.
Qed.

Lemma refresh_loop_stores (userID feedID : Z) (update : bool)
    (entries : list Entry) :
  forall newEntries entryHashes w r w',
    refresh_loop userID feedID update entries newEntries entryHashes w
    = (Ok r, w') ->
    snd r = entryHashes ++ map Hash entries
    /\ forall c, In c entries ->
         exists row, In row (entries_tbl w')
                     /\ feed_hash row = (feedID, Hash c).
Proof.
  induction entries as [|c cs IH]; intros newEntries entryHashes w r w' H;
    simpl in H.
  - injection H as <- <-. simpl. rewrite app_nil_r.
    split; [reflexivity | intros c []].
  - apply bind_Ok in H as (created & w1 & Hc & H).
    pose proof H as H'. apply IH in H' as [Hh Hs]. split.
    + rewrite Hh, <- app_assoc. reflexivity.
    + intros c0 [<-|Hin]; [|apply Hs; exact Hin].
      apply refresh_entry_stores in Hc.
      pose proof (refresh_loop_keeps_stored userID feedID update cs
                    (feedID, Hash c) (append_created newEntries created)
                    (entryHashes ++ [Hash c]) w1 Hc) as K.
      rewrite H in K. exact K.
Qed.

Lemma cleanupEntries_spares (feedID : Z) (entryHashes : list string)
    (w : World) (r : entries.row) :
  In r (entries_tbl w) ->
  stale feedID entryHashes r = false ->
  In r (entries_tbl (snd (cleanupEntries feedID entryHashes w))).
Proof.
  intros Hr Hs. unfold cleanupEntries.
  destruct (Z.of_nat (List.length entryHashes) =? 0); [exact Hr|].
  rewrite bind_ret_snd, wrap_snd. unfold exec_delete, bind.
  destruct (driver_cases w) as ([[]|e] & fs & ->); simpl; [|exact Hr].
  apply filter_In. split; [exact Hr | rewrite Hs; reflexivity].
Qed.

Lemma run_goroutine_entries (g : Goroutine) (w : World) :
  entries_tbl (snd (run_goroutine g w))
  = entries_tbl (snd (cleanupEntries (go_feedID g) (go_entryHashes g) w)).
Proof.
  unfold run_goroutine.
  destruct (cleanupEntries (go_feedID g) (go_entryHashes g) w)
    as [[u|e] w']; reflexivity.
Qed.

Lemma RefreshFeedEntries_stores (userID feedID : Z) (update : bool)
    (entries : list Entry) (w w' : World) (newEntries : list Entry) :
  RefreshFeedEntries userID feedID entries update w = (Ok newEntries, w') ->
  forall c, In c entries ->
    exists r, In r (entries_tbl w') /\ entries.feed_id r = feedID
              /\ entries.hash r = Hash c.
Proof.
  unfold RefreshFeedEntries. intros H.
  apply bind_Ok in H as (r & w1 & Hl & H).
  apply refresh_loop_stores in Hl as [_ Hs].
  unfold bind, go, modify, ret in H. injection H as _ <-. simpl.
  intros c Hc. destruct (Hs c Hc) as (row & Hrow & Hk).
  unfold feed_hash in Hk. injection Hk as Hf Hh'. eauto.
Qed.

(** X2. A refresh that succeeds has every candidate stored under its feed
    and hash, queues exactly one reaper carrying the candidates' hashes in
    order, and that reaper, run on the world the refresh leaves, keeps every
    candidate stored. *)
Theorem refresh_stores_candidates (userID feedID : Z) (update : bool)
    (entries : list Entry) (w w' : World) (newEntries : list Entry) :
  RefreshFeedEntries userID feedID entries update w = (Ok newEntries, w') ->
  (forall c, In c entries ->
     exists r, In r (entries_tbl w') /\ entries.feed_id r = feedID
               /\ entries.hash r = Hash c)
  /\ goroutines w'
     = goroutines w ++ [mkGoroutine userID feedID (map Hash entries)]
  /\ (forall c, In c entries ->
        exists r,
          In r (entries_tbl
                  (snd (run_goroutine
                          (mkGoroutine userID feedID (map Hash entries)) w')))
          /\ entries.feed_id r = feedID /\ entries.hash r = Hash c).
Proof.
  unfold RefreshFeedEntries. intros H.
  apply bind_Ok in H as (r & w1 & Hl & H).
  pose proof (keeps_refresh_loop userID feedID update entries [] [] w) as K.
  rewrite Hl in K. destruct K as (_ & _ & _ & Kg & _). simpl in Kg.
  apply refresh_loop_stores in Hl as [Hh Hs]. simpl in Hh.
  unfold bind, go, modify, ret in H. injection H as _ <-. simpl.
  assert (S1 : forall c, In c entries ->
             exists row, In row (entries_tbl w1)
                         /\ entries.feed_id row = feedID
                         /\ entries.hash row = Hash c).
  { intros c Hc. destruct (Hs c Hc) as (row & Hrow & Hk).
    unfold feed_hash in Hk. injection Hk as Hf Hh'. eauto. }
  split; [exact S1|]. split; [rewrite Kg, Hh; reflexivity|].
  intros c Hc. destruct (S1 c Hc) as (row & Hrow & Hf & Hh').
  exists row. split; [|split; assumption].
  rewrite run_goroutine_entries. simpl.
  apply cleanupEntries_spares; [exact Hrow|].
  unfold stale. replace (existsb _ (map Hash entries)) with true.
  { rewrite andb_false_r. reflexivity. }
  symmetry. apply existsb_exists. exists (Hash c). split.
  - apply in_map. exact Hc.
  - rewrite Hh'. apply String.eqb_refl.
Qed.

(** ** A refresh that does not update *)

Lemma createEntry_reported (entry entry' : Entry) (w w' : World) :
  createEntry entry w = (Ok entry', w') ->
  reported entry'
    (created_row (Z.max (entries_seq w) (max_rowid (entries_tbl w)) + 1)
       (clock w) entry).
Proof.
  unfold createEntry. intros H.
  apply bind_Ok in H as (id & w1 & Hi & H). apply wrap_Ok in Hi.
  unfold exec_insert_entry in Hi.
  apply bind_Ok in Hi as ([] & w0 & Hd & Hi).
  apply driver_inv in Hd as (fs & ->). simpl in Hi.
  destruct (existsb _ (entries_tbl w)); [discriminate|].
  injection Hi as <- <-.
  apply bind_Ok in H as (t & w2 & Hg & H). injection Hg as <- <-.
  apply bind_Ok in H as (cs & w3 & Hc & H). injection H as <- <-.
  repeat split.
Qed.

Lemma refresh_entry_appends (userID feedID : Z) (c : Entry) (w : World) :
  exists added,
    entries_tbl (snd (refresh_entry userID feedID false c w))
    = entries_tbl w ++ added
    /\ Forall (fresh_row userID feedID) added
    /\ forall created,
         fst (refresh_entry userID feedID false c w) = Ok created ->
         Forall2 reported (append_created [] created) added.
Proof.
  destruct (refresh_entry userID feedID false c w) as [[created|e] w'] eqn:E;
    simpl.
  - unfold refresh_entry in E.
    set (entry := set_owner userID feedID c) in *.
    apply bind_Ok in E as (tx & w1 & HB & H). apply wrap_Ok in HB.
    apply Begin_Ok in HB as [(fs & ->) _].
    apply bind_Ok in H as (b & w2 & He & H). apply or_rollback_Ok in He.
    apply entryExists_Ok in He as [-> E2]. simpl in E2.
    apply bind_Ok in H as (cr & w3 & Hb & H). apply or_rollback_Ok in Hb.
    apply bind_Ok in H as (u & w4 & Hc & H). apply wrap_Ok in Hc.
    apply Commit_Ok in Hc as (fs' & ->). injection H as <- <-. simpl.
    revert Hb.
    change (entries_tbl (set_faults fs w)) with (entries_tbl w).
    destruct (existsb (same_feed_hash entry) (entries_tbl w)); intros Hb.
    + injection Hb as <- <-. exists []. rewrite app_nil_r, E2.
      repeat split; [constructor|]. intros created [= <-]. constructor.
    + apply bind_Ok in Hb as (e' & w5 & Hcr & Hb). injection Hb as <- <-.
      pose proof (createEntry_reported _ _ _ _ Hcr) as Hrep.
      apply createEntry_Ok in Hcr as (_ & Ht & _). rewrite E2 in Ht.
      eexists. split; [exact Ht|]. split.
      * constructor; [repeat split | constructor].
      * intros created [= <-]. simpl.
        constructor; [|constructor].
        rewrite E2 in Hrep. exact Hrep.
  - apply refresh_entry_Err in E as (E & _). exists [].
    rewrite app_nil_r. repeat split; [exact E | constructor | discriminate].
Qed.

Lemma refresh_loop_appends (userID feedID : Z) (entries : list Entry) :
  forall newEntries entryHashes w,
  exists added,
    entries_tbl
      (snd (refresh_loop userID feedID false entries newEntries
              entryHashes w))
    = entries_tbl w ++ added
    /\ Forall (fresh_row userID feedID) added
    /\ forall r,
         fst (refresh_loop userID feedID false entries newEntries
                entryHashes w) = Ok r ->
         exists created,
           fst r = newEntries ++ created /\ Forall2 reported created added.
Proof.
  induction entries as [|c cs IH]; intros newEntries entryHashes w; simpl.
  - exists []. rewrite app_nil_r. repeat split; [constructor|].
    intros r [= <-]. exists []. rewrite app_nil_r. split; constructor.
  - unfold bind.
    destruct (refresh_entry_appends userID feedID c w)
      as (added1 & T1 & F1 & R1).
    destruct (refresh_entry userID feedID false c w) as [[cr|e] w1];
      simpl in *.
    + destruct (IH (append_created newEntries cr)
                   (entryHashes ++ [Hash c]) w1)
        as (added2 & T2 & F2 & R2).
      exists (added1 ++ added2). rewrite T2, T1, app_assoc.
      split; [reflexivity|]. split; [apply Forall_app; split; assumption|].
      intros r Hr. destruct (R2 r Hr) as (created2 & E2 & Rep2).
      specialize (R1 cr eq_refl).
      exists (append_created [] cr ++ created2). split.
      * rewrite E2. destruct cr; simpl; [rewrite <- app_assoc|];
          reflexivity.
      * apply Forall2_app; assumption.
    + exists added1. repeat split; [exact T1 | exact F1 | discriminate].
Qed.

(** X3. A refresh with [updateExisting=false] only appends: whatever its
    outcome, the table it leaves is the table it found followed by the rows
    it created, each of them owned by the user and the feed of the call,
    unread, not starred and not shared; when it succeeds, the new entries
    it returns are these rows, in order, with their ids, hashes, titles and
    timestamps. *)
Theorem refresh_without_update_appends (userID feedID : Z)
    (entries : list Entry) (w : World) :
  exists added,
    entries_tbl (snd (RefreshFeedEntries userID feedID entries false w))
    = entries_tbl w ++ added
    /\ Forall (fresh_row userID feedID) added
    /\ forall newEntries,
         fst (RefreshFeedEntries userID feedID entries false w)
         = Ok newEntries ->
         Forall2 reported newEntries added.
Proof.
  destruct (refresh_loop_appends userID feedID entries [] [] w)
    as (added & T & F & R).
  exists added. unfold RefreshFeedEntries, bind, go, modify, ret.
  destruct (refresh_loop userID feedID false entries [] [] w)
    as [[r|e] w1]; simpl in *.
  - repeat split; [exact T | exact F|].
    intros newEntries [= <-].
    destruct (R r eq_refl) as (created & -> & Rep). exact Rep.
  - repeat split; [exact T | exact F | discriminate].
Qed.

(** ** Updating an entry stored for another user *)

Lemma restore_own_snapshot (w : World) :
  restore (mkTx (entries_tbl w) (entries_seq w) (enclosures_tbl w)) w = w.
Proof. destruct w; reflexivity. Qed.

(** X4. The existence check ignores the user and the update does not:
    with a driver that answers, a candidate whose feed and hash are stored
    only for other users makes [RefreshFeedEntries] with
    [updateExisting=true] fail with [store: no entry found to update], and
    the world is left as it was. *)
Theorem refresh_update_foreign_owner (userID feedID : Z) (c : Entry)
    (w : World) :
  healthy w ->
  (exists r, In r (entries_tbl w) /\ entries.feed_id r = feedID
             /\ entries.hash r = Hash c) ->
  (forall r, In r (entries_tbl w) -> entries.feed_id r = feedID ->
             entries.hash r = Hash c -> entries.user_id r <> userID) ->
  RefreshFeedEntries userID feedID [c] true w
  = (Err (ErrorsNew "store: no entry found to update"), w).
Proof.
  intros Hw (r0 & Hr0 & Hf0 & Hh0) Hforeign.
  set (entry := set_owner userID feedID c).
  assert (Ex : existsb (same_feed_hash entry) (entries_tbl w) = true).
  { apply existsb_exists. exists r0. split; [exact Hr0|].
    apply same_feed_hash_iff. unfold feed_hash. simpl. congruence. }
  assert (Hnone : forall r, In r (entries_tbl w) ->
                            same_user_feed_hash entry r = false).
  { intros r Hr. destruct (same_user_feed_hash entry r) eqn:P;
      [|reflexivity].
    apply targeted_iff in P. destruct P as (Hu & Hf & Hh).
    exfalso. exact (Hforeign r Hr Hf Hh Hu). }
  destruct (nothing_matches (same_user_feed_hash entry) (refreshed entry)
              (entries_tbl w) Hnone) as [N1 N2].
  assert (HU : updateEntry entry w
               = (Err (ErrorsNew "store: no entry found to update"), w)).
  { unfold updateEntry, bind, wrap, exec_update, bind.
    rewrite (driver_healthy w Hw). simpl. rewrite N1, N2. simpl.
    rewrite set_entries_same. reflexivity. }
  set (tx := mkTx (entries_tbl w) (entries_seq w) (enclosures_tbl w)).
  assert (HB : wrap (Errorf "store: unable to start transaction") Begin w
               = (Ok tx, w)).
  { unfold wrap, Begin, bind, get. rewrite (driver_healthy w Hw).
    reflexivity. }
  assert (HE : or_rollback tx (entryExists entry) w = (Ok true, w)).
  { unfold or_rollback, entryExists, wrap, bind, get.
    rewrite (driver_healthy w Hw), Ex. reflexivity. }
  assert (HR : or_rollback tx
                 (bind (updateEntry entry)
                       (fun _ => ret (@None Entry))) w
               = (Err (ErrorsNew "store: no entry found to update"), w)).
  { unfold or_rollback, bind. rewrite HU.
    unfold rollback_return, Rollback. rewrite (driver_healthy w Hw).
    unfold tx. rewrite restore_own_snapshot. reflexivity. }
  rewrite refresh_single. unfold refresh_entry. fold entry.
  unfold bind at 1. rewrite HB.
  unfold bind at 1. rewrite HE.
  unfold bind at 1. rewrite HR. reflexivity.
Qed.

(** ** Statements with a healthy driver *)

Lemma exec_update_healthy (p : entries.row -> bool)
    (f : entries.row -> entries.row) (w : World) :
  healthy w ->
  exec_update p f w
  = (Ok (Z.of_nat (List.length (filter p (entries_tbl w)))),
     set_entries (map (fun r => if p r then f r else r) (entries_tbl w)) w).
Proof.
  intros Hw. unfold exec_update, bind. rewrite (driver_healthy w Hw).
  reflexivity.
Qed.

Lemma addressed_iff (userID : Z) (ids : list Z) (r : entries.row) :
  (entries.user_id r =? userID) && id_in ids r = true
  <-> addressed userID ids r.
Proof.
  unfold addressed. rewrite andb_true_iff, Z.eqb_eq, id_in_true. tauto.
Qed.

Lemma rewritten_where {A : Type} (P : A -> Prop) (p : A -> bool)
    (f : A -> A) (l : list A) :
  (forall a, p a = true <-> P a) ->
  Forall2 (fun a a' => (P a -> a' = f a) /\ (~ P a -> a' = a))
          l (map (fun a => if p a then f a else a) l).
Proof.
  intros Hp. apply Forall2_rewritten. intros a _.
  destruct (p a) eqn:E.
  - split; [reflexivity|]. intros N. exfalso. apply N, Hp, E.
  - split; [|reflexivity]. intros Pa. apply Hp in Pa. congruence.
Qed.

(** ** Setting a status *)

(** X5. [SetEntriesStatus] with a driver that answers.  On an empty list
    of ids it succeeds and changes nothing.  A status outside unread, read
    and removed is refused by the [CHECK] constraint when the call
    addresses a row, the world staying as it was, and goes unnoticed when
    it addresses none.  In every other case the call succeeds, each
    addressed row takes the status and the clock's time as change date, and
    every other row is as it was. *)
Theorem SetEntriesStatus_outcomes (userID : Z) (ids : list Z)
    (status : string) (w : World) :
  healthy w ->
  (ids = [] -> SetEntriesStatus userID ids status w = (Ok tt, w))
  /\ (valid_status status = false ->
      (exists r, In r (entries_tbl w) /\ addressed userID ids r) ->
      SetEntriesStatus userID ids status w
      = (Err (Errorf "store: unable to update entries statuses"
                (DriverError "CHECK constraint failed: status")), w))
  /\ (valid_status status = true
      \/ (forall r, In r (entries_tbl w) -> ~ addressed userID ids r) ->
      fst (SetEntriesStatus userID ids status w) = Ok tt
      /\ Forall2
           (fun r r' =>
              (addressed userID ids r ->
               r' = set_changed_at (clock w) (set_status status r))
              /\ (~ addressed userID ids r -> r' = r))
           (entries_tbl w)
           (entries_tbl (snd (SetEntriesStatus userID ids status w)))).
Proof.
  intros Hw. split; [intros ->; reflexivity|].
  set (p := fun r => (entries.user_id r =? userID) && id_in ids r).
  assert (Hp : forall r, p r = true <-> addressed userID ids r)
    by (intros r; apply addressed_iff).
  split.
  - intros Hs (r & Hr & Ha). unfold SetEntriesStatus.
    destruct ids as [|i ids']; [destruct Ha as [_ []]|].
    set (l := i :: ids') in *.
    replace (Z.of_nat (List.length l) =? 0) with false
      by (symmetry; apply Z.eqb_neq; simpl; lia).
    unfold bind, wrap, get, exec_update_status. fold p. rewrite Hs.
    replace (existsb p (entries_tbl w)) with true.
    + simpl. unfold bind, fail. rewrite (driver_healthy w Hw). reflexivity.
    + symmetry. apply existsb_exists. exists r.
      split; [exact Hr | apply Hp; exact Ha].
  - intros Hcase.
    destruct (Z.of_nat (List.length ids) =? 0) eqn:El.
    + unfold SetEntriesStatus. rewrite El.
      simpl. split; [reflexivity|]. apply Forall2_same. intros r.
      split; [|reflexivity]. intros [_ Hin].
      destruct ids; [destruct Hin | apply Z.eqb_eq in El; simpl in El; lia].
    + assert (Hc : negb (valid_status status)
                   && existsb p (entries_tbl w) = false).
      { destruct Hcase as [-> | Hnone]; [reflexivity|].
        replace (existsb p (entries_tbl w)) with false;
          [apply andb_false_r|].
        symmetry. apply not_true_iff_false. intros Hex.
        apply existsb_exists in Hex as (r & Hr & Pr).
        apply (Hnone r Hr), Hp, Pr. }
      assert (Hrun : SetEntriesStatus userID ids status w
                     = (Ok tt,
                        set_entries
                          (map (fun r =>
                                  if p r
                                  then set_changed_at (clock w)
                                         (set_status status r)
                                  else r) (entries_tbl w)) w)).
      { unfold SetEntriesStatus. rewrite El.
        unfold bind, wrap, get, exec_update_status. cbv beta.
        fold p. rewrite Hc. unfold exec_update, bind.
        rewrite (driver_healthy w Hw). reflexivity. }
      rewrite Hrun. simpl. split; [reflexivity|].
      apply (rewritten_where (addressed userID ids) p). exact Hp.
Qed.

(** ** The statuses of the table *)

Lemma Forall_rewritten {A : Type} (V : A -> Prop) (p : A -> bool)
    (f : A -> A) (l : list A) :
  Forall V l ->
  (forall a, In a l -> p a = true -> V (f a)) ->
  Forall V (map (fun a => if p a then f a else a) l).
Proof.
  induction l as [|a l IH]; intros HV Hf; simpl; constructor.
  - destruct (p a) eqn:E.
    + apply Hf; [left; reflexivity | exact E].
    + inversion HV; assumption.
  - apply IH; [inversion HV; assumption|].
    intros b Hb. apply Hf. right. exact Hb.
Qed.

Lemma Forall_filter {A : Type} (V : A -> Prop) (p : A -> bool) (l : list A) :
  Forall V l -> Forall V (filter p l).
Proof.
  intros HV. apply Forall_forall. intros a Ha.
  apply filter_In in Ha as [Ha _].
  exact (proj1 (Forall_forall V l) HV a Ha).
Qed.

Lemma exec_update_valid (p : entries.row -> bool)
    (f : entries.row -> entries.row) (w : World) :
  valid_table w ->
  (forall r, In r (entries_tbl w) -> p r = true ->
             valid_status (entries.status (f r)) = true) ->
  valid_table (snd (exec_update p f w)).
Proof.
  intros HV Hf. unfold exec_update, bind.
  destruct (driver_cases w) as ([[]|e] & fs & ->); simpl; [|exact HV].
  unfold valid_table. simpl.
  apply (Forall_rewritten
           (fun r => valid_status (entries.status r) = true)); assumption.
Qed.

Lemma exec_update_keeps_status_valid (p : entries.row -> bool)
    (f : entries.row -> entries.row) (w : World) :
  valid_table w ->
  (forall r, entries.status (f r) = entries.status r) ->
  valid_table (snd (exec_update p f w)).
Proof.
  intros HV Hf. apply exec_update_valid; [exact HV|].
  intros r Hr _. rewrite Hf.
  exact (proj1 (Forall_forall _ _) HV r Hr).
Qed.

Lemma mark_read_valid (p : entries.row -> bool) (w : World) :
  valid_table w -> valid_table (snd (mark_read p w)).
Proof.
  intros HV. unfold mark_read, bind, get; simpl.
  apply exec_update_valid; [exact HV | reflexivity].
Qed.

Lemma refresh_entry_valid (userID feedID : Z) (update : bool) (c : Entry)
    (w : World) :
  valid_table w ->
  valid_table (snd (refresh_entry userID feedID update c w)).
Proof.
  intros HV.
  destruct (refresh_entry userID feedID update c w) as [[created|e] w']
    eqn:E; simpl.
  - apply refresh_entry_Ok in E. cbv zeta in E. unfold valid_table in *.
    set (entry := set_owner userID feedID c) in *.
    destruct (existsb (same_feed_hash entry) (entries_tbl w)).
    + destruct E as [_ E]. destruct update.
      * destruct E as [-> _].
        apply (Forall_rewritten
                 (fun r => valid_status (entries.status r) = true));
          [exact HV|].
        intros r Hr _. exact (proj1 (Forall_forall _ _) HV r Hr).
      * rewrite E. exact HV.
    + destruct E as (e' & id & t & _ & _ & -> & _).
      apply Forall_app. split; [exact HV|].
      constructor; [reflexivity | constructor].
  - apply refresh_entry_Err in E as (E & _). unfold valid_table.
    rewrite E. exact HV.
Qed.

Lemma RefreshFeedEntries_valid (userID feedID : Z) (update : bool)
    (entries : list Entry) (w : World) :
  valid_table w ->
  valid_table (snd (RefreshFeedEntries userID feedID entries update w)).
Proof.
  assert (L : forall newEntries entryHashes w0,
             valid_table w0 ->
             valid_table
               (snd (refresh_loop userID feedID update entries newEntries
                       entryHashes w0))).
  { induction entries as [|c cs IH]; intros newEntries entryHashes w0 HV;
      simpl; [exact HV|].
    unfold bind.
    pose proof (refresh_entry_valid userID feedID update c w0 HV) as K.
    destruct (refresh_entry userID feedID update c w0) as [[cr|e] w1];
      simpl in K; [|exact K].
    apply IH. exact K. }
  intros HV. specialize (L [] [] w HV).
  unfold RefreshFeedEntries, bind, go, modify, ret.
  destruct (refresh_loop userID feedID update entries [] [] w)
    as [[r|e] w1]; exact L.
Qed.

Lemma cleanupEntries_valid (feedID : Z) (entryHashes : list string)
    (w : World) :
  valid_table w -> valid_table (snd (cleanupEntries feedID entryHashes w)).
Proof.
  intros HV. unfold cleanupEntries.
  destruct (Z.of_nat (List.length entryHashes) =? 0); [exact HV|].
  rewrite bind_ret_snd, wrap_snd. unfold exec_delete, bind.
  destruct (driver_cases w) as ([[]|e] & fs & ->); simpl; [|exact HV].
  unfold valid_table. simpl. apply Forall_filter. exact HV.
Qed.

Lemma SetEntriesStatus_valid (userID : Z) (ids : list Z) (status : string)
    (w : World) :
  valid_table w -> valid_table (snd (SetEntriesStatus userID ids status w)).
Proof.
  intros HV. unfold SetEntriesStatus.
  destruct (Z.of_nat (List.length ids) =? 0); [exact HV|].
  rewrite bind_ret_snd, wrap_snd. unfold bind, get; simpl.
  unfold exec_update_status.
  destruct (valid_status status) eqn:Vs; simpl.
  - apply exec_update_valid; [exact HV|]. intros r _ _. exact Vs.
  - destruct (existsb _ (entries_tbl w)) eqn:Ex.
    + unfold bind, fail.
      destruct (driver_cases w) as ([[]|e] & fs & ->); exact HV.
    + apply exec_update_valid; [exact HV|]. intros r Hr Pr. exfalso.
      apply not_true_iff_false in Ex. apply Ex.
      apply existsb_exists. exists r. split; assumption.
Qed.

(** X6. The [CHECK] constraint on [status] is kept by the storage code:
    when every stored status is unread, read or removed, it is still so
    after a refresh, after the reaper, and after each bulk operation,
    whatever their arguments and outcome, a status supplied by the caller
    included. *)
Theorem statuses_stay_valid (w : World) :
  valid_table w ->
  (forall userID feedID entries update,
      valid_table (snd (RefreshFeedEntries userID feedID entries update w)))
  /\ (forall g, valid_table (snd (run_goroutine g w)))
  /\ (forall status days limit,
        valid_table (snd (ArchiveEntries status days limit w)))
  /\ (forall userID ids status,
        valid_table (snd (SetEntriesStatus userID ids status w)))
  /\ (forall userID ids starred,
        valid_table (snd (SetEntriesBookmarkedState userID ids starred w)))
  /\ (forall userID entryID,
        valid_table (snd (ToggleBookmark userID entryID w)))
  /\ (forall userID, valid_table (snd (FlushHistory userID w)))
  /\ (forall userID, valid_table (snd (MarkAllAsRead userID w)))
  /\ (forall userID before,
        valid_table (snd (MarkAllAsReadBeforeDate userID before w)))
  /\ (forall userID,
        valid_table (snd (MarkGloballyVisibleFeedsAsRead userID w)))
  /\ (forall userID feedID before,
        valid_table (snd (MarkFeedAsRead userID feedID before w)))
  /\ (forall userID categoryID before,
        valid_table (snd (MarkCategoryAsRead userID categoryID before w))).
Proof.
  intros HV. repeat split.
  - intros. apply RefreshFeedEntries_valid. exact HV.
  - intros g.
    pose proof (cleanupEntries_valid (go_feedID g) (go_entryHashes g) w HV)
      as K.
    unfold valid_table in *. rewrite run_goroutine_entries. exact K.
  - intros status days limit. unfold ArchiveEntries.
    destruct ((days <? 0) || (limit <=? 0)); [exact HV|].
    rewrite wrap_snd. unfold bind at 1 2, get; simpl.
    apply exec_update_valid; [exact HV | reflexivity].
  - intros. apply SetEntriesStatus_valid. exact HV.
  - intros userID ids starred. unfold SetEntriesBookmarkedState.
    destruct (Z.of_nat (List.length ids) =? 0); [exact HV|].
    unfold bind at 1.
    match goal with
    | |- context [wrap ?h ?m w] =>
        assert (F : valid_table (snd (wrap h m w)))
    end.
    { rewrite wrap_snd. unfold bind, get; simpl.
      apply exec_update_keeps_status_valid; [exact HV | reflexivity]. }
    match goal with
    | |- context [wrap ?h ?m w] => destruct (wrap h m w) as [[n|e] w1]
    end; simpl in *; [|exact F].
    destruct (n =? 0); exact F.
  - intros userID entryID. unfold ToggleBookmark, bind at 1.
    match goal with
    | |- context [wrap ?h ?m w] =>
        assert (F : valid_table (snd (wrap h m w)))
    end.
    { rewrite wrap_snd. unfold bind, get; simpl.
      apply exec_update_keeps_status_valid; [exact HV | reflexivity]. }
    match goal with
    | |- context [wrap ?h ?m w] => destruct (wrap h m w) as [[n|e] w1]
    end; simpl in *; [|exact F].
    destruct (n =? 0); exact F.
  - intros userID. unfold FlushHistory. rewrite bind_ret_snd, wrap_snd.
    unfold bind, get; simpl.
    apply exec_update_valid; [exact HV | reflexivity].
  - intros userID. unfold MarkAllAsRead. rewrite bind_ret_snd, wrap_snd.
    apply mark_read_valid. exact HV.
  - intros userID before. unfold MarkAllAsReadBeforeDate.
    rewrite bind_ret_snd, wrap_snd. apply mark_read_valid. exact HV.
  - intros userID. unfold MarkGloballyVisibleFeedsAsRead.
    rewrite bind_ret_snd, wrap_snd. unfold bind at 1, get.
    apply mark_read_valid. exact HV.
  - intros userID feedID before. unfold MarkFeedAsRead.
    rewrite bind_ret_snd, wrap_snd. apply mark_read_valid. exact HV.
  - intros userID categoryID before. unfold MarkCategoryAsRead.
    rewrite bind_ret_snd, wrap_snd. unfold bind at 1, get.
    apply mark_read_valid. exact HV.
Qed.

(** ** Ordered selections *)

Section Sorting.

Variable A : Type.
Variable le : A -> A -> bool.
Hypothesis le_total : forall a b, le a b = true \/ le b a = true.
Hypothesis le_trans :
  forall a b c, le a b = true -> le b c = true -> le a c = true.

Lemma insert_by_sorted (x : A) (l : list A) :
  StronglySorted (fun a b => le a b = true) l ->
  StronglySorted (fun a b => le a b = true) (insert_by le x l).
Proof.
  induction 1 as [|y l Hs IH Hy]; simpl.
  - constructor; constructor.
  - destruct (le x y) eqn:Exy.
    + constructor; [constructor; assumption|].
      constructor; [exact Exy|].
      apply Forall_forall. intros z Hz.
      eapply le_trans; [exact Exy|].
      exact (proj1 (Forall_forall _ _) Hy z Hz).
    + constructor; [exact IH|].
      apply Forall_forall. intros z Hz. apply insert_by_In in Hz.
      destruct Hz as [->|Hz].
      * destruct (le_total y x) as [H|H]; [exact H | congruence].
      * exact (proj1 (Forall_forall _ _) Hy z Hz).
Qed.

Lemma order_by_sorted (l : list A) :
  StronglySorted (fun a b => le a b = true) (order_by le l).
Proof.
  induction l as [|x l IH]; simpl; [constructor|].
  apply insert_by_sorted. exact IH.
Qed.

Lemma sorted_split (l : list A) :
  StronglySorted (fun a b => le a b = true) l ->
  forall k a b, In a (firstn k l) -> In b (skipn k l) -> le a b = true.
Proof.
  induction 1 as [|y l Hs IH Hy]; intros k a b Ha Hb.
  - destruct k; destruct Ha.
  - destruct k as [|k]; simpl in *; [destruct Ha|].
    destruct Ha as [<-|Ha].
    + apply (proj1 (Forall_forall _ _) Hy).
      rewrite <- (firstn_skipn k l). apply in_or_app. right. exact Hb.
    + eapply IH; eassumption.
Qed.

Lemma insert_by_NoDup (x : A) (l : list A) :
  NoDup l -> ~ In x l -> NoDup (insert_by le x l).
Proof.
  induction l as [|y l IH]; simpl; intros ND Hx.
  - constructor; [tauto | constructor].
  - destruct (le x y).
    + constructor; [simpl; tauto | exact ND].
    + inversion ND as [|? ? Hy ND']; subst. constructor.
      * rewrite insert_by_In. intros [->|H]; tauto.
      * apply IH; tauto.
Qed.

Lemma order_by_NoDup (l : list A) : NoDup l -> NoDup (order_by le l).
Proof.
  induction 1 as [|x l Hx ND IH]; simpl; [constructor|].
  apply insert_by_NoDup; [exact IH|]. rewrite order_by_In. exact Hx.
Qed.

End Sorting.

Lemma limit_rows_NoDup {A : Type} (n : Z) (l : list A) :
  NoDup l -> NoDup (limit_rows n l).
Proof.
  unfold limit_rows. generalize (Z.to_nat n) as k.
  induction l as [|a l IH]; intros k ND; destruct k; simpl;
    try constructor.
  - inversion ND as [|? ? Ha _]; subst. intros H. apply Ha.
    exact (limit_rows_In (Z.of_nat k) a l
             ltac:(unfold limit_rows; rewrite Nat2Z.id; exact H)).
  - inversion ND; subst. apply IH. assumption.
Qed.

Lemma rewritten_where_in {A : Type} (P : A -> Prop) (p : A -> bool)
    (f : A -> A) (l : list A) :
  (forall a, In a l -> (p a = true <-> P a)) ->
  Forall2 (fun a a' => (P a -> a' = f a) /\ (~ P a -> a' = a))
          l (map (fun a => if p a then f a else a) l).
Proof.
  intros Hp. apply Forall2_rewritten. intros a Ha.
  destruct (p a) eqn:E.
  - split; [reflexivity|]. intros N. exfalso. apply N, (Hp a Ha), E.
  - split; [|reflexivity]. intros Pa. apply (Hp a Ha) in Pa. congruence.
Qed.

(** ** Archival *)

Lemma archivable_iff (status : string) (days : Z) (w : World)
    (r : entries.row) :
  archivable status days (clock w) r = true
  <-> archivable_row status days w r.
Proof.
  unfold archivable, archivable_row.
  rewrite !andb_true_iff, Z.eqb_eq, !String.eqb_eq, Z.ltb_lt. tauto.
Qed.

Lemma created_at_asc_total (a b : entries.row) :
  created_at_asc a b = true \/ created_at_asc b a = true.
Proof. unfold created_at_asc. rewrite !Z.leb_le. lia. Qed.

Lemma created_at_asc_trans (a b c : entries.row) :
  created_at_asc a b = true -> created_at_asc b c = true ->
  created_at_asc a c = true.
Proof. unfold created_at_asc. rewrite !Z.leb_le. lia. Qed.

(** X7. What [ArchiveEntries] picks: in a table keyed by [id], a call
    that returns a count has selected that many rows, at most [limit] of
    them; every selected row had the given status, was neither starred nor
    shared and was created before the cutoff; no row left out that
    qualified is older than a selected one; when fewer than [limit] rows
    are selected, every qualifying row is; the selected rows become
    removed, nothing else of them changes (their change date included), and
    all other rows are as they were. *)
Theorem ArchiveEntries_selection (status : string) (days limit : Z)
    (w w' : World) (n : Z) :
  NoDup (map entries.id (entries_tbl w)) ->
  ArchiveEntries status days limit w = (Ok n, w') ->
  exists selected,
    n = Z.of_nat (List.length selected)
    /\ n <= Z.max 0 limit
    /\ (forall r, In r selected ->
          In r (entries_tbl w) /\ archivable_row status days w r)
    /\ (forall r r2, In r selected -> In r2 (entries_tbl w) ->
          archivable_row status days w r2 -> ~ In r2 selected ->
          entries.created_at r <= entries.created_at r2)
    /\ (n < limit -> 0 <= days ->
        forall r, In r (entries_tbl w) -> archivable_row status days w r ->
                  In r selected)
    /\ Forall2
         (fun r r' =>
            (In r selected -> r' = set_status EntryStatusRemoved r)
            /\ (~ In r selected -> r' = r))
         (entries_tbl w) (entries_tbl w').
Proof.
  intros ND H. unfold ArchiveEntries in H.
  destruct ((days <? 0) || (limit <=? 0)) eqn:G.
  { injection H as <- <-. exists []. simpl.
    split; [reflexivity|]. split; [lia|].
    split; [intros r []|]. split; [intros r r2 []|]. split.
    - intros Hl Hd. apply orb_true_iff in G as [G|G].
      + apply Z.ltb_lt in G. lia.
      + apply Z.leb_le in G. lia.
    - apply Forall2_same. intros r. split; [contradiction | reflexivity]. }
  apply orb_false_iff in G as [Gd Gl].
  apply Z.ltb_ge in Gd. apply Z.leb_gt in Gl.
  apply wrap_Ok in H. unfold bind at 1 2, get in H.
  set (sorted := order_by created_at_asc
                   (filter (archivable status days (clock w))
                           (entries_tbl w))) in H.
  set (selected := limit_rows limit sorted) in H.
  unfold exec_update in H. apply bind_Ok in H as ([] & w0 & Hd & H).
  apply driver_inv in Hd as (fs & ->). injection H as <- <-. simpl.
  assert (NDt : NoDup (entries_tbl w)) by (eapply NoDup_map_inv; exact ND).
  assert (Hsel : forall r, In r selected ->
                   In r (entries_tbl w) /\ archivable_row status days w r).
  { intros r Hr. apply limit_rows_In, order_by_In, filter_In in Hr.
    destruct Hr as [Hr Ha]. split; [exact Hr | apply archivable_iff, Ha]. }
  assert (Hid : forall r, In r (entries_tbl w) ->
                  (id_in (map entries.id selected) r = true
                   <-> In r selected)).
  { intros r Hr. rewrite id_in_true, in_map_iff. split.
    - intros (r' & E & Hr').
      assert (r' = r); [|subst; exact Hr'].
      eapply same_id_same_row; eauto. apply Hsel. exact Hr'.
    - intros Hs. exists r. split; [reflexivity | exact Hs]. }
  assert (NDs : NoDup selected).
  { apply limit_rows_NoDup, order_by_NoDup, NoDup_filter. exact NDt. }
  assert (Hlen : List.length
                   (filter (id_in (map entries.id selected)) (entries_tbl w))
                 = List.length selected).
  { apply Nat.le_antisymm; apply NoDup_incl_length.
    - apply NoDup_filter. exact NDt.
    - intros r Hr. apply filter_In in Hr as [Hr Hi].
      apply (Hid r Hr). exact Hi.
    - exact NDs.
    - intros r Hr. apply filter_In.
      split; [apply Hsel; exact Hr | apply Hid; [apply Hsel|]; exact Hr]. }
  exists selected. rewrite Hlen.
  split; [reflexivity|]. split; [|split; [exact Hsel|split; [|split]]].
  - pose proof (firstn_le_length (Z.to_nat limit) sorted) as L.
    unfold selected, limit_rows. lia.
  - intros r r2 Hr Hr2 Ha2 Hn2.
    assert (In r2 sorted) as Hs2.
    { apply order_by_In, filter_In.
      split; [exact Hr2 | apply archivable_iff; exact Ha2]. }
    unfold selected, limit_rows in Hr, Hn2.
    rewrite <- (firstn_skipn (Z.to_nat limit) sorted) in Hs2.
    apply in_app_or in Hs2 as [Hs2|Hs2]; [contradiction|].
    apply Z.leb_le.
    eapply (sorted_split _ created_at_asc); [|exact Hr|exact Hs2].
    apply order_by_sorted;
      [apply created_at_asc_total | apply created_at_asc_trans].
  - intros Hn _ r Hr Ha.
    assert (selected = sorted) as ->.
    { unfold selected, limit_rows. apply firstn_all2.
      pose proof (firstn_le_length (Z.to_nat limit) sorted) as L.
      destruct (Nat.le_gt_cases (List.length sorted) (Z.to_nat limit))
        as [Hle|Hgt]; [exact Hle|].
      exfalso. unfold selected, limit_rows in Hn.
      rewrite length_firstn, Nat.min_l in Hn by lia. lia. }
    apply order_by_In, filter_In.
    split; [exact Hr | apply archivable_iff; exact Ha].
  - apply (rewritten_where_in (fun r => In r selected)). exact Hid.
Qed.

(** ** Flushing the history *)

Lemma FlushHistory_healthy (userID : Z) (w : World) :
  healthy w ->
  FlushHistory userID w
  = (Ok tt,
     set_entries
       (map (fun r =>
               if (entries.user_id r =? userID)
                  && (entries.status r =? EntryStatusRead)%string
                  && (entries.starred r =? 0)
                  && (entries.share_code r =? EmptyString)%string
               then set_changed_at (clock w)
                      (set_status EntryStatusRemoved r)
               else r) (entries_tbl w)) w).
Proof.
  intros Hw. unfold FlushHistory, bind, wrap, get.
  rewrite (exec_update_healthy _ _ w Hw). reflexivity.
Qed.

Lemma flushable_iff (userID : Z) (r : entries.row) :
  (entries.user_id r =? userID)
  && (entries.status r =? EntryStatusRead)%string
  && (entries.starred r =? 0)
  && (entries.share_code r =? EmptyString)%string = true
  <-> flushable userID r.
Proof.
  unfold flushable.
  rewrite !andb_true_iff, !Z.eqb_eq, !String.eqb_eq. tauto.
Qed.

(** X8. [FlushHistory] with a driver that answers succeeds, leaves the
    user no entry that is read, not starred and not shared, and run again
    at once it changes nothing at all. *)
Theorem FlushHistory_settles (userID : Z) (w : World) :
  healthy w ->
  fst (FlushHistory userID w) = Ok tt
  /\ (forall r, In r (entries_tbl (snd (FlushHistory userID w))) ->
                ~ flushable userID r)
  /\ FlushHistory userID (snd (FlushHistory userID w))
     = (Ok tt, snd (FlushHistory userID w)).
Proof.
  intros Hw. rewrite (FlushHistory_healthy userID w Hw). simpl.
  set (p := fun r => (entries.user_id r =? userID)
                     && (entries.status r =? EntryStatusRead)%string
                     && (entries.starred r =? 0)
                     && (entries.share_code r =? EmptyString)%string).
  set (f := fun r => set_changed_at (clock w)
                       (set_status EntryStatusRemoved r)).
  assert (Hnone : forall r,
             In r (map (fun r => if p r then f r else r) (entries_tbl w)) ->
             p r = false).
  { intros r Hr. apply in_map_iff in Hr as (r0 & <- & _).
    destruct (p r0) eqn:E; [|exact E].
    unfold p, f. simpl. rewrite andb_false_r. reflexivity. }
  split; [reflexivity|]. split.
  - intros r Hr F. apply (flushable_iff userID r) in F.
    specialize (Hnone r Hr). unfold p in Hnone. congruence.
  - rewrite FlushHistory_healthy by exact Hw. f_equal. simpl.
    match goal with
    | |- set_entries (map ?g ?l) _ = _ => assert (E : map g l = l)
    end.
    { exact (proj2 (nothing_matches p f _ Hnone)). }
    rewrite E. destruct w; reflexivity.
Qed.

(** ** Marking as read *)





(** ** Bookmarks *)

Lemma Forall2_mapped {A : Type} (R : A -> A -> Prop) (h : A -> A)
    (l : list A) :
  (forall a, R a (h a)) -> Forall2 R l (map h l).
Proof. intros H. induction l; simpl; constructor; auto. Qed.

Lemma ToggleBookmark_snd (userID entryID : Z) (w : World) :
  healthy w ->
  snd (ToggleBookmark userID entryID w)
  = set_entries
      (map (fun r =>
              if (entries.user_id r =? userID) && (entries.id r =? entryID)
              then set_changed_at (clock w)
                     (set_starred
                        (if entries.starred r =? 1 then 0 else 1) r)
              else r) (entries_tbl w)) w.
Proof.
  intros Hw. unfold ToggleBookmark, bind at 1, wrap, bind at 1, get.
  rewrite (exec_update_healthy _ _ w Hw). simpl.
  destruct (_ =? 0); reflexivity.
Qed.

(** X10. Toggling a bookmark twice, with a driver that answers and no
    time passing: the addressed entry, when its flag is 0 or 1, is back as
    it was except for its change date, which is the clock's time; every
    other entry is as it was. *)
Theorem ToggleBookmark_twice (userID entryID : Z) (w : World) :
  healthy w ->
  Forall2
    (fun r r'' =>
       (toggled userID entryID r ->
        entries.starred r = 0 \/ entries.starred r = 1 ->
        r'' = set_changed_at (clock w) r)
       /\ (~ toggled userID entryID r -> r'' = r))
    (entries_tbl w)
    (entries_tbl
       (snd (ToggleBookmark userID entryID
               (snd (ToggleBookmark userID entryID w))))).
Proof.
  intros Hw. rewrite (ToggleBookmark_snd userID entryID w Hw).
  rewrite ToggleBookmark_snd by exact Hw. simpl. rewrite map_map.
  apply Forall2_mapped. intros r.
  destruct ((entries.user_id r =? userID) && (entries.id r =? entryID))
    eqn:P.
  - simpl. rewrite P. split.
    + intros _ [S|S]; destruct r; simpl in *; subst; reflexivity.
    + intros N. exfalso. apply N.
      apply andb_true_iff in P as [P1 P2].
      apply Z.eqb_eq in P1, P2. split; assumption.
  - rewrite P. split; [|reflexivity].
    intros [T1 T2]. apply Z.eqb_eq in T1, T2. rewrite T1, T2 in P.
    discriminate P.
Qed.

(** X11. [SetEntriesBookmarkedState] with a driver that answers.  An
    empty list of ids is a success that changes nothing; a list that
    addresses no entry of the user is the error [store: nothing has been
    updated], the world staying as it was; a list that addresses an entry
    is a success that gives each addressed entry the flag (1 or 0) and the
    clock's time as change date and leaves every other entry alone. *)
Theorem SetEntriesBookmarkedState_outcomes (userID : Z) (ids : list Z)
    (starred : bool) (w : World) :
  healthy w ->
  (ids = [] -> SetEntriesBookmarkedState userID ids starred w = (Ok tt, w))
  /\ (ids <> [] ->
      (forall r, In r (entries_tbl w) -> ~ addressed userID ids r) ->
      SetEntriesBookmarkedState userID ids starred w
      = (Err (ErrorsNew "store: nothing has been updated"), w))
  /\ ((exists r, In r (entries_tbl w) /\ addressed userID ids r) ->
      fst (SetEntriesBookmarkedState userID ids starred w) = Ok tt
      /\ Forall2
           (fun r r' =>
              (addressed userID ids r ->
               r' = set_changed_at (clock w)
                      (set_starred (if starred then 1 else 0) r))
              /\ (~ addressed userID ids r -> r' = r))
           (entries_tbl w)
           (entries_tbl
              (snd (SetEntriesBookmarkedState userID ids starred w)))).
Proof.
  intros Hw. split; [intros ->; reflexivity|].
  set (p := fun r => (entries.user_id r =? userID) && id_in ids r).
  set (f := fun r => set_changed_at (clock w)
                       (set_starred (if starred then 1 else 0) r)).
  assert (Hp : forall r, p r = true <-> addressed userID ids r)
    by (intros r; apply addressed_iff).
  assert (Hrun : ids <> [] ->
            SetEntriesBookmarkedState userID ids starred w
            = if Z.of_nat (List.length (filter p (entries_tbl w))) =? 0
              then (Err NothingUpdated,
                    set_entries
                      (map (fun r => if p r then f r else r)
                           (entries_tbl w)) w)
              else (Ok tt,
                    set_entries
                      (map (fun r => if p r then f r else r)
                           (entries_tbl w)) w)).
  { intros Hne. unfold SetEntriesBookmarkedState.
    replace (Z.of_nat (List.length ids) =? 0) with false
      by (symmetry; apply Z.eqb_neq; destruct ids;
          [contradiction | simpl; lia]).
    unfold bind at 1. unfold wrap, bind at 1, get.
    rewrite (exec_update_healthy _ _ w Hw). fold p. simpl.
    destruct (_ =? 0); reflexivity. }
  split.
  - intros Hne Hnone. rewrite (Hrun Hne).
    destruct (nothing_matches p f (entries_tbl w)) as [N1 N2].
    { intros r Hr. apply not_true_iff_false. intros Pr.
      apply (Hnone r Hr), Hp, Pr. }
    rewrite N1, N2. simpl. rewrite set_entries_same. reflexivity.
  - intros (r & Hr & Ha).
    assert (Hne : ids <> []) by (intros ->; destruct Ha as [_ []]).
    rewrite (Hrun Hne).
    rewrite (something_matches p (entries_tbl w) r Hr (proj2 (Hp r) Ha)).
    simpl. split; [reflexivity|].
    apply (rewritten_where (addressed userID ids) p). exact Hp.
Qed.

(** ** Looking up what a refresh stored *)

Lemma healthy_set_goroutines (gs : list Goroutine) (w : World) :
  healthy (set_goroutines gs w) <-> healthy w.
Proof. reflexivity. Qed.

(** X12. [IsNewEntry] after a refresh: once [RefreshFeedEntries] has
    succeeded, every candidate of the call is reported as not new by a
    driver that answers, in any world that holds the table the refresh
    left.  When the query fails the error is dropped and the entry is
    reported as new, stored or not. *)
Theorem IsNewEntry_after_refresh (userID feedID : Z) (update : bool)
    (entries : list Entry) (w w' : World) (newEntries : list Entry) :
  RefreshFeedEntries userID feedID entries update w = (Ok newEntries, w') ->
  (forall c w2, In c entries -> entries_tbl w2 = entries_tbl w' ->
                healthy w2 ->
                IsNewEntry feedID (Hash c) w2 = (Ok false, w2))
  /\ (forall h w2 msg fs, faults w2 = Some msg :: fs ->
                          fst (IsNewEntry feedID h w2) = Ok true).
Proof.
  intros H. split.
  - intros c w2 Hc Et Hw2.
    destruct (RefreshFeedEntries_stores _ _ _ _ _ _ _ H c Hc)
      as (r & Hr & Hf & Hh).
    unfold IsNewEntry. rewrite (driver_healthy w2 Hw2).
    replace (existsb _ (entries_tbl w2)) with true; [reflexivity|].
    symmetry. apply existsb_exists. exists r. rewrite Et.
    split; [exact Hr|].
    rewrite Hf, Hh, Z.eqb_refl, String.eqb_refl. reflexivity.
  - intros h w2 msg fs Hf. unfold IsNewEntry, driver. rewrite Hf.
    reflexivity.
Qed.

Lemma find_app_none {A : Type} (p : A -> bool) (l : list A) (a : A) :
  existsb p l = false -> p a = true -> find p (l ++ [a]) = Some a.
Proof.
  induction l as [|b l IH]; simpl; intros Ex Pa.
  - rewrite Pa. reflexivity.
  - apply orb_false_iff in Ex as [-> Ex]. apply IH; assumption.
Qed.

(** X13. [GetReadTime] after a refresh that updates: in a table where
    [(feed_id, hash)] is a key, once [RefreshFeedEntries] with
    [updateExisting=true] has succeeded on a candidate, a driver that
    answers gives the candidate's reading time for its feed and hash. *)
Theorem GetReadTime_after_refresh (userID feedID : Z) (c : Entry)
    (w w' : World) (newEntries : list Entry) :
  NoDup (map feed_hash (entries_tbl w)) ->
  RefreshFeedEntries userID feedID [c] true w = (Ok newEntries, w') ->
  healthy w' ->
  GetReadTime feedID (Hash c) w' = (Ok (ReadingTime c), w').
Proof.
  intros ND H Hw'. rewrite refresh_single in H.
  destruct (refresh_entry userID feedID true c w) as [[cr|e] w1] eqn:E;
    [|discriminate].
  injection H as _ <-.
  assert (Hw1 : healthy w1) by exact Hw'.
  apply refresh_entry_Ok in E. cbv zeta in E.
  set (entry := set_owner userID feedID c) in *.
  set (p := fun r => (entries.feed_id r =? feedID)
                     && (entries.hash r =? Hash c)%string).
  assert (Hfind : exists r, find p (entries_tbl w1) = Some r
                            /\ entries.reading_time r = ReadingTime c).
  { destruct (existsb (same_feed_hash entry) (entries_tbl w)) eqn:Ex.
    - destruct E as (_ & Et & Eu). rewrite Et.
      apply existsb_exists in Eu as (r0 & Hr0 & P0).
      set (g := fun r => if same_user_feed_hash entry r
                         then refreshed entry r else r).
      destruct (find p (map g (entries_tbl w))) as [r1|] eqn:F.
      + exists r1. split; [reflexivity|].
        apply find_some in F as [Hr1 P1].
        apply in_map_iff in Hr1 as (r2 & <- & Hr2).
        assert (feed_hash r2 = feed_hash r0) as K.
        { apply targeted_iff in P0. destruct P0 as (_ & F0 & H0).
          unfold p in P1. apply andb_true_iff in P1 as [F1 H1].
          apply Z.eqb_eq in F1. apply String.eqb_eq in H1.
          unfold feed_hash.
          assert (entries.feed_id (g r2) = entries.feed_id r2
                  /\ entries.hash (g r2) = entries.hash r2) as [G1 G2]
            by (unfold g; destruct (same_user_feed_hash entry r2);
                split; reflexivity).
          rewrite <- G1, <- G2, F1, H1, F0, H0. reflexivity. }
        assert (r2 = r0) as ->.
        { clear - ND Hr2 Hr0 K. induction (entries_tbl w) as [|a l IH];
            [contradiction|].
          simpl in ND. inversion ND as [|? ? Ha ND']; subst.
          destruct Hr2 as [->|Hr2], Hr0 as [->|Hr0]; auto.
          - exfalso. apply Ha. rewrite K. apply in_map. exact Hr0.
          - exfalso. apply Ha. rewrite <- K. apply in_map. exact Hr2. }
        unfold g. rewrite P0. reflexivity.
      + exfalso. eapply find_none in F;
          [|apply (in_map g); exact Hr0].
        unfold g in F. rewrite P0 in F.
        apply targeted_iff in P0. destruct P0 as (_ & F0 & H0).
        unfold p in F. simpl in F.
        rewrite F0, H0, Z.eqb_refl, String.eqb_refl in F. discriminate F.
    - destruct E as (e' & id & t & _ & _ & -> & _).
      exists (created_row id t entry). split; [|reflexivity].
      apply find_app_none; [exact Ex|].
      unfold p. simpl. rewrite Z.eqb_refl, String.eqb_refl. reflexivity. }
  destruct Hfind as (r & F & R).
  unfold GetReadTime, query_row, bind.
  rewrite (driver_healthy _ Hw'). cbv beta.
  change (entries_tbl
            (set_goroutines
               (goroutines w1 ++ [mkGoroutine userID feedID [Hash c]]) w1))
    with (entries_tbl w1).
  fold p. rewrite F, R. reflexivity.
Qed.

(** ** Share codes *)

Lemma owned_entry_iff (userID entryID : Z) (r : entries.row) :
  (entries.user_id r =? userID) && (entries.id r =? entryID) = true
  <-> owned_entry userID entryID r.
Proof.
  unfold owned_entry. rewrite andb_true_iff, !Z.eqb_eq. tauto.
Qed.

Lemma find_owned (userID entryID : Z) (l : list entries.row)
    (r : entries.row) :
  NoDup (map entries.id l) -> In r l -> owned_entry userID entryID r ->
  find (fun r => (entries.user_id r =? userID) && (entries.id r =? entryID))
       l = Some r.
Proof.
  intros ND Hr Ho.
  destruct (find _ l) as [r'|] eqn:F.
  - apply find_some in F as [Hr' P']. apply owned_entry_iff in P'.
    f_equal. eapply same_id_same_row; eauto.
    destruct Ho as [_ ->]. destruct P' as [_ ->]. reflexivity.
  - eapply find_none in F; [|exact Hr].
    apply owned_entry_iff in Ho. congruence.
Qed.

Lemma at_most_one_owned (userID entryID : Z) (l : list entries.row) :
  NoDup (map entries.id l) ->
  (1 <? Z.of_nat
          (List.length
             (filter (fun r => (entries.user_id r =? userID)
                               && (entries.id r =? entryID)) l))) = false.
Proof.
  intros ND. apply Z.ltb_ge.
  set (p := fun r => (entries.user_id r =? userID)
                     && (entries.id r =? entryID)).
  assert (List.length (filter p l) <= 1)%nat; [|lia].
  induction l as [|a l IH]; simpl; [lia|].
  inversion ND as [|? ? Ha ND']; subst.
  destruct (p a) eqn:Pa; [|apply IH; exact ND'].
  assert (Hnone : forall b, In b l -> p b = false).
  { intros b Hb. apply not_true_iff_false. intros Pb.
    apply owned_entry_iff in Pa, Pb. apply Ha.
    destruct Pa as [_ ->]. destruct Pb as [_ <-]. apply in_map. exact Hb. }
  simpl. rewrite (proj1 (nothing_matches p (fun r => r) l Hnone)).
  simpl. lia.
Qed.

(** X14. [EntryShareCode] with a driver that answers, in a table keyed
    by [id], [generated] being the code the generator would return.  An
    entry that is unknown or belongs to another user is an error and
    nothing changes.  An entry that has a share code gets that code back
    and nothing changes.  An entry without one gets the generated code
    stored and returned, every other entry staying as it was, unless
    another entry already carries that code, which is an error that changes
    nothing. *)
Theorem EntryShareCode_outcomes (generated : string) (userID entryID : Z)
    (w : World) :
  healthy w ->
  NoDup (map entries.id (entries_tbl w)) ->
  ((forall r, In r (entries_tbl w) -> ~ owned_entry userID entryID r) ->
   EntryShareCode generated userID entryID w
   = (Err (Errorf "store: unable to get share code for entry" ErrNoRows), w))
  /\ (forall r, In r (entries_tbl w) -> owned_entry userID entryID r ->
        (entries.share_code r <> EmptyString ->
         EntryShareCode generated userID entryID w
         = (Ok (entries.share_code r), w))
        /\ (entries.share_code r = EmptyString ->
            generated <> EmptyString ->
            (exists r2, In r2 (entries_tbl w)
                        /\ entries.share_code r2 = generated) ->
            EntryShareCode generated userID entryID w
            = (Err (Errorf "store: unable to set share code for entry"
                      (DriverError
                         "UNIQUE constraint failed: entries.share_code")),
               w))
        /\ (entries.share_code r = EmptyString ->
            generated <> EmptyString ->
            (forall r2, In r2 (entries_tbl w) ->
                        entries.share_code r2 <> generated) ->
            fst (EntryShareCode generated userID entryID w) = Ok generated
            /\ Forall2
                 (fun r r' =>
                    (owned_entry userID entryID r ->
                     r' = set_share_code generated r)
                    /\ (~ owned_entry userID entryID r -> r' = r))
                 (entries_tbl w)
                 (entries_tbl
                    (snd (EntryShareCode generated userID entryID w))))).
Proof.
  intros Hw ND.
  set (p := fun r => (entries.user_id r =? userID)
                     && (entries.id r =? entryID)).
  assert (Hp : forall r, p r = true <-> owned_entry userID entryID r)
    by (intros r; apply owned_entry_iff).
  assert (HQ : forall A (col : entries.row -> A),
             query_row p col w
             = match find p (entries_tbl w) with
               | Some r => (Ok (col r), w)
               | None => (Err ErrNoRows, w)
               end).
  { intros A col. unfold query_row, bind.
    rewrite (driver_healthy w Hw). reflexivity. }
  split.
  - intros Hnone. unfold EntryShareCode, bind, wrap. fold p.
    rewrite HQ.
    replace (find p (entries_tbl w)) with (@None entries.row);
      [reflexivity|].
    symmetry. destruct (find p (entries_tbl w)) as [r|] eqn:F;
      [|reflexivity].
    apply find_some in F as [Hr Pr]. exfalso.
    apply (Hnone r Hr), Hp, Pr.
  - intros r Hr Ho.
    assert (F : find p (entries_tbl w) = Some r)
      by (apply find_owned; assumption).
    split; [|split].
    + intros Hs. unfold EntryShareCode, bind at 1, wrap at 1. fold p.
      rewrite HQ, F. apply String.eqb_neq in Hs. rewrite Hs. reflexivity.
    + intros Hs Hg (r2 & Hr2 & Hc2).
      unfold EntryShareCode, bind at 1, wrap at 1. fold p.
      rewrite HQ, F, Hs. simpl.
      unfold bind, wrap, exec_update_share_code. fold p.
      apply String.eqb_neq in Hg. rewrite Hg.
      replace (existsb
                 (fun r => negb (p r)
                           && (entries.share_code r =? generated)%string)
                 (entries_tbl w)) with true.
      * simpl. unfold bind, fail. rewrite (driver_healthy w Hw).
        reflexivity.
      * symmetry. apply existsb_exists. exists r2. split; [exact Hr2|].
        rewrite Hc2, String.eqb_refl, andb_true_r.
        apply negb_true_iff, not_true_iff_false. intros P2.
        apply Hp in P2.
        assert (r2 = r).
        { eapply same_id_same_row; eauto.
          destruct Ho as [_ ->]. destruct P2 as [_ ->]. reflexivity. }
        subst r2. apply String.eqb_neq in Hg. congruence.
    + intros Hs Hg Hfree.
      assert (Hrun : EntryShareCode generated userID entryID w
                     = (Ok generated,
                        set_entries
                          (map (fun r => if p r
                                         then set_share_code generated r
                                         else r) (entries_tbl w)) w)).
      { unfold EntryShareCode, bind at 1, wrap at 1. fold p.
        rewrite HQ, F, Hs. simpl.
        unfold bind, wrap, exec_update_share_code. fold p.
        replace (existsb
                   (fun r => negb (p r)
                             && (entries.share_code r =? generated)%string)
                   (entries_tbl w)) with false.
        - unfold p at 1. rewrite (at_most_one_owned _ _ _ ND).
          rewrite andb_false_r.
          rewrite (exec_update_healthy _ _ w Hw). reflexivity.
        - symmetry. apply not_true_iff_false. intros Ex.
          apply existsb_exists in Ex as (r2 & Hr2 & P2).
          apply andb_true_iff in P2 as [_ P2].
          apply String.eqb_eq in P2. exact (Hfree r2 Hr2 P2). }
      rewrite Hrun. simpl. split; [reflexivity|].
      apply (rewritten_where (owned_entry userID entryID) p). exact Hp.
Qed.

Lemma find_rewritten (p : entries.row -> bool)
    (f : entries.row -> entries.row) (l : list entries.row) :
  (forall r, p (f r) = p r) ->
  find p (map (fun r => if p r then f r else r) l)
  = option_map f (find p l).
Proof.
  intros Hf. induction l as [|a l IH]; simpl; [reflexivity|].
  destruct (p a) eqn:Pa.
  - rewrite Hf, Pa. reflexivity.
  - rewrite Pa. exact IH.
Qed.

(** X15. A share code is stable: once [EntryShareCode] has returned a
    code that is not empty, calling it again with a driver that answers
    returns the same code, whatever the generator would produce, and
    changes nothing. *)
Theorem EntryShareCode_stable (generated generated' : string)
    (userID entryID : Z) (w w1 : World) (code : string) :
  EntryShareCode generated userID entryID w = (Ok code, w1) ->
  code <> EmptyString ->
  healthy w1 ->
  EntryShareCode generated' userID entryID w1 = (Ok code, w1).
Proof.
  intros H Hcode Hw1.
  set (p := fun r => (entries.user_id r =? userID)
                     && (entries.id r =? entryID)).
  assert (Hfound : exists r, find p (entries_tbl w1) = Some r
                             /\ entries.share_code r = code).
  { unfold EntryShareCode in H. fold p in H.
    apply bind_Ok in H as (sc & w0 & Hq & H). apply wrap_Ok in Hq.
    unfold query_row in Hq. apply bind_Ok in Hq as ([] & w2 & Hd & Hq).
    apply driver_inv in Hd as (fs & ->). simpl in Hq.
    destruct (find p (entries_tbl w)) as [r0|] eqn:F; [|discriminate].
    injection Hq as <- <-.
    destruct (entries.share_code r0 =? EmptyString)%string eqn:Es.
    - apply bind_Ok in H as (n & w3 & Hu & H). injection H as <- <-.
      apply wrap_Ok in Hu. unfold exec_update_share_code in Hu.
      destruct (negb (generated =? EmptyString)%string && _) in Hu.
      + unfold bind, fail in Hu.
        destruct (driver (set_faults fs w)) as [[[]|e] w4]; discriminate.
      + unfold exec_update in Hu. apply bind_Ok in Hu as ([] & w4 & Hd & Hu).
        apply driver_inv in Hd as (fs' & ->). injection Hu as _ <-.
        simpl. rewrite find_rewritten by reflexivity. rewrite F. simpl.
        eexists. split; reflexivity.
    - injection H as <- <-. simpl. exists r0. split; [exact F | reflexivity]. }
  destruct Hfound as (r & F & Hc).
  unfold EntryShareCode, bind at 1, wrap at 1, query_row, bind at 1.
  rewrite (driver_healthy w1 Hw1). fold p. rewrite F, Hc.
  apply String.eqb_neq in Hcode. rewrite Hcode. reflexivity.
Qed.

Lemma unshared_again (p : entries.row -> bool) (code : string)
    (l : list entries.row) :
  (forall r, In r l -> p r = true -> entries.share_code r = EmptyString) ->
  (forall r, p (set_share_code code r) = p r) ->
  map (fun r => if p r then set_share_code EmptyString r else r)
      (map (fun r => if p r then set_share_code code r else r) l)
  = l.
Proof.
  intros He Hk. induction l as [|a l IH]; simpl; [reflexivity|].
  rewrite IH by (intros r Hr; apply He; right; exact Hr). f_equal.
  destruct (p a) eqn:Pa.
  - rewrite Hk, Pa.
    pose proof (He a (or_introl eq_refl) Pa) as E.
    destruct a; simpl in *; subst; reflexivity.
  - rewrite Pa. reflexivity.
Qed.

(** X16. Sharing then unsharing is a round trip: with a driver that
    answers, when the entry had no share code, a successful
    [EntryShareCode] followed by [UnshareEntry] leaves the [entries] table
    exactly as it was before the two calls. *)
Theorem share_then_unshare (generated : string) (userID entryID : Z)
    (w w1 : World) (code : string) :
  healthy w ->
  (forall r, In r (entries_tbl w) -> owned_entry userID entryID r ->
             entries.share_code r = EmptyString) ->
  EntryShareCode generated userID entryID w = (Ok code, w1) ->
  entries_tbl (snd (UnshareEntry userID entryID w1)) = entries_tbl w.
Proof.
  intros Hw Hempty H.
  set (p := fun r => (entries.user_id r =? userID)
                     && (entries.id r =? entryID)).
  assert (Hw1 : w1 = set_entries
                       (map (fun r => if p r
                                      then set_share_code generated r
                                      else r) (entries_tbl w)) w).
  { unfold EntryShareCode in H. fold p in H.
    apply bind_Ok in H as (sc & w0 & Hq & H). apply wrap_Ok in Hq.
    unfold query_row, bind in Hq. rewrite (driver_healthy w Hw) in Hq.
    destruct (find p (entries_tbl w)) as [r0|] eqn:F; [|discriminate].
    injection Hq as <- <-.
    apply find_some in F as [Hr0 P0].
    rewrite (Hempty r0 Hr0 (proj1 (owned_entry_iff _ _ r0) P0)) in H.
    simpl in H. apply bind_Ok in H as (n & w3 & Hu & H).
    injection H as _ <-. apply wrap_Ok in Hu.
    unfold exec_update_share_code in Hu.
    destruct (negb (generated =? EmptyString)%string && _) in Hu.
    - unfold bind, fail in Hu. rewrite (driver_healthy w Hw) in Hu.
      discriminate.
    - rewrite (exec_update_healthy _ _ w Hw) in Hu.
      injection Hu as _ <-. reflexivity. }
  subst w1. unfold UnshareEntry. rewrite bind_ret_snd, wrap_snd. fold p.
  rewrite exec_update_healthy by exact Hw. simpl.
  apply unshared_again; [|reflexivity].
  intros r Hr Pr. apply (Hempty r Hr). apply owned_entry_iff. exact Pr.
Qed.

(** ** Editing title and content *)

(** X17. [UpdateEntryTitleAndContent] does not look at the number of
    rows it updates: with a driver that answers it always succeeds, also
    on an entry that is unknown or belongs to another user, where it
    changes nothing; on the user's entry it replaces the title, the content
    and the reading time and leaves every other column and every other
    entry as they were. *)
Theorem UpdateEntryTitleAndContent_silent (entry : Entry) (w : World) :
  healthy w ->
  fst (UpdateEntryTitleAndContent entry w) = Ok tt
  /\ ((forall r, In r (entries_tbl w) ->
                 ~ owned_entry (UserID entry) (ID entry) r) ->
      UpdateEntryTitleAndContent entry w = (Ok tt, w))
  /\ Forall2
       (fun r r' =>
          (owned_entry (UserID entry) (ID entry) r -> r' = retitled entry r)
          /\ (~ owned_entry (UserID entry) (ID entry) r -> r' = r))
       (entries_tbl w)
       (entries_tbl (snd (UpdateEntryTitleAndContent entry w))).
Proof.
  intros Hw.
  set (p := fun r => (entries.id r =? ID entry)
                     && (entries.user_id r =? UserID entry)).
  assert (Hp : forall r, p r = true
                         <-> owned_entry (UserID entry) (ID entry) r).
  { intros r. unfold p, owned_entry.
    rewrite andb_true_iff, !Z.eqb_eq. tauto. }
  assert (Hrun : UpdateEntryTitleAndContent entry w
                 = (Ok tt,
                    set_entries
                      (map (fun r => if p r then retitled entry r else r)
                           (entries_tbl w)) w)).
  { unfold UpdateEntryTitleAndContent, bind, wrap. fold p.
    rewrite (exec_update_healthy _ _ w Hw). reflexivity. }
  rewrite Hrun. simpl. split; [reflexivity|]. split.
  - intros Hnone.
    destruct (nothing_matches p (retitled entry) (entries_tbl w))
      as [_ N].
    { intros r Hr. apply not_true_iff_false. intros Pr.
      apply (Hnone r Hr), Hp, Pr. }
    rewrite N, set_entries_same. reflexivity.
  - apply (rewritten_where
             (owned_entry (UserID entry) (ID entry)) p). exact Hp.
Qed.

(** ** Counting entries *)

Lemma map_lookup_store (k k' : string) (v : Z) (m : list (string * Z)) :
  map_lookup k (map_store k' v m)
  = if (k' =? k)%string then v else map_lookup k m.
Proof.
  induction m as [|[k1 v1] m IH]; simpl.
  - reflexivity.
  - destruct (k1 =? k')%string eqn:E1; simpl.
    + apply String.eqb_eq in E1. subst k1.
      destruct (k' =? k)%string; reflexivity.
    + rewrite IH. destruct (k1 =? k)%string eqn:E2; [|reflexivity].
      apply String.eqb_eq in E2. subst k1.
      rewrite String.eqb_sym, E1. reflexivity.
Qed.

Lemma map_lookup_fold (k : string) (c : string -> Z) (keys : list string) :
  forall m,
    map_lookup k
      (fold_left (fun m sc => map_store (fst sc) (snd sc) m)
                 (map (fun s => (s, c s)) keys) m)
    = if existsb (String.eqb k) keys then c k else map_lookup k m.
Proof.
  induction keys as [|s keys IH]; intros m; simpl; [reflexivity|].
  rewrite IH, map_lookup_store.
  destruct (existsb (String.eqb k) keys); [rewrite orb_true_r; reflexivity|].
  rewrite orb_false_r, String.eqb_sym.
  destruct (k =? s)%string eqn:E; [|reflexivity].
  apply String.eqb_eq in E. subst s. reflexivity.
Qed.

Lemma count_status_absent (s : string) (rows : list entries.row) :
  existsb (String.eqb s) (nodup string_dec (map entries.status rows)) = false
  -> count_status s rows = 0.
Proof.
  intros H. unfold count_status. rewrite filter_none; [reflexivity|].
  apply not_true_iff_false. intros Ex. apply not_true_iff_false in H.
  apply H. apply existsb_exists in Ex as (r & Hr & E).
  apply String.eqb_eq in E. apply existsb_exists. exists s.
  split; [|apply String.eqb_refl].
  apply nodup_In. rewrite <- E. apply in_map. exact Hr.
Qed.

Lemma counts_add_up (rows : list entries.row) :
  Forall (fun r => valid_status (entries.status r) = true) rows ->
  count_status EntryStatusUnread rows + count_status EntryStatusRead rows
  + count_status EntryStatusRemoved rows
  = Z.of_nat (List.length rows).
Proof.
  unfold count_status, EntryStatusUnread, EntryStatusRead,
    EntryStatusRemoved.
  induction 1 as [|r rows Hr _ IH]; [reflexivity|].
  simpl List.length. rewrite Nat2Z.inj_succ, <- IH. simpl filter.
  unfold valid_status in Hr.
  destruct (entries.status r =? "unread")%string eqn:E1,
           (entries.status r =? "read")%string eqn:E2,
           (entries.status r =? "removed")%string eqn:E3;
    try discriminate Hr;
    try (apply String.eqb_eq in E1; apply String.eqb_eq in E2;
         rewrite E1 in E2; discriminate E2);
    try (apply String.eqb_eq in E1; apply String.eqb_eq in E3;
         rewrite E1 in E3; discriminate E3);
    try (apply String.eqb_eq in E2; apply String.eqb_eq in E3;
         rewrite E2 in E3; discriminate E3);
    simpl List.length; rewrite ?Nat2Z.inj_succ; lia.
Qed.

(** X18. [CountAllEntries]: when the query fails the answer is the nil
    map; when the driver answers, the map gives for unread, read and
    removed the number of stored entries with that status, and, in a table
    whose statuses satisfy the [CHECK] constraint, its total is the number
    of stored entries. *)
Theorem CountAllEntries_totals (w : World) :
  (forall msg fs, faults w = Some msg :: fs -> fst (CountAllEntries w) = None)
  /\ (healthy w ->
      exists results,
        CountAllEntries w = (Some results, w)
        /\ map_lookup EntryStatusUnread results
           = count_status EntryStatusUnread (entries_tbl w)
        /\ map_lookup EntryStatusRead results
           = count_status EntryStatusRead (entries_tbl w)
        /\ map_lookup EntryStatusRemoved results
           = count_status EntryStatusRemoved (entries_tbl w)
        /\ (valid_table w ->
            map_lookup "total" results
            = Z.of_nat (List.length (entries_tbl w)))).
Proof.
  split.
  - intros msg fs Hf. unfold CountAllEntries, driver. rewrite Hf.
    reflexivity.
  - intros Hw. unfold CountAllEntries. rewrite (driver_healthy w Hw).
    eexists. split; [reflexivity|].
    assert (L : forall s,
               (s = EntryStatusUnread \/ s = EntryStatusRead
                \/ s = EntryStatusRemoved) ->
               map_lookup s
                 (fold_left (fun m sc => map_store (fst sc) (snd sc) m)
                    (status_counts (entries_tbl w))
                    [(EntryStatusUnread, 0); (EntryStatusRead, 0);
                     (EntryStatusRemoved, 0)])
               = count_status s (entries_tbl w)).
    { intros s Hs. unfold status_counts.
      rewrite (map_lookup_fold s
                 (fun s => count_status s (entries_tbl w))).
      destruct (existsb (String.eqb s) _) eqn:Ex; [reflexivity|].
      rewrite (count_status_absent _ _ Ex).
      destruct Hs as [-> | [-> | ->]]; reflexivity. }
    rewrite !map_lookup_store. simpl.
    rewrite (L EntryStatusUnread), (L EntryStatusRead),
      (L EntryStatusRemoved) by auto.
    repeat split. intros HV. apply counts_add_up. exact HV.
Qed.

(** ** What the navigator can return *)

Lemma joined_set_faults (fs : list (option string)) (w : World) :
  joined (set_faults fs w) = joined w.
Proof. reflexivity. Qed.

Lemma neighbour_query_visible (e : EntryPaginationBuilder)
    (side : column -> option entries.row -> Z -> JoinedRow -> bool)
    (ord : column -> JoinedRow -> JoinedRow -> bool)
    (w w1 : World) (found : option Z) :
  neighbour_query e side ord w = (Ok found, w1) ->
  (exists fs, w1 = set_faults fs w)
  /\ forall x, found = Some x ->
       exists j, visible e w j /\ entries.id (jr_entry j) = x.
Proof.
  unfold neighbour_query. intros H.
  apply bind_Ok in H as ([] & w0 & Hd & H).
  apply driver_inv in Hd as (fs & ->).
  destruct (entries_column (order e)) as [c|]; [|discriminate].
  injection H as <- <-. split; [eauto|].
  intros x Hx. rewrite hd_error_limit_1 in Hx.
  match type of Hx with
  | option_map _ (hd_error ?l) = _ => destruct l as [|j l'] eqn:El
  end; [discriminate|].
  simpl in Hx. injection Hx as <-.
  assert (In j (j :: l')) as Hj by (left; reflexivity).
  rewrite <- El in Hj. apply order_by_In, filter_In in Hj.
  destruct Hj as [Hj Hc]. apply andb_true_iff in Hc as [Hc _].
  exists j. split; [split; assumption | reflexivity].
Qed.

(** X19. The navigator stays inside the user's entries: for a builder
    made by [NewEntryPaginationBuilder] and any further conditions,
    whatever the ordering column and the driver's failures, an id that
    [getPrevNextID] returns is zero or the id of a stored entry of that
    user whose status is not removed. *)
Theorem neighbours_of_the_user (userID entryID : Z)
    (order direction : string) (cs : list condition) (w w' : World)
    (prevID nextID : Z) :
  getPrevNextID
    (add_conditions cs
       (NewEntryPaginationBuilder userID entryID order direction)) w
  = (Ok (prevID, nextID), w') ->
  forall x, x = prevID \/ x = nextID ->
    x = 0
    \/ exists r, In r (entries_tbl w) /\ entries.id r = x
                 /\ entries.user_id r = userID
                 /\ entries.status r <> "removed".
Proof.
  set (e := add_conditions cs
              (NewEntryPaginationBuilder userID entryID order direction)).
  intros H.
  assert (V : forall j, visible e w j ->
              In (jr_entry j) (entries_tbl w)
              /\ entries.user_id (jr_entry j) = userID
              /\ entries.status (jr_entry j) <> "removed").
  { intros j [Hj Hs]. split; [apply joined_entry_In; exact Hj|].
    unfold subCondition, e in Hs. simpl in Hs.
    apply andb_true_iff in Hs as [Hu Hs].
    apply andb_true_iff in Hs as [Hr _].
    split; [apply Z.eqb_eq; exact Hu|].
    apply negb_true_iff in Hr. apply String.eqb_neq. exact Hr. }
  unfold getPrevNextID in H.
  apply bind_Ok in H as (pID & w1 & Hp & H). apply wrap_Ok in Hp.
  apply bind_Ok in H as (nID & w2 & Hn & H). apply wrap_Ok in Hn.
  injection H as <- <- _.
  apply neighbour_query_visible in Hp as [(fs & ->) Hp].
  apply neighbour_query_visible in Hn as [_ Hn].
  assert (K : forall (found : option Z) (w0 : World),
             joined w0 = joined w ->
             (forall x, found = Some x ->
                exists j, visible e w0 j /\ entries.id (jr_entry j) = x) ->
             NullInt64_value found = 0
             \/ exists r, In r (entries_tbl w)
                          /\ entries.id r = NullInt64_value found
                          /\ entries.user_id r = userID
                          /\ entries.status r <> "removed").
  { intros [x|] w0 Ej Hf; [|left; reflexivity]. right.
    destruct (Hf x eq_refl) as (j & [Hj Hs] & Hx).
    rewrite Ej in Hj. destruct (V j (conj Hj Hs)) as (Hin & Hu & Hst).
    exists (jr_entry j). simpl. auto. }
  intros x [->| ->].
  - apply (K pID w); [reflexivity | exact Hp].
  - apply (K nID (set_faults fs w)); [reflexivity | exact Hn].
Qed.

(** X20. The two neighbours are apart: with a driver that answers, a
    table keyed by [id] and a numeric ordering column, [getPrevNextID]
    succeeds, and an id it returns that is not zero is never the anchor;
    nor is it returned on both sides. *)
Theorem neighbours_apart (e : EntryPaginationBuilder) (w : World)
    (col : entries.row -> Z) :
  healthy w ->
  NoDup (map entries.id (entries_tbl w)) ->
  entries_column (order e) = Some (IntColumn col) ->
  exists prevID nextID,
    getPrevNextID e w = (Ok (prevID, nextID), w)
    /\ (prevID <> 0 -> prevID <> entryID e /\ prevID <> nextID)
    /\ (nextID <> 0 -> nextID <> entryID e).
Proof.
  intros Hw ND Hc.
  destruct (neighbour_query_first e w before_anchor prev_order col
              (prev_candidate e w col) (not_after_desc col) Hw Hc
              (prev_order_total col) (prev_order_trans col)
              (prev_order_iff col)
              (fun j => before_anchor_iff e w col j ND))
    as (prev & Ep & Fp).
  destruct (neighbour_query_first e w after_anchor next_order col
              (next_candidate e w col) (not_after_asc col) Hw Hc
              (next_order_total col) (next_order_trans col)
              (next_order_iff col)
              (fun j => after_anchor_iff e w col j ND))
    as (next & En & Fn).
  exists (scanned_id prev), (scanned_id next).
  split.
  { rewrite (getPrevNextID_of_queries e w _ _ Ep En).
    destruct prev, next; reflexivity. }
  assert (Same : forall j a, In j (joined w) -> In a (entries_tbl w) ->
                   entries.id (jr_entry j) = entries.id a ->
                   jr_entry j = a).
  { intros j a Hj Ha E. eapply same_id_same_row; eauto.
    apply joined_entry_In. exact Hj. }
  split.
  - intros Hp. destruct prev as [j|]; [|contradiction]. simpl in *.
    destruct Fp as [((Hj & _) & a & Ha & Ea & Ca) _]. split.
    + intros E. rewrite <- Ea in E.
      rewrite (Same j a Hj Ha E) in Ca. lia.
    + destruct next as [j'|]; [|exact Hp]. simpl.
      destruct Fn as [((Hj' & _) & a' & Ha' & Ea' & Ca') _].
      intros E.
      assert (a' = a) by (eapply same_id_same_row; eauto; congruence).
      subst a'.
      assert (jr_entry j = jr_entry j') as Ej.
      { eapply same_id_same_row; eauto; apply joined_entry_In; assumption. }
      rewrite Ej in Ca. lia.
  - intros Hn. destruct next as [j|]; [|contradiction]. simpl in *.
    destruct Fn as [((Hj & _) & a & Ha & Ea & Ca) _].
    intros E. rewrite <- Ea in E.
    rewrite (Same j a Hj Ha E) in Ca. lia.
Qed.

(** ** Filters *)

Lemma narrower (e e' : EntryPaginationBuilder) (w : World) (j : JoinedRow) :
  (exists extra, conditions e' = conditions e ++ extra) ->
  visible e' w j -> visible e w j.
Proof.
  intros (extra & E) [Hj Hs]. split; [exact Hj|].
  unfold subCondition in *. rewrite E, forallb_app in Hs.
  apply andb_true_iff in Hs as [Hs _]. exact Hs.
Qed.

Lemma fold_conditions {T : Type} (g : T -> condition) (tags : list T) :
  forall e,
    conditions
      (fold_left (fun e tag => add_conditions [g tag] e) tags e)
    = conditions e ++ map g tags.
Proof.
  induction tags as [|t tags IH]; intros e; simpl.
  - rewrite app_nil_r. reflexivity.
  - rewrite IH. simpl. rewrite <- app_assoc. reflexivity.
Qed.

Lemma WithTags_conditions (tags : list string) (e : EntryPaginationBuilder) :
  exists extra, conditions (WithTags tags e) = conditions e ++ extra.
Proof.
  unfold WithTags. eexists.
  apply (fold_conditions
           (fun tag =>
              cond_tags
                (String.append percent
                   (String.append dquote
                      (String.append (strings_ToLower tag)
                         (String.append dquote percent)))))).
Qed.

(** X21. Filters only narrow: a row visible through a builder after any
    of the [With...] methods was visible through the builder before it;
    the conditions are conjoined, and no method removes one. *)
Theorem filters_only_narrow (e : EntryPaginationBuilder) (w : World)
    (j : JoinedRow) :
  (forall query, visible (WithSearchQuery query e) w j -> visible e w j)
  /\ (visible (WithStarred e) w j -> visible e w j)
  /\ (forall feedID, visible (WithFeedID feedID e) w j -> visible e w j)
  /\ (forall categoryID,
        visible (WithCategoryID categoryID e) w j -> visible e w j)
  /\ (forall status, visible (WithStatus status e) w j -> visible e w j)
  /\ (forall tags, visible (WithTags tags e) w j -> visible e w j)
  /\ (visible (WithGloballyVisible e) w j -> visible e w j).
Proof.
  assert (Same : exists extra, conditions e = conditions e ++ extra)
    by (exists []; rewrite app_nil_r; reflexivity).
  split; [|split; [|split; [|split; [|split; [|split]]]]].
  - intros query. apply narrower. unfold WithSearchQuery.
    destruct (query =? EmptyString)%string; [exact Same | simpl; eauto].
  - apply narrower. simpl. eauto.
  - intros feedID. apply narrower. unfold WithFeedID.
    destruct (feedID =? 0); [exact Same | simpl; eauto].
  - intros categoryID. apply narrower. unfold WithCategoryID.
    destruct (categoryID =? 0); [exact Same | simpl; eauto].
  - intros status. apply narrower. unfold WithStatus.
    destruct (status =? EmptyString)%string; [exact Same | simpl; eauto].
  - intros tags. apply narrower. apply WithTags_conditions.
  - apply narrower. simpl. eauto.
Qed.

(** ** Navigation without an anchor, or without a column *)

Lemma filter_nothing {A : Type} (p : A -> bool) (l : list A) :
  (forall a, p a = false) -> filter p l = [].
Proof.
  intros H. induction l as [|a l IH]; simpl; [reflexivity|].
  rewrite H. exact IH.
Qed.

(** X22. Navigation from an anchor that is not stored: with a driver
    that answers and an ordering column of the table, when no entry
    carries the anchor id (and none the id 0, which stands for no
    neighbour), both sub-selects of [getPrevNextID] are empty and
    [Entries] succeeds with no previous and no next entry, whatever the
    direction and the filters. *)
Theorem navigation_without_anchor (e : EntryPaginationBuilder) (w : World) :
  healthy w ->
  entries_column (order e) <> None ->
  (forall r, In r (entries_tbl w) -> entries.id r <> entryID e) ->
  (forall r, In r (entries_tbl w) -> entries.id r <> 0) ->
  getPrevNextID e w = (Ok (0, 0), w)
  /\ Entries e w = (Ok (None, None), w).
Proof.
  intros Hw Hc Hanchor Hpos.
  destruct (entries_column (order e)) as [c|] eqn:Ec; [|contradiction].
  assert (F : find (fun r => entries.id r =? entryID e) (entries_tbl w)
              = None) by (apply find_no_id; exact Hanchor).
  assert (Q : forall side ord,
             (forall j, side c None (entryID e) j = false) ->
             neighbour_query e side ord w = (Ok None, w)).
  { intros side ord Hside. unfold neighbour_query, bind.
    rewrite (driver_healthy w Hw), Ec, F.
    rewrite filter_nothing; [reflexivity|].
    intros j. rewrite Hside. apply andb_false_r. }
  assert (P : getPrevNextID e w = (Ok (0, 0), w)).
  { apply (getPrevNextID_of_queries e w None None); apply Q; reflexivity. }
  split; [exact P|].
  assert (G : getEntry 0 w = (Ok None, w)).
  { rewrite (getEntry_healthy w 0 Hw), find_no_id by exact Hpos.
    reflexivity. }
  assert (N : navigates e w None None).
  { eapply Entries_healthy; [exact Hw | exact P | exact G | exact G]. }
  destruct N as [N1 N2].
  destruct (string_dec (direction e) "desc") as [D|D]; auto.
Qed.

(** ** Truncation *)

Lemma substring_nothing (s : string) : substring 0 0 s = EmptyString.
Proof. destruct s; reflexivity. Qed.

Lemma substring_length (n : nat) :
  forall s, String.length (substring 0 n s) = Nat.min n (String.length s).
Proof.
  induction n as [|n IH]; intros [|c s]; simpl; try reflexivity.
  rewrite IH. reflexivity.
Qed.

Lemma substring_whole (n : nat) :
  forall s, (String.length s <= n)%nat -> substring 0 n s = s.
Proof.
  induction n as [|n IH]; intros [|c s] H; simpl in *;
    try reflexivity; try lia.
  rewrite IH by lia. reflexivity.
Qed.

Lemma substring_prefix (n : nat) :
  forall s, exists rest, s = String.append (substring 0 n s) rest.
Proof.
  induction n as [|n IH]; intros [|c s]; simpl.
  - exists EmptyString. reflexivity.
  - exists (String c s). reflexivity.
  - exists EmptyString. reflexivity.
  - destruct (IH s) as (rest & E). exists rest. rewrite <- E. reflexivity.
Qed.

Lemma substring_substring (k : nat) :
  forall n s, (k <= n)%nat ->
    substring 0 k (substring 0 n s) = substring 0 k s.
Proof.
  induction k as [|k IH]; intros n s H.
  - rewrite !substring_nothing. reflexivity.
  - destruct n as [|n]; [lia|]. destruct s as [|c s]; simpl; [reflexivity|].
    rewrite IH by lia. reflexivity.
Qed.

Lemma byte_at_substring (n i : nat) (s : string) :
  (i < n)%nat -> byte_at (substring 0 n s) i = byte_at s i.
Proof.
  intros H. unfold byte_at.
  rewrite (substring_correct1 s 0 n i H), Nat.add_0_r. reflexivity.
Qed.

Lemma cut_at_boundary_cut (t : string) (n : nat) :
  cut_below n t (cut_at_boundary t n).
Proof.
  induction n as [|n IH]; simpl.
  - exists 0%nat. split; [lia|]. split; [symmetry; apply substring_nothing|].
    split; [intros i Hi; lia | left; reflexivity].
  - destruct (Z.land (byte_at t n) 128 =? 0) eqn:Ha.
    { apply Z.eqb_eq in Ha. exists (n + 1)%nat.
      split; [lia|]. split; [reflexivity|].
      split; [intros i Hi; lia|].
      right; left. replace (n + 1 - 1)%nat with n by lia. exact Ha. }
    apply Z.eqb_neq in Ha.
    destruct (Z.land (byte_at t n) 192 =? 192) eqn:Hl.
    { apply Z.eqb_eq in Hl. exists n.
      split; [lia|]. split; [reflexivity|].
      split; [intros i Hi; lia|].
      right; right. split; [lia | exact Hl]. }
    apply Z.eqb_neq in Hl.
    destruct IH as (k & Hk & E & Hc & Hb). exists k.
    split; [lia|]. split; [exact E|]. split.
    + intros i Hi. destruct (Nat.eq_dec i n) as [->|Hn].
      * split; assumption.
      * apply Hc. lia.
    + destruct Hb as [Hb|[Hb|[Hb1 Hb2]]]; auto.
      right; right. split; [lia | exact Hb2].
Qed.

Lemma truncate_to_cases (maxSize : Z) (s : string) :
  0 < maxSize ->
  (Z.of_nat (String.length s) < maxSize /\ truncate_to maxSize s = s)
  \/ (maxSize <= Z.of_nat (String.length s)
      /\ cut_below (Z.to_nat (maxSize - 1)) s (truncate_to maxSize s)).
Proof.
  intros Hm. unfold truncate_to.
  destruct (Z.of_nat (String.length s) <? maxSize) eqn:Hl.
  - left. apply Z.ltb_lt in Hl. split; [exact Hl | reflexivity].
  - right. apply Z.ltb_ge in Hl. split; [exact Hl|]. cbv zeta.
    set (n := Z.to_nat (maxSize - 1)).
    assert (Hn : String.length (substring 0 n s) = n).
    { rewrite substring_length. unfold n. lia. }
    rewrite Hn.
    destruct (cut_at_boundary_cut (substring 0 n s) n)
      as (k & Hk & E & Hc & Hb).
    exists k. split; [exact Hk|].
    split; [rewrite E; apply substring_substring; exact Hk|].
    split.
    + intros i Hi. rewrite <- (byte_at_substring n i s) by lia.
      apply Hc. exact Hi.
    + destruct Hb as [Hb|[Hb|[Hb1 Hb2]]]; [left; exact Hb | |].
      * destruct k as [|k]; [left; reflexivity|]. right; left.
        rewrite <- (byte_at_substring n (S k - 1) s) by lia. exact Hb.
      * right; right. split; [exact Hb1|].
        rewrite <- (byte_at_substring n k s) by lia. exact Hb2.
Qed.

Lemma truncate_to_short (maxSize : Z) (s : string) :
  Z.of_nat (String.length s) < maxSize -> truncate_to maxSize s = s.
Proof.
  intros H. unfold truncate_to.
  apply Z.ltb_lt in H. rewrite H. reflexivity.
Qed.

Lemma truncate_to_bound (maxSize : Z) (s : string) :
  0 < maxSize ->
  Z.of_nat (String.length (truncate_to maxSize s)) < maxSize
  /\ exists rest, s = String.append (truncate_to maxSize s) rest.
Proof.
  intros Hm.
  destruct (truncate_to_cases maxSize s Hm)
    as [[Hl ->]|[Hl (k & Hk & -> & _)]].
  - split; [exact Hl|]. exists EmptyString.
    clear. induction s as [|c s IH]; simpl; [reflexivity|].
    rewrite <- IH. reflexivity.
  - split; [rewrite substring_length; lia | apply substring_prefix].
Qed.

(** X23. [truncateStringForTSVectorField] returns a prefix of its
    argument that is shorter than one mebibyte, and leaves such a text
    as it is: truncating twice is truncating once. *)
Theorem truncation_is_a_bounded_prefix (s : string) :
  (exists rest,
     s = String.append (truncateStringForTSVectorField s) rest)
  /\ Z.of_nat (String.length (truncateStringForTSVectorField s))
     < 1024 * 1024
  /\ truncateStringForTSVectorField (truncateStringForTSVectorField s)
     = truncateStringForTSVectorField s.
Proof.
  unfold truncateStringForTSVectorField.
  destruct (truncate_to_bound (1024 * 1024) s eq_refl) as [Hb Hp].
  split; [exact Hp|]. split; [exact Hb|].
  apply truncate_to_short. exact Hb.
Qed.

(** X24. Where [truncateStringForTSVectorField] cuts: a text shorter
    than one mebibyte is returned whole; a longer one is cut at a
    character boundary below the limit, that is after an ASCII byte,
    before the first byte of a multi-byte character, or down to nothing,
    and every byte dropped after the cut up to the limit is a
    continuation byte. *)
Theorem truncation_cuts_at_a_boundary (s : string) :
  (Z.of_nat (String.length s) < 1024 * 1024
   /\ truncateStringForTSVectorField s = s)
  \/ (1024 * 1024 <= Z.of_nat (String.length s)
      /\ cut_below (Z.to_nat (1024 * 1024 - 1)) s
           (truncateStringForTSVectorField s)).
Proof.
  unfold truncateStringForTSVectorField.
  apply truncate_to_cases. reflexivity.
Qed.

(** ** The keys of the table *)

Lemma NoDup_filtered {K : Type} (key : entries.row -> K)
    (keep : entries.row -> bool) (rows : list entries.row) :
  NoDup (map key rows) -> NoDup (map key (filter keep rows)).
Proof.
  induction rows as [|r rows IH]; simpl; intros ND; [constructor|].
  apply NoDup_cons_iff in ND as [Hr ND].
  destruct (keep r); simpl; [|exact (IH ND)].
  apply NoDup_cons; [|exact (IH ND)].
  intros Hin. apply Hr.
  apply in_map_iff in Hin as (r2 & E & Hin).
  apply filter_In in Hin as [Hin _].
  apply in_map_iff. exists r2. split; assumption.
Qed.

Lemma keeps_keys_ret {A : Type} (a : A) : keeps_keys (ret a).
Proof. intros w K. exact K. Qed.

Lemma keeps_keys_fail {A : Type} (e : error) : keeps_keys (@fail _ A e).
Proof. intros w K. exact K. Qed.

Lemma keeps_keys_get {A : Type} (f : World -> A) : keeps_keys (get f).
Proof. intros w K. exact K. Qed.

Lemma keeps_keys_driver : keeps_keys driver.
Proof.
  intros w K. destruct (driver_cases w) as ([[]|e] & fs & ->); exact K.
Qed.

Lemma keeps_keys_bind {A B : Type} (m : M A) (k : A -> M B) :
  keeps_keys m -> (forall a, keeps_keys (k a)) -> keeps_keys (bind m k).
Proof.
  intros Hm Hk w K. unfold bind. specialize (Hm w K).
  destruct (m w) as [[a|e] w1]; simpl in *; [apply Hk; exact Hm | exact Hm].
Qed.

Lemma keeps_keys_wrap {A : Type} (h : error -> error) (m : M A) :
  keeps_keys m -> keeps_keys (wrap h m).
Proof. intros Hm w K. rewrite wrap_snd. apply Hm. exact K. Qed.

Lemma keeps_keys_exec_update (p : entries.row -> bool)
    (f : entries.row -> entries.row) :
  (forall r, entries.id (f r) = entries.id r
             /\ feed_hash (f r) = feed_hash r) ->
  keeps_keys (exec_update p f).
Proof.
  intros Hf w [K1 K2]. unfold exec_update, bind.
  destruct (driver_cases w) as ([[]|e] & fs & ->); simpl;
    [|split; assumption].
  unfold keyed. simpl. rewrite !map_map.
  rewrite (map_ext (fun r => entries.id (if p r then f r else r))
             entries.id)
    by (intros r; destruct (p r); [apply Hf | reflexivity]).
  rewrite (map_ext (fun r => feed_hash (if p r then f r else r)) feed_hash)
    by (intros r; destruct (p r); [apply Hf | reflexivity]).
  split; assumption.
Qed.

Lemma keeps_keys_exec_delete (p : entries.row -> bool) :
  keeps_keys (exec_delete p).
Proof.
  intros w [K1 K2]. unfold exec_delete, bind.
  destruct (driver_cases w) as ([[]|e] & fs & ->); simpl;
    [|split; assumption].
  split; apply NoDup_filtered; assumption.
Qed.

Lemma keeps_keys_query_row {A : Type} (p : entries.row -> bool)
    (col : entries.row -> A) :
  keeps_keys (query_row p col).
Proof.
  intros w K. unfold query_row, bind.
  destruct (driver_cases w) as ([[]|e] & fs & ->); simpl; [|exact K].
  destruct (find p (entries_tbl w)); exact K.
Qed.

Lemma keeps_keys_exec_update_status (p : entries.row -> bool)
    (status : string) (f : entries.row -> entries.row) :
  (forall r, entries.id (f r) = entries.id r
             /\ feed_hash (f r) = feed_hash r) ->
  keeps_keys (exec_update_status p status f).
Proof.
  intros Hf w K. unfold exec_update_status.
  destruct (negb (valid_status status) && existsb p (entries_tbl w)).
  - apply (keeps_keys_bind driver); [apply keeps_keys_driver | | exact K].
    intros _. apply keeps_keys_fail.
  - apply keeps_keys_exec_update; assumption.
Qed.

Lemma keeps_keys_exec_update_share_code (p : entries.row -> bool)
    (shareCode : string) :
  keeps_keys (exec_update_share_code p shareCode).
Proof.
  intros w K. unfold exec_update_share_code.
  match goal with |- context [if ?c then _ else _] => destruct c end.
  - apply (keeps_keys_bind driver); [apply keeps_keys_driver | | exact K].
    intros _. apply keeps_keys_fail.
  - apply keeps_keys_exec_update; [|exact K].
    intros r. split; reflexivity.
Qed.

Ltac keys_step :=
  first
    [ apply keeps_keys_ret
    | apply keeps_keys_fail
    | apply keeps_keys_get
    | apply keeps_keys_driver
    | apply keeps_keys_query_row
    | apply keeps_keys_exec_delete
    | apply keeps_keys_exec_update_share_code
    | apply keeps_keys_exec_update_status; intros ?; split; reflexivity
    | apply keeps_keys_exec_update; intros ?; split; reflexivity
    | apply keeps_keys_wrap
    | apply keeps_keys_bind; [|intros ?]
    | match goal with
      | |- keeps_keys (if ?c then _ else _) => destruct c
      end ].

Lemma keeps_keys_mark_read (p : entries.row -> bool) :
  keeps_keys (mark_read p).
Proof. unfold mark_read. repeat keys_step. Qed.

(** X1. Both keys of the [entries] table, [id] and [(feed_id, hash)],
    survive the storage code: when they hold they hold again after a
    refresh, after the reaper, after each bulk operation, after a change of
    title and content and after sharing and unsharing, whatever the
    arguments, the driver's failures and the outcome. *)
Theorem keys_are_kept (w : World) :
  keyed w ->
  (forall userID feedID entries update,
      keyed (snd (RefreshFeedEntries userID feedID entries update w)))
  /\ (forall g, keyed (snd (run_goroutine g w)))
  /\ (forall status days limit,
        keyed (snd (ArchiveEntries status days limit w)))
  /\ (forall userID ids status,
        keyed (snd (SetEntriesStatus userID ids status w)))
  /\ (forall userID ids starred,
        keyed (snd (SetEntriesBookmarkedState userID ids starred w)))
  /\ (forall userID entryID, keyed (snd (ToggleBookmark userID entryID w)))
  /\ (forall userID, keyed (snd (FlushHistory userID w)))
  /\ (forall userID, keyed (snd (MarkAllAsRead userID w)))
  /\ (forall userID before,
        keyed (snd (MarkAllAsReadBeforeDate userID before w)))
  /\ (forall userID, keyed (snd (MarkGloballyVisibleFeedsAsRead userID w)))
  /\ (forall userID feedID before,
        keyed (snd (MarkFeedAsRead userID feedID before w)))
  /\ (forall userID categoryID before,
        keyed (snd (MarkCategoryAsRead userID categoryID before w)))
  /\ (forall entry, keyed (snd (UpdateEntryTitleAndContent entry w)))
  /\ (forall generated userID entryID,
        keyed (snd (EntryShareCode generated userID entryID w)))
  /\ (forall userID entryID, keyed (snd (UnshareEntry userID entryID w))).
Proof.
  intros K.
  assert (G : forall (A : Type) (m : M A), keeps_keys m -> keyed (snd (m w)))
    by (intros A m Hm; apply Hm; exact K).
  split.
  { intros. destruct K as [K1 K2].
    apply RefreshFeedEntries_keeps_keys; assumption. }
  split.
  { intros g. unfold keyed. rewrite run_goroutine_entries.
    apply (G unit (cleanupEntries (go_feedID g) (go_entryHashes g))).
    unfold cleanupEntries. repeat keys_step. }
  split.
  { intros. apply G. unfold ArchiveEntries. repeat keys_step. }
  split.
  { intros. apply G. unfold SetEntriesStatus. repeat keys_step. }
  split.
  { intros. apply G. unfold SetEntriesBookmarkedState. cbv zeta.
    repeat keys_step. }
  split.
  { intros. apply G. unfold ToggleBookmark. repeat keys_step. }
  split.
  { intros. apply G. unfold FlushHistory. repeat keys_step. }
  split.
  { intros. apply G. unfold MarkAllAsRead. repeat keys_step. }
  split.
  { intros. apply G. unfold MarkAllAsReadBeforeDate. repeat keys_step. }
  split.
  { intros. apply G. unfold MarkGloballyVisibleFeedsAsRead.
    repeat keys_step. }
  split.
  { intros. apply G. unfold MarkFeedAsRead. repeat keys_step. }
  split.
  { intros. apply G. unfold MarkCategoryAsRead. repeat keys_step. }
  split.
  { intros. apply G. unfold UpdateEntryTitleAndContent. repeat keys_step. }
  split.
  { intros. apply G. unfold EntryShareCode. repeat keys_step. }
  intros. apply G. unfold UnshareEntry. repeat keys_step.
Qed.

(** ** Counting after a change of status *)

Lemma bind_run {A B : Type} (m : M A) (k : A -> M B) (w w1 : World)
    (a : A) :
  m w = (Ok a, w1) -> bind m k w = k a w1.
Proof. intros H. unfold bind. rewrite H. reflexivity. Qed.

Lemma joined_rewritten (g : entries.row -> entries.row) (w : World) :
  (forall r, entries.feed_id (g r) = entries.feed_id r) ->
  joined (set_entries (map g (entries_tbl w)) w)
  = map (fun j => (g (jr_entry j), jr_feed j, jr_category j)) (joined w).
Proof.
  intros Hg. unfold joined. simpl.
  induction (entries_tbl w) as [|e l IH]; simpl; [reflexivity|].
  rewrite map_app, IH, Hg. f_equal.
  induction (filter (fun f => feeds.id f =? entries.feed_id e) (feeds_tbl w))
    as [|f fs IHf]; simpl; [reflexivity|].
  rewrite map_app, map_map, IHf. reflexivity.
Qed.

Lemma filter_map_length {A : Type} (p : A -> bool) (h : A -> A)
    (l : list A) :
  (forall a, p (h a) = p a) ->
  List.length (filter p (map h l)) = List.length (filter p l).
Proof.
  intros Hp. induction l as [|a l IH]; simpl; [reflexivity|].
  rewrite Hp. destruct (p a); simpl; rewrite IH; reflexivity.
Qed.

(** X25. [SetEntriesStatusCount] does not count what it has just
    changed: with a driver that answers and a status the [CHECK]
    constraint admits, it leaves the world as [SetEntriesStatus] does and
    returns the number of joined rows of the user with a listed id whose
    feed and category are not hidden, as they were before the call; the
    status written, removed included, plays no part. *)
Theorem SetEntriesStatusCount_ignores_status (userID : Z) (ids : list Z)
    (status : string) (w : World) :
  healthy w ->
  valid_status status = true ->
  SetEntriesStatusCount userID ids status w
  = (Ok (Z.of_nat (List.length (filter (counted userID ids) (joined w)))),
     snd (SetEntriesStatus userID ids status w)).
Proof.
  intros Hw Vs.
  destruct ids as [|i ids].
  - unfold SetEntriesStatusCount, SetEntriesStatus. simpl.
    unfold bind, ret. simpl.
    rewrite filter_nothing; [reflexivity|].
    intros j. unfold counted, id_in. simpl.
    rewrite andb_false_r. reflexivity.
  - set (p := fun r => (entries.user_id r =? userID) && id_in (i :: ids) r).
    set (g := fun r =>
                if p r then set_changed_at (clock w) (set_status status r)
                else r).
    assert (E : (Z.of_nat (List.length (i :: ids)) =? 0) = false)
      by reflexivity.
    assert (S : SetEntriesStatus userID (i :: ids) status w
                = (Ok tt, set_entries (map g (entries_tbl w)) w)).
    { unfold SetEntriesStatus. rewrite E.
      unfold bind, wrap, get, exec_update_status. rewrite Vs.
      cbv beta iota. simpl negb. simpl andb. cbv iota.
      rewrite (exec_update_healthy _ _ w Hw). reflexivity. }
    unfold SetEntriesStatusCount.
    rewrite (bind_run _ _ _ _ _ S), S, E. simpl snd.
    unfold wrap, bind, get.
    rewrite (driver_healthy (set_entries (map g (entries_tbl w)) w) Hw).
    rewrite (joined_rewritten g w)
      by (intros r; unfold g; destruct (p r); reflexivity).
    fold (counted userID (i :: ids)).
    rewrite filter_map_length; [reflexivity|].
    intros [[e f] c]. unfold counted, jr_entry, jr_feed, jr_category, id_in.
    simpl fst. simpl snd.
    assert (K : entries.user_id (g e) = entries.user_id e
                /\ entries.id (g e) = entries.id e)
      by (unfold g; destruct (p e); split; reflexivity).
    destruct K as [-> ->]. reflexivity.
Qed.

End MoreProperties.

(** * The properties on the example worlds *)

Ltac distinct_ids :=
  repeat (constructor;
          [simpl; intros H; repeat destruct H as [H|H];
           try discriminate; try contradiction |]);
  constructor.

(** C1 on an empty feed: the first refresh creates the entry, the second
    one finds it and returns no new entry. *)
Lemma refresh_twice_one_entry_witness :
  NoDup (map feed_hash (entries_tbl w_empty))
  /\ entries_tbl
       (snd (RefreshFeedEntries 1 1 [candidate "h1" "A"] false
               (snd (RefreshFeedEntries 1 1 [candidate "h1" "A"] false
                       w_empty))))
     = entries_tbl
         (snd (RefreshFeedEntries 1 1 [candidate "h1" "A"] false w_empty))
  /\ List.length
       (filter (fun r => (entries.feed_id r =? 1)
                         && (entries.hash r =? "h1")%string)
          (entries_tbl
             (snd (RefreshFeedEntries 1 1 [candidate "h1" "A"] false
                     (snd (RefreshFeedEntries 1 1 [candidate "h1" "A"] false
                             w_empty)))))) = 1%nat
  /\ (forall new2,
        fst (RefreshFeedEntries 1 1 [candidate "h1" "A"] false
               (snd (RefreshFeedEntries 1 1 [candidate "h1" "A"] false
                       w_empty))) = Ok new2 ->
        new2 = [])
  /\ (healthy
        (snd (RefreshFeedEntries 1 1 [candidate "h1" "A"] false w_empty)) ->
      RefreshFeedEntries 1 1 [candidate "h1" "A"] false
        (snd (RefreshFeedEntries 1 1 [candidate "h1" "A"] false w_empty))
      = (Ok [],
         set_goroutines
           (goroutines
              (snd (RefreshFeedEntries 1 1 [candidate "h1" "A"] false
                      w_empty))
            ++ [mkGoroutine 1 1 [Hash (candidate "h1" "A")]])
           (snd (RefreshFeedEntries 1 1 [candidate "h1" "A"] false
                   w_empty)))).
Proof.
  split; [constructor|].
  apply (refresh_twice_one_entry 1 1 (candidate "h1" "A")
           (candidate "h1" "A") w_empty
           (snd (RefreshFeedEntries 1 1 [candidate "h1" "A"] false w_empty))
           [mkEntry 1 1 1 "unread" "h1" "A" "http://example.org/"
                    EmptyString 500 100 100 EmptyString EmptyString 0 [] []]).
  - constructor.
  - reflexivity.
  - reflexivity.
Defined.

(** The second refresh of that feed does return: no new entry, and the
    world of the first with one more reaper queued. *)
Example refresh_twice_run :
  healthy (snd (RefreshFeedEntries 1 1 [candidate "h1" "A"] false w_empty))
  /\ fst (RefreshFeedEntries 1 1 [candidate "h1" "A"] false
            (snd (RefreshFeedEntries 1 1 [candidate "h1" "A"] false
                    w_empty)))
     = Ok [].
Proof. split; reflexivity. Qed.

(** C2: the stored entry is refreshed at time 100 and its change date
    stays at 5. The claim as worded has the change date move. *)
Lemma update_leaves_changed_at_counterexample :
  clock w_stored = 100
  /\ map entries.title (entries_tbl w_stored) = ["A"]
  /\ map entries.changed_at (entries_tbl w_stored) = [5]
  /\ fst (RefreshFeedEntries 1 1 [candidate "h1" "A2"] true w_stored) = Ok []
  /\ map entries.title
       (entries_tbl
          (snd (RefreshFeedEntries 1 1 [candidate "h1" "A2"] true w_stored)))
     = ["A2"]
  /\ map entries.changed_at
       (entries_tbl
          (snd (RefreshFeedEntries 1 1 [candidate "h1" "A2"] true w_stored)))
     = [5].
Proof. repeat split. Qed.

(** C2 on the stored entry: status and dates are kept, the title is
    refreshed. *)
Lemma update_keeps_user_state_witness :
  (exists r, In r (entries_tbl w_stored) /\ entries.feed_id r = 1
             /\ entries.hash r = Hash (candidate "h1" "A2"))
  /\ Forall2 user_state_kept (entries_tbl w_stored)
       (entries_tbl
          (snd (RefreshFeedEntries 1 1 [candidate "h1" "A2"] true w_stored)))
  /\ (forall new,
        fst (RefreshFeedEntries 1 1 [candidate "h1" "A2"] true w_stored)
        = Ok new ->
        new = []
        /\ (exists r, In r (entries_tbl w_stored)
                      /\ targeted 1 1 (candidate "h1" "A2") r)
        /\ Forall2
             (fun r r' =>
                (targeted 1 1 (candidate "h1" "A2") r ->
                 content_refreshed (Collab := list_store)
                   (candidate "h1" "A2") r r')
                /\ (~ targeted 1 1 (candidate "h1" "A2") r -> r' = r))
             (entries_tbl w_stored)
             (entries_tbl
                (snd (RefreshFeedEntries 1 1 [candidate "h1" "A2"] true
                        w_stored)))).
Proof.
  assert (H : exists r, In r (entries_tbl w_stored)
                        /\ entries.feed_id r = 1
                        /\ entries.hash r = Hash (candidate "h1" "A2")).
  { eexists. split; [left; reflexivity|]. split; reflexivity. }
  split; [exact H|].
  exact (update_keeps_user_state 1 1 (candidate "h1" "A2") w_stored H).
Defined.

(** The batch on the faulty world: the first candidate stays stored, the
    second one is rolled back, the third one is never inserted, and no
    goroutine is started. *)
Example refresh_partial_failure_run :
  fst (RefreshFeedEntries 1 1 batch true w_faulty) = Err commit_error
  /\ map entries.hash
       (entries_tbl (snd (RefreshFeedEntries 1 1 batch true w_faulty)))
     = ["h1"]
  /\ goroutines (snd (RefreshFeedEntries 1 1 batch true w_faulty)) = [].
Proof. repeat split. Qed.


(** C4: with an empty list of hashes, entry B of feed 1 is removed, its
    hash is not in the list, and the reaper leaves it where it is. *)
Lemma cleanupEntries_empty_list_counterexample :
  In rowB (entries_tbl w_removed)
  /\ entries.feed_id rowB = 1
  /\ entries.status rowB = EntryStatusRemoved
  /\ ~ In (entries.hash rowB) []
  /\ cleanupEntries 1 [] w_removed = (Ok tt, w_removed)
  /\ In rowB (entries_tbl (snd (cleanupEntries 1 [] w_removed))).
Proof.
  repeat split; try (right; left; reflexivity). intros [].
Qed.

(** Stored removed entries A, B and C, observed hashes A and C: only B
    is deleted. *)
Example cleanupEntries_A_B_C :
  entries_tbl (snd (cleanupEntries 1 ["A"; "C"] w_removed)) = [rowA; rowC].
Proof. reflexivity. Qed.

(** C4 on that sweep. *)
Lemma cleanupEntries_exact_witness :
  ["A"; "C"] <> []
  /\ fst (cleanupEntries 1 ["A"; "C"] w_removed) = Ok tt
  /\ forall r,
       In r (entries_tbl (snd (cleanupEntries 1 ["A"; "C"] w_removed))) <->
       In r (entries_tbl w_removed)
       /\ ~ (entries.feed_id r = 1
             /\ entries.status r = EntryStatusRemoved
             /\ ~ In (entries.hash r) ["A"; "C"]).
Proof.
  split; [discriminate|]. split; [reflexivity|].
  apply (cleanupEntries_exact 1 ["A"; "C"] w_removed);
    [discriminate | reflexivity].
Defined.

(** Archiving and flushing old read entries: the plain one goes, the
    starred one and the shared one stay read. *)
Example archive_flush_run :
  fst (ArchiveEntries "read" 1 10 w_read) = Ok 1
  /\ map entries.status
       (entries_tbl (snd (ArchiveEntries "read" 1 10 w_read)))
     = ["read"; "read"; "removed"]
  /\ map entries.status (entries_tbl (snd (FlushHistory 1 w_read)))
     = ["read"; "read"; "removed"].
Proof. repeat split. Qed.

(** C5 on those entries. *)
Lemma archive_flush_exempt_witness :
  NoDup (map entries.id (entries_tbl w_read))
  /\ (forall status days limit,
         unchanged_where exempt w_read
           (snd (ArchiveEntries status days limit w_read)))
  /\ (forall userID,
         unchanged_where exempt w_read (snd (FlushHistory userID w_read))).
Proof.
  assert (ND : NoDup (map entries.id (entries_tbl w_read)))
    by distinct_ids.
  split; [exact ND|].
  exact (archive_flush_exempt w_read ND).
Defined.

(** C8: one call of [ArchiveEntries] removes the entries of user 1 and of
    user 2; there is no user whose entries alone it touches. *)
Lemma ArchiveEntries_all_users_counterexample :
  map entries.user_id (entries_tbl w_two_users) = [1; 2]
  /\ map entries.status (entries_tbl w_two_users) = ["read"; "read"]
  /\ fst (ArchiveEntries "read" 1 10 w_two_users) = Ok 2
  /\ map entries.status
       (entries_tbl (snd (ArchiveEntries "read" 1 10 w_two_users)))
     = ["removed"; "removed"]
  /\ ~ (exists userID,
          unchanged_where (foreign userID) w_two_users
            (snd (ArchiveEntries "read" 1 10 w_two_users))).
Proof.
  repeat split. intros (userID & H).
  unfold unchanged_where in H. vm_compute in H.
  inversion H as [|r1 r1' l1 l1' H1 H']; subst.
  inversion H' as [|r2 r2' l2 l2' H2 _]; subst.
  destruct (Z.eq_dec userID 1) as [->|N].
  - assert (F : (2 <> 1)%Z) by discriminate. specialize (H2 F).
    discriminate H2.
  - assert (F : (1 <> userID)%Z) by (intros E; apply N; symmetry; exact E).
    specialize (H1 F). discriminate H1.
Qed.

(** C9 on two users: entry 2 belongs to user 2, entry 1 to user 1. *)
Lemma ToggleBookmark_nothing_updated_witness :
  healthy w_two_users
  /\ ToggleBookmark 1 2 w_two_users
     = (Err (ErrorsNew "store: nothing has been updated"), w_two_users)
  /\ fst (ToggleBookmark 1 1 w_two_users) = Ok tt.
Proof.
  split; [reflexivity|]. split.
  - apply (ToggleBookmark_nothing_updated 1 2 w_two_users eq_refl).
    intros r [<-|[<-|[]]]; simpl; intros E; discriminate.
  - apply (ToggleBookmark_nothing_updated 1 1 w_two_users eq_refl).
    eexists. split; [left; reflexivity|]. split; reflexivity.
Defined.

(** Navigation among the entries published at 10, 20 and 30, in both
    directions. *)
Example three_entries_run :
  fst (Entries (by_published 2 "asc") w_three)
  = Ok (Some (sibling entry10), Some (sibling entry30))
  /\ fst (Entries (by_published 1 "asc") w_three)
     = Ok (None, Some (sibling entry20))
  /\ fst (Entries (by_published 3 "asc") w_three)
     = Ok (Some (sibling entry20), None)
  /\ fst (Entries (by_published 2 "desc") w_three)
     = Ok (Some (sibling entry30), Some (sibling entry10)).
Proof. repeat split. Qed.

(** C6 on those three entries. *)
Lemma three_entries_navigation_witness :
  navigates (anchored (entries.id entry20) (by_published 0 "asc")) w_three
    (Some (sibling entry10)) (Some (sibling entry30))
  /\ navigates (anchored (entries.id entry10) (by_published 0 "asc")) w_three
       None (Some (sibling entry20))
  /\ navigates (anchored (entries.id entry30) (by_published 0 "asc")) w_three
       (Some (sibling entry20)) None.
Proof.
  apply (three_entries_navigation (by_published 0 "asc") w_three
           entries.published_at entry10 entry20 entry30).
  - reflexivity.
  - distinct_ids.
  - intros r [<-|[<-|[<-|[]]]]; discriminate.
  - reflexivity.
  - intros r. split.
    + intros (j & (Hj & _) & <-). simpl in Hj.
      destruct Hj as [<-|[<-|[<-|[]]]]; simpl; auto.
    + intros [-> | [-> | ->]].
      * exists (entry10, feed1, category1).
        split; [split; [simpl; auto | reflexivity] | reflexivity].
      * exists (entry20, feed1, category1).
        split; [split; [simpl; auto | reflexivity] | reflexivity].
      * exists (entry30, feed1, category1).
        split; [split; [simpl; auto | reflexivity] | reflexivity].
  - reflexivity.
  - reflexivity.
Defined.

(** C7: on entries that tie on both dates the code answers previous 1 and
    next 5; the listings worded by the specification (all keys descending,
    all keys ascending) answer previous 2 and next 4. *)
Lemma tie_break_direction_counterexample :
  fst (getPrevNextID (by_published 3 "asc") w_ties) = Ok (1, 5)
  /\ fst (spec_getPrevNextID (by_published 3 "asc") w_ties) = Ok (2, 4).
Proof. split; reflexivity. Qed.

(** C7 on those entries. *)
Lemma getPrevNextID_selection_witness :
  healthy w_ties
  /\ NoDup (map entries.id (entries_tbl w_ties))
  /\ exists prev next,
       getPrevNextID (by_published 3 "asc") w_ties
       = (Ok (scanned_id prev, scanned_id next), w_ties)
       /\ first_of
            (prev_candidate (by_published 3 "asc") w_ties
               entries.published_at)
            (not_after_desc entries.published_at) prev
       /\ first_of
            (next_candidate (by_published 3 "asc") w_ties
               entries.published_at)
            (not_after_asc entries.published_at) next.
Proof.
  assert (ND : NoDup (map entries.id (entries_tbl w_ties)))
    by distinct_ids.
  split; [reflexivity|]. split; [exact ND|].
  exact (getPrevNextID_selection (by_published 3 "asc") w_ties
           entries.published_at eq_refl ND eq_refl).
Defined.

(** The scenario, step by step. *)
Example end_to_end :
  map Hash
    (match fst (RefreshFeedEntries 1 1
                  [candidate "h1" "A"; candidate "h2" "B"] true w_empty) with
     | Ok newEntries => newEntries
     | Err _ => []
     end) = ["h1"; "h2"]
  /\ map shown (entries_tbl w_first)
     = [("h1", "A", "unread"); ("h2", "B", "unread")]
  /\ map shown (entries_tbl w_second)
     = [("h1", "A2", "unread"); ("h2", "B", "removed");
        ("h3", "C", "unread")]
  /\ map go_entryHashes (goroutines w_second)
     = [["h1"; "h2"]; ["h1"; "h3"]]
  /\ map shown (entries_tbl w_swept)
     = [("h1", "A2", "unread"); ("h3", "C", "unread")].
Proof. vm_compute. repeat split. Qed.

(** The fragments a chain of filters leaves in the builder, and a
    navigation that finds no starred neighbour. *)
Example builder_filters_run :
  conditions
    (WithGloballyVisible
       (WithTags (Collab := list_store) ["Go"]
          (WithStatus "unread"
             (WithCategoryID 0
                (WithFeedID 1
                   (WithStarred
                      (WithSearchQuery "x" (by_published 2 "asc"))))))))
  = [cond_user_id 1; cond_status_ne "removed"; cond_search "%x%";
     cond_starred; cond_feed_id 1; cond_status "unread";
     cond_tags
       (String.append "%"
          (String.append dquote (String.append "go" (String.append dquote "%"))));
     cond_category_visible; cond_feed_visible]
  /\ fst (Entries (WithStarred (by_published 2 "asc")) w_three)
     = Ok (None, None).
Proof. split; reflexivity. Qed.

(** * The further properties on the example worlds *)

(** The keys on the three unread entries. *)
Lemma keys_are_kept_witness :
  (keyed w_three)
  /\ ((forall userID feedID entries update,
      keyed (snd (RefreshFeedEntries userID feedID entries update w_three)))
  /\ (forall g, keyed (snd (run_goroutine g w_three)))
  /\ (forall status days limit,
        keyed (snd (ArchiveEntries status days limit w_three)))
  /\ (forall userID ids status,
        keyed (snd (SetEntriesStatus userID ids status w_three)))
  /\ (forall userID ids starred,
        keyed (snd (SetEntriesBookmarkedState userID ids starred w_three)))
  /\ (forall userID entryID, keyed (snd (ToggleBookmark userID entryID w_three)))
  /\ (forall userID, keyed (snd (FlushHistory userID w_three)))
  /\ (forall userID, keyed (snd (MarkAllAsRead userID w_three)))
  /\ (forall userID before,
        keyed (snd (MarkAllAsReadBeforeDate userID before w_three)))
  /\ (forall userID, keyed (snd (MarkGloballyVisibleFeedsAsRead userID w_three)))
  /\ (forall userID feedID before,
        keyed (snd (MarkFeedAsRead userID feedID before w_three)))
  /\ (forall userID categoryID before,
        keyed (snd (MarkCategoryAsRead userID categoryID before w_three)))
  /\ (forall entry, keyed (snd (UpdateEntryTitleAndContent entry w_three)))
  /\ (forall generated userID entryID,
        keyed (snd (EntryShareCode generated userID entryID w_three)))
  /\ (forall userID entryID, keyed (snd (UnshareEntry userID entryID w_three)))).
Proof.
  assert (H1 : keyed w_three).
  { split; distinct_ids. }
  split; [exact H1|].
  exact (keys_are_kept w_three H1).
Defined.

(** The first refresh of the scenario stores its two candidates. *)
Lemma refresh_stores_candidates_witness :
  (RefreshFeedEntries 1 1 first_batch true w_empty = (Ok first_entries, w_first))
  /\ ((forall c, In c first_batch ->
     exists r, In r (entries_tbl w_first) /\ entries.feed_id r = 1
               /\ entries.hash r = Hash c)
  /\ goroutines w_first
     = goroutines w_empty ++ [mkGoroutine 1 1 (map Hash first_batch)]
  /\ (forall c, In c first_batch ->
        exists r,
          In r (entries_tbl
                  (snd (run_goroutine
                          (mkGoroutine 1 1 (map Hash first_batch)) w_first)))
          /\ entries.feed_id r = 1 /\ entries.hash r = Hash c)).
Proof.
  assert (H1 : RefreshFeedEntries 1 1 first_batch true w_empty = (Ok first_entries, w_first)).
  { vm_compute; reflexivity. }
  split; [exact H1|].
  exact (refresh_stores_candidates 1 1 true first_batch w_empty w_first first_entries H1).
Defined.

(** User 1 refreshes a feed whose only entry user 2 owns. *)
Lemma refresh_update_foreign_owner_witness :
  (healthy w_foreign)
  /\ ((exists r, In r (entries_tbl w_foreign) /\ entries.feed_id r = 1
             /\ entries.hash r = Hash (candidate "h1" "A2")))
  /\ ((forall r, In r (entries_tbl w_foreign) -> entries.feed_id r = 1 ->
             entries.hash r = Hash (candidate "h1" "A2") -> entries.user_id r <> 1))
  /\ (RefreshFeedEntries 1 1 [(candidate "h1" "A2")] true w_foreign
  = (Err (ErrorsNew "store: no entry found to update"), w_foreign)).
Proof.
  assert (H1 : healthy w_foreign).
  { reflexivity. }
  assert (H2 : (exists r, In r (entries_tbl w_foreign) /\ entries.feed_id r = 1
             /\ entries.hash r = Hash (candidate "h1" "A2"))).
  { eexists. split; [left; reflexivity|]. split; reflexivity. }
  assert (H3 : (forall r, In r (entries_tbl w_foreign) -> entries.feed_id r = 1 ->
             entries.hash r = Hash (candidate "h1" "A2") -> entries.user_id r <> 1)).
  { intros r [<-|[]] _ _. simpl. discriminate. }
  split; [exact H1|].
  split; [exact H2|].
  split; [exact H3|].
  exact (refresh_update_foreign_owner 1 1 (candidate "h1" "A2") w_foreign H1 H2 H3).
Defined.

(** User 1 marks entry 2 of the three as read. *)
Lemma SetEntriesStatus_outcomes_witness :
  (healthy w_three)
  /\ (([2] = [] -> SetEntriesStatus 1 [2] "read" w_three = (Ok tt, w_three))
  /\ (valid_status "read" = false ->
      (exists r, In r (entries_tbl w_three) /\ addressed 1 [2] r) ->
      SetEntriesStatus 1 [2] "read" w_three
      = (Err (Errorf "store: unable to update entries statuses"
                (DriverError "CHECK constraint failed: status")), w_three))
  /\ (valid_status "read" = true
      \/ (forall r, In r (entries_tbl w_three) -> ~ addressed 1 [2] r) ->
      fst (SetEntriesStatus 1 [2] "read" w_three) = Ok tt
      /\ Forall2
           (fun r r' =>
              (addressed 1 [2] r ->
               r' = set_changed_at (clock w_three) (set_status "read" r))
              /\ (~ addressed 1 [2] r -> r' = r))
           (entries_tbl w_three)
           (entries_tbl (snd (SetEntriesStatus 1 [2] "read" w_three))))).
Proof.
  assert (H1 : healthy w_three).
  { reflexivity. }
  split; [exact H1|].
  exact (SetEntriesStatus_outcomes 1 [2] "read" w_three H1).
Defined.

(** The statuses of the three unread entries. *)
Lemma statuses_stay_valid_witness :
  (valid_table w_three)
  /\ ((forall userID feedID entries update,
      valid_table (snd (RefreshFeedEntries userID feedID entries update w_three)))
  /\ (forall g, valid_table (snd (run_goroutine g w_three)))
  /\ (forall status days limit,
        valid_table (snd (ArchiveEntries status days limit w_three)))
  /\ (forall userID ids status,
        valid_table (snd (SetEntriesStatus userID ids status w_three)))
  /\ (forall userID ids starred,
        valid_table (snd (SetEntriesBookmarkedState userID ids starred w_three)))
  /\ (forall userID entryID,
        valid_table (snd (ToggleBookmark userID entryID w_three)))
  /\ (forall userID, valid_table (snd (FlushHistory userID w_three)))
  /\ (forall userID, valid_table (snd (MarkAllAsRead userID w_three)))
  /\ (forall userID before,
        valid_table (snd (MarkAllAsReadBeforeDate userID before w_three)))
  /\ (forall userID,
        valid_table (snd (MarkGloballyVisibleFeedsAsRead userID w_three)))
  /\ (forall userID feedID before,
        valid_table (snd (MarkFeedAsRead userID feedID before w_three)))
  /\ (forall userID categoryID before,
        valid_table (snd (MarkCategoryAsRead userID categoryID before w_three)))).
Proof.
  assert (H1 : valid_table w_three).
  { repeat constructor. }
  split; [exact H1|].
  exact (statuses_stay_valid w_three H1).
Defined.

(** Archiving the old read entries: only the plain one is picked. *)
Lemma ArchiveEntries_selection_witness :
  (NoDup (map entries.id (entries_tbl w_read)))
  /\ (ArchiveEntries "read" 1 2 w_read = (Ok 1, (snd (ArchiveEntries "read" 1 2 w_read))))
  /\ (exists selected,
    1 = Z.of_nat (List.length selected)
    /\ 1 <= Z.max 0 2
    /\ (forall r, In r selected ->
          In r (entries_tbl w_read) /\ archivable_row "read" 1 w_read r)
    /\ (forall r r2, In r selected -> In r2 (entries_tbl w_read) ->
          archivable_row "read" 1 w_read r2 -> ~ In r2 selected ->
          entries.created_at r <= entries.created_at r2)
    /\ (1 < 2 -> 0 <= 1 ->
        forall r, In r (entries_tbl w_read) -> archivable_row "read" 1 w_read r ->
                  In r selected)
    /\ Forall2
         (fun r r' =>
            (In r selected -> r' = set_status EntryStatusRemoved r)
            /\ (~ In r selected -> r' = r))
         (entries_tbl w_read) (entries_tbl (snd (ArchiveEntries "read" 1 2 w_read)))).
Proof.
  assert (H1 : NoDup (map entries.id (entries_tbl w_read))).
  { distinct_ids. }
  assert (H2 : ArchiveEntries "read" 1 2 w_read = (Ok 1, (snd (ArchiveEntries "read" 1 2 w_read)))).
  { vm_compute; reflexivity. }
  split; [exact H1|].
  split; [exact H2|].
  exact (ArchiveEntries_selection "read" 1 2 w_read (snd (ArchiveEntries "read" 1 2 w_read)) 1 H1 H2).
Defined.

(** Flushing the history of user 1. *)
Lemma FlushHistory_settles_witness :
  (healthy w_read)
  /\ (fst (FlushHistory 1 w_read) = Ok tt
  /\ (forall r, In r (entries_tbl (snd (FlushHistory 1 w_read))) ->
                ~ flushable 1 r)
  /\ FlushHistory 1 (snd (FlushHistory 1 w_read))
     = (Ok tt, snd (FlushHistory 1 w_read))).
Proof.
  assert (H1 : healthy w_read).
  { reflexivity. }
  split; [exact H1|].
  exact (FlushHistory_settles 1 w_read H1).
Defined.


(** Toggling the bookmark of entry 2 twice. *)
Lemma ToggleBookmark_twice_witness :
  (healthy w_three)
  /\ (Forall2
    (fun r r'' =>
       (toggled 1 2 r ->
        entries.starred r = 0 \/ entries.starred r = 1 ->
        r'' = set_changed_at (clock w_three) r)
       /\ (~ toggled 1 2 r -> r'' = r))
    (entries_tbl w_three)
    (entries_tbl
       (snd (ToggleBookmark 1 2
               (snd (ToggleBookmark 1 2 w_three)))))).
Proof.
  assert (H1 : healthy w_three).
  { reflexivity. }
  split; [exact H1|].
  exact (ToggleBookmark_twice 1 2 w_three H1).
Defined.

(** User 1 stars entry 2 of the three. *)
Lemma SetEntriesBookmarkedState_outcomes_witness :
  (healthy w_three)
  /\ (([2] = [] -> SetEntriesBookmarkedState 1 [2] true w_three = (Ok tt, w_three))
  /\ ([2] <> [] ->
      (forall r, In r (entries_tbl w_three) -> ~ addressed 1 [2] r) ->
      SetEntriesBookmarkedState 1 [2] true w_three
      = (Err (ErrorsNew "store: nothing has been updated"), w_three))
  /\ ((exists r, In r (entries_tbl w_three) /\ addressed 1 [2] r) ->
      fst (SetEntriesBookmarkedState 1 [2] true w_three) = Ok tt
      /\ Forall2
           (fun r r' =>
              (addressed 1 [2] r ->
               r' = set_changed_at (clock w_three)
                      (set_starred (if true then 1 else 0) r))
              /\ (~ addressed 1 [2] r -> r' = r))
           (entries_tbl w_three)
           (entries_tbl
              (snd (SetEntriesBookmarkedState 1 [2] true w_three))))).
Proof.
  assert (H1 : healthy w_three).
  { reflexivity. }
  split; [exact H1|].
  exact (SetEntriesBookmarkedState_outcomes 1 [2] true w_three H1).
Defined.

(** After the first refresh of the scenario its candidates are not new. *)
Lemma IsNewEntry_after_refresh_witness :
  (RefreshFeedEntries 1 1 first_batch true w_empty = (Ok first_entries, w_first))
  /\ ((forall c (w2 : World (Collab := list_store)), In c first_batch -> entries_tbl w2 = entries_tbl w_first ->
                healthy w2 ->
                IsNewEntry 1 (Hash c) w2 = (Ok false, w2))
  /\ (forall h (w2 : World (Collab := list_store)) msg fs, faults w2 = Some msg :: fs ->
                          fst (IsNewEntry 1 h w2) = Ok true)).
Proof.
  assert (H1 : RefreshFeedEntries 1 1 first_batch true w_empty = (Ok first_entries, w_first)).
  { vm_compute; reflexivity. }
  split; [exact H1|].
  exact (IsNewEntry_after_refresh 1 1 true first_batch w_empty w_first first_entries H1).
Defined.

(** The reading time of the stored entry after a refresh that updates it. *)
Lemma GetReadTime_after_refresh_witness :
  (NoDup (map feed_hash (entries_tbl w_stored)))
  /\ (RefreshFeedEntries 1 1 [long_read] true w_stored = (Ok [], (snd (RefreshFeedEntries 1 1 [long_read] true w_stored))))
  /\ (healthy (snd (RefreshFeedEntries 1 1 [long_read] true w_stored)))
  /\ (GetReadTime 1 (Hash long_read) (snd (RefreshFeedEntries 1 1 [long_read] true w_stored)) = (Ok (ReadingTime long_read), (snd (RefreshFeedEntries 1 1 [long_read] true w_stored)))).
Proof.
  assert (H1 : NoDup (map feed_hash (entries_tbl w_stored))).
  { distinct_ids. }
  assert (H2 : RefreshFeedEntries 1 1 [long_read] true w_stored = (Ok [], (snd (RefreshFeedEntries 1 1 [long_read] true w_stored)))).
  { vm_compute; reflexivity. }
  assert (H3 : healthy (snd (RefreshFeedEntries 1 1 [long_read] true w_stored))).
  { vm_compute; reflexivity. }
  split; [exact H1|].
  split; [exact H2|].
  split; [exact H3|].
  exact (GetReadTime_after_refresh 1 1 long_read w_stored (snd (RefreshFeedEntries 1 1 [long_read] true w_stored)) [] H1 H2 H3).
Defined.

(** Sharing entry 3 of the old read entries. *)
Lemma EntryShareCode_outcomes_witness :
  (healthy w_read)
  /\ (NoDup (map entries.id (entries_tbl w_read)))
  /\ (((forall r, In r (entries_tbl w_read) -> ~ owned_entry 1 3 r) ->
   EntryShareCode "c0de" 1 3 w_read
   = (Err (Errorf "store: unable to get share code for entry" ErrNoRows), w_read))
  /\ (forall r, In r (entries_tbl w_read) -> owned_entry 1 3 r ->
        (entries.share_code r <> EmptyString ->
         EntryShareCode "c0de" 1 3 w_read
         = (Ok (entries.share_code r), w_read))
        /\ (entries.share_code r = EmptyString ->
            "c0de" <> EmptyString ->
            (exists r2, In r2 (entries_tbl w_read)
                        /\ entries.share_code r2 = "c0de") ->
            EntryShareCode "c0de" 1 3 w_read
            = (Err (Errorf "store: unable to set share code for entry"
                      (DriverError
                         "UNIQUE constraint failed: entries.share_code")),
               w_read))
        /\ (entries.share_code r = EmptyString ->
            "c0de" <> EmptyString ->
            (forall r2, In r2 (entries_tbl w_read) ->
                        entries.share_code r2 <> "c0de") ->
            fst (EntryShareCode "c0de" 1 3 w_read) = Ok "c0de"
            /\ Forall2
                 (fun r r' =>
                    (owned_entry 1 3 r ->
                     r' = set_share_code "c0de" r)
                    /\ (~ owned_entry 1 3 r -> r' = r))
                 (entries_tbl w_read)
                 (entries_tbl
                    (snd (EntryShareCode "c0de" 1 3 w_read)))))).
Proof.
  assert (H1 : healthy w_read).
  { reflexivity. }
  assert (H2 : NoDup (map entries.id (entries_tbl w_read))).
  { distinct_ids. }
  split; [exact H1|].
  split; [exact H2|].
  exact (EntryShareCode_outcomes "c0de" 1 3 w_read H1 H2).
Defined.

(** Entry 3 keeps the code of its first sharing. *)
Lemma EntryShareCode_stable_witness :
  (EntryShareCode "c0de" 1 3 w_read = (Ok "c0de", (snd (EntryShareCode "c0de" 1 3 w_read))))
  /\ ("c0de" <> EmptyString)
  /\ (healthy (snd (EntryShareCode "c0de" 1 3 w_read)))
  /\ (EntryShareCode "beef" 1 3 (snd (EntryShareCode "c0de" 1 3 w_read)) = (Ok "c0de", (snd (EntryShareCode "c0de" 1 3 w_read)))).
Proof.
  assert (H1 : EntryShareCode "c0de" 1 3 w_read = (Ok "c0de", (snd (EntryShareCode "c0de" 1 3 w_read)))).
  { vm_compute; reflexivity. }
  assert (H2 : "c0de" <> EmptyString).
  { discriminate. }
  assert (H3 : healthy (snd (EntryShareCode "c0de" 1 3 w_read))).
  { vm_compute; reflexivity. }
  split; [exact H1|].
  split; [exact H2|].
  split; [exact H3|].
  exact (EntryShareCode_stable "c0de" "beef" 1 3 w_read (snd (EntryShareCode "c0de" 1 3 w_read)) "c0de" H1 H2 H3).
Defined.

(** Sharing and unsharing entry 3. *)
Lemma share_then_unshare_witness :
  (healthy w_read)
  /\ ((forall r, In r (entries_tbl w_read) -> owned_entry 1 3 r ->
             entries.share_code r = EmptyString))
  /\ (EntryShareCode "c0de" 1 3 w_read = (Ok "c0de", (snd (EntryShareCode "c0de" 1 3 w_read))))
  /\ (entries_tbl (snd (UnshareEntry 1 3 (snd (EntryShareCode "c0de" 1 3 w_read)))) = entries_tbl w_read).
Proof.
  assert (H1 : healthy w_read).
  { reflexivity. }
  assert (H2 : (forall r, In r (entries_tbl w_read) -> owned_entry 1 3 r ->
             entries.share_code r = EmptyString)).
  { intros r [<-|[<-|[<-|[]]]] [_ E]; try (vm_compute in E; discriminate E); reflexivity. }
  assert (H3 : EntryShareCode "c0de" 1 3 w_read = (Ok "c0de", (snd (EntryShareCode "c0de" 1 3 w_read)))).
  { vm_compute; reflexivity. }
  split; [exact H1|].
  split; [exact H2|].
  split; [exact H3|].
  exact (share_then_unshare "c0de" 1 3 w_read (snd (EntryShareCode "c0de" 1 3 w_read)) "c0de" H1 H2 H3).
Defined.

(** Editing entry 2 of the three. *)
Lemma UpdateEntryTitleAndContent_silent_witness :
  (healthy w_three)
  /\ (fst (UpdateEntryTitleAndContent edited w_three) = Ok tt
  /\ ((forall r, In r (entries_tbl w_three) ->
                 ~ owned_entry (UserID edited) (ID edited) r) ->
      UpdateEntryTitleAndContent edited w_three = (Ok tt, w_three))
  /\ Forall2
       (fun r r' =>
          (owned_entry (UserID edited) (ID edited) r -> r' = retitled edited r)
          /\ (~ owned_entry (UserID edited) (ID edited) r -> r' = r))
       (entries_tbl w_three)
       (entries_tbl (snd (UpdateEntryTitleAndContent edited w_three)))).
Proof.
  assert (H1 : healthy w_three).
  { reflexivity. }
  split; [exact H1|].
  exact (UpdateEntryTitleAndContent_silent edited w_three H1).
Defined.

(** The neighbours of entry 2 within feed 1. *)
Lemma neighbours_of_the_user_witness :
  (getPrevNextID
    (add_conditions [cond_feed_id 1]
       (NewEntryPaginationBuilder 1 2 "published_at" "asc")) w_three
  = (Ok (1, 3), w_three))
  /\ (forall x, x = 1 \/ x = 3 ->
    x = 0
    \/ exists r, In r (entries_tbl w_three) /\ entries.id r = x
                 /\ entries.user_id r = 1
                 /\ entries.status r <> "removed").
Proof.
  assert (H1 : getPrevNextID
    (add_conditions [cond_feed_id 1]
       (NewEntryPaginationBuilder 1 2 "published_at" "asc")) w_three
  = (Ok (1, 3), w_three)).
  { vm_compute; reflexivity. }
  split; [exact H1|].
  exact (neighbours_of_the_user 1 2 "published_at" "asc" [cond_feed_id 1] w_three w_three 1 3 H1).
Defined.

(** The neighbours of entry 2 by publication date. *)
Lemma neighbours_apart_witness :
  (healthy w_three)
  /\ (NoDup (map entries.id (entries_tbl w_three)))
  /\ (entries_column (order (by_published 2 "asc")) = Some (IntColumn entries.published_at))
  /\ (exists prevID nextID,
    getPrevNextID (by_published 2 "asc") w_three = (Ok (prevID, nextID), w_three)
    /\ (prevID <> 0 -> prevID <> entryID (by_published 2 "asc") /\ prevID <> nextID)
    /\ (nextID <> 0 -> nextID <> entryID (by_published 2 "asc"))).
Proof.
  assert (H1 : healthy w_three).
  { reflexivity. }
  assert (H2 : NoDup (map entries.id (entries_tbl w_three))).
  { distinct_ids. }
  assert (H3 : entries_column (order (by_published 2 "asc")) = Some (IntColumn entries.published_at)).
  { reflexivity. }
  split; [exact H1|].
  split; [exact H2|].
  split; [exact H3|].
  exact (neighbours_apart (by_published 2 "asc") w_three entries.published_at H1 H2 H3).
Defined.

(** Navigating from entry 7, which the three entries do not include. *)
Lemma navigation_without_anchor_witness :
  (healthy w_three)
  /\ (entries_column (order (by_published 7 "desc")) <> None)
  /\ (forall r, In r (entries_tbl w_three) ->
                entries.id r <> entryID (by_published 7 "desc"))
  /\ (forall r, In r (entries_tbl w_three) -> entries.id r <> 0)
  /\ (getPrevNextID (by_published 7 "desc") w_three = (Ok (0, 0), w_three)
      /\ Entries (by_published 7 "desc") w_three = (Ok (None, None), w_three)).
Proof.
  assert (H1 : healthy w_three).
  { reflexivity. }
  assert (H2 : entries_column (order (by_published 7 "desc")) <> None).
  { discriminate. }
  assert (H3 : forall r, In r (entries_tbl w_three) ->
                         entries.id r <> entryID (by_published 7 "desc")).
  { intros r [<-|[<-|[<-|[]]]]; discriminate. }
  assert (H4 : forall r, In r (entries_tbl w_three) -> entries.id r <> 0).
  { intros r [<-|[<-|[<-|[]]]]; discriminate. }
  split; [exact H1|].
  split; [exact H2|].
  split; [exact H3|].
  split; [exact H4|].
  exact (navigation_without_anchor (by_published 7 "desc") w_three
           H1 H2 H3 H4).
Defined.

(** Removing entries 2 and 3 of the three: both are still counted. *)
Lemma SetEntriesStatusCount_ignores_status_witness :
  (healthy w_three)
  /\ (valid_status "removed" = true)
  /\ (SetEntriesStatusCount 1 [2; 3] "removed" w_three
      = (Ok (Z.of_nat
               (List.length (filter (counted 1 [2; 3]) (joined w_three)))),
         snd (SetEntriesStatus 1 [2; 3] "removed" w_three))).
Proof.
  assert (H1 : healthy w_three).
  { reflexivity. }
  assert (H2 : valid_status "removed" = true).
  { reflexivity. }
  split; [exact H1|].
  split; [exact H2|].
  exact (SetEntriesStatusCount_ignores_status 1 [2; 3] "removed" w_three
           H1 H2).
Defined.

(** The count of that call, and a cut inside a two-byte character at a
    limit of four bytes. *)
Example SetEntriesStatusCount_run :
  fst (SetEntriesStatusCount 1 [2; 3] "removed" w_three) = Ok 2.
Proof. reflexivity. Qed.

Example truncate_to_run :
  truncate_to 4
    (String "a" (String "b" (String (ascii_of_nat 195)
       (String (ascii_of_nat 169) "cd"))))
  = "ab".
Proof. reflexivity. Qed.
